(** * Raito fixture generator ([scripts/data/generate_data.py])

    A shallow embedding of the chain-state transition, the compact-target
    and amount formatters, the outpoint resolver, the intra-block cache
    pass and the fixture assembler, together with the properties the
    specification states about them.

    Conventions.
    - Python [int] is [Z]; JSON strings are [string]; a JSON object with a
      fixed set of keys is a record, a key that the node may omit is an
      [option] field and reading it when absent raises [KeyError].
    - A Python exception is the [Raise] branch of [result].
    - A [dict] used as a map is a [gmap]; a [dict] whose iteration order
      matters is an association list without duplicate keys.
    - The JSON-RPC node and the three auxiliary data providers are an
      oracle record [Node]: the script only reads from them. *)

From Stdlib Require Import ZArith Ascii String List Bool Lia.
From stdpp Require Import base option list gmap strings.

Local Open Scope string_scope.
Local Open Scope list_scope.
Local Open Scope Z_scope.

(** ** Exceptions *)

Inductive exn : Type :=
  | KeyError
  | IndexError
  | ValueError
  | TypeError
  | Overflow
  | OverflowError
  | InvalidOperation
  | AssertionError
  | NotImplementedError (mode : string)
  | ConnectionError.

Inductive result (A : Type) : Type :=
  | Ok (a : A)
  | Raise (e : exn).
Arguments Ok {A} a.
Arguments Raise {A} e.

#[global] Instance result_ret : MRet result := fun A a => Ok a.
#[global] Instance result_bind : MBind result := fun A B f m =>
  match m with
  | Ok a => f a
  | Raise e => Raise e
  end.
#[global] Instance result_fmap : FMap result := fun A B f m =>
  match m with
  | Ok a => Ok (f a)
  | Raise e => Raise e
  end.

(** [d[k]] on an optional key. *)
Definition get_key {A} (o : option A) : result A :=
  match o with
  | Some a => Ok a
  | None => Raise KeyError
  end.

(** [[f(x) for x in xs]], left to right, stopping at the first exception. *)
Fixpoint mapM {A B} (f : A → result B) (xs : list A) : result (list B) :=
  match xs with
  | [] => Ok []
  | x :: xs' => y ← f x; ys ← mapM f xs'; Ok (y :: ys)
  end.

(** ** Python sequence primitives *)

(** [l[-n:]] for a positive literal [n]. *)
Definition py_last_n {A} (n : nat) (l : list A) : list A :=
  drop (length l - n)%nat l.

(** [l[:-1]]. *)
Definition py_but_last {A} (l : list A) : list A :=
  take (length l - 1)%nat l.

(** [l[i]] with Python's negative indices. *)
Definition py_index {A} (l : list A) (i : Z) : result A :=
  let n := Z.of_nat (length l) in
  if (0 <=? i) && (i <? n) then
    match l !! Z.to_nat i with Some a => Ok a | None => Raise IndexError end
  else if (- n <=? i) && (i <? 0) then
    match l !! Z.to_nat (n + i) with Some a => Ok a | None => Raise IndexError end
  else Raise IndexError.

(** [s[:n]] and [s[n:]] on strings. *)
Fixpoint str_take (n : nat) (s : string) : string :=
  match n, s with
  | S n', String c s' => String c (str_take n' s')
  | _, _ => EmptyString
  end.

Fixpoint str_drop (n : nat) (s : string) : string :=
  match n, s with
  | S n', String _ s' => str_drop n' s'
  | _, _ => s
  end.

(** ** Hexadecimal decoding *)

Definition ascii_code (c : ascii) : Z := Z.of_N (N_of_ascii c).

Definition hex_digit (c : ascii) : option Z :=
  let n := ascii_code c in
  if (48 <=? n) && (n <=? 57) then Some (n - 48)
  else if (97 <=? n) && (n <=? 102) then Some (n - 87)
  else if (65 <=? n) && (n <=? 70) then Some (n - 55)
  else None.

(** The characters [bytes.fromhex] skips between two bytes. *)
Definition is_py_space (c : ascii) : bool :=
  let n := ascii_code c in
  (n =? 32) || ((9 <=? n) && (n <=? 13)).

(** [bytes.fromhex(s)]: pairs of hex digits, white space allowed between
    pairs, [ValueError] on anything else. *)
Fixpoint bytes_fromhex (s : string) : result (list Z) :=
  match s with
  | EmptyString => Ok []
  | String c s' =>
      if is_py_space c then bytes_fromhex s'
      else match s' with
           | EmptyString => Raise ValueError
           | String d s'' =>
               match hex_digit c, hex_digit d with
               | Some hi, Some lo =>
                   bs ← bytes_fromhex s''; Ok (16 * hi + lo :: bs)
               | _, _ => Raise ValueError
               end
           end
  end.

(** [int.from_bytes(bs, "big")]. *)
Definition int_from_bytes_big (bs : list Z) : Z :=
  fold_left (fun acc b => acc * 256 + b) bs 0.

(** [int.from_bytes(bytes.fromhex(s), "big")]. *)
Definition int_of_hex (s : string) : result Z :=
  bs ← bytes_fromhex s; Ok (int_from_bytes_big bs).

(** ** Compact target codec *)

Definition bits_to_target (bits : string) : result Z :=
  exponent ← int_of_hex (str_take 2 bits);
  mantissa ← int_of_hex (str_drop 2 bits);
  if exponent =? 0 then Ok mantissa
  else if exponent <=? 3 then Ok (Z.shiftr mantissa (8 * (3 - exponent)))
  else Ok (Z.shiftl mantissa (8 * (exponent - 3))).

(** ** Decimal arithmetic ([decimal.Decimal] under [getcontext().prec = 16])

    A finite decimal is sign, coefficient and exponent, as in Python's
    [Decimal._sign], [int(Decimal._int)] and [Decimal._exp]; the coefficient
    string never has leading zeros, so it is kept as a number and its length
    is [ndigits].  The arithmetic is that of the reference implementation
    of the [decimal] module; infinities and NaN, which a text may denote,
    are told apart when the text is read (see [decimal_new]). *)

Module Decimal.
Record t : Type := mk { sign : bool; coeff : Z; exp : Z }.
End Decimal.

Definition prec : Z := 16.
Definition Emax : Z := 999999.
Definition Emin : Z := -999999.
Definition Etiny : Z := Emin - prec + 1.
Definition Etop : Z := Emax - prec + 1.

Fixpoint ndigits_aux (fuel : nat) (c : Z) : Z :=
  match fuel with
  | O => 1
  | S fuel' => if c <? 10 then 1 else 1 + ndigits_aux fuel' (c / 10)
  end.

(** [len(str(c))] for [0 <= c]. *)
Definition ndigits (c : Z) : Z := ndigits_aux (Z.to_nat (Z.log2 c)) c.

(** [Decimal._round_half_even(prec=digits)] on a coefficient of [len]
    digits, of which the first [digits] are kept: [1] when the kept part
    is to be incremented, [0] when the dropped digits are all zero, [-1]
    when they are dropped without increment. *)
Definition round_half_even (c len digits : Z) : Z :=
  let dropped := len - digits in
  let half := 5 * 10 ^ (dropped - 1) in
  let kept := c / 10 ^ dropped in
  let rest := c mod 10 ^ dropped in
  if (rest =? half) && Z.even kept then -1
  else if half <=? rest then 1
  else if rest =? 0 then 0
  else -1.

(** [Decimal._fix(context)]: round to [prec] significant digits. *)
Definition decimal_fix (d : Decimal.t) : result Decimal.t :=
  let '(Decimal.mk s c e) := d in
  if c =? 0 then
    Ok (Decimal.mk s 0 (Z.min (Z.max e Etiny) Emax))
  else
    let exp_min := ndigits c + e - prec in
    if Etop <? exp_min then Raise Overflow
    else
      let exp_min := if exp_min <? Etiny then Etiny else exp_min in
      if e <? exp_min then
        let digits := ndigits c + e - exp_min in
        let '(c, len, digits) :=
          if digits <? 0 then (1, 1, 0) else (c, ndigits c, digits) in
        let changed := round_half_even c len digits in
        let coeff := c / 10 ^ (len - digits) in
        let '(coeff, exp_min) :=
          if 0 <? changed then
            let coeff := coeff + 1 in
            if prec <? ndigits coeff then (coeff / 10, exp_min + 1)
            else (coeff, exp_min)
          else (coeff, exp_min) in
        if Etop <? exp_min then Raise Overflow
        else Ok (Decimal.mk s coeff exp_min)
      else Ok d.

(** [Decimal.__mul__]. *)
Definition decimal_mul (a b : Decimal.t) : result Decimal.t :=
  decimal_fix (Decimal.mk (xorb (Decimal.sign a) (Decimal.sign b))
                          (Decimal.coeff a * Decimal.coeff b)
                          (Decimal.exp a + Decimal.exp b)).

(** [Decimal._rescale(0, ROUND_HALF_EVEN)]. *)
Definition decimal_rescale0 (d : Decimal.t) : Decimal.t :=
  let '(Decimal.mk s c e) := d in
  if c =? 0 then Decimal.mk s 0 0
  else if 0 <=? e then Decimal.mk s (c * 10 ^ e) 0
  else
    let digits := ndigits c + e in
    let '(c, len, digits) :=
      if digits <? 0 then (1, 1, 0) else (c, ndigits c, digits) in
    let changed := round_half_even c len digits in
    let coeff := c / 10 ^ (len - digits) in
    Decimal.mk s (if changed =? 1 then coeff + 1 else coeff) 0.

(** [Decimal.to_integral_value()], rounding taken from the context. *)
Definition to_integral_value (d : Decimal.t) : Decimal.t :=
  if 0 <=? Decimal.exp d then d else decimal_rescale0 d.

(** [int(d)]. *)
Definition decimal_int (d : Decimal.t) : Z :=
  let s := if Decimal.sign d then -1 else 1 in
  if 0 <=? Decimal.exp d then s * Decimal.coeff d * 10 ^ Decimal.exp d
  else s * (Decimal.coeff d / 10 ^ (- Decimal.exp d)).

(** *** Reading a numeral: [Decimal(text)]

    The text is stripped of surrounding white space, its underscores are
    removed, and what is left must be an optional sign followed by either
    a number (digits, an optional point followed by digits, an optional
    exponent made of e or E, an optional sign and at least one digit, with
    at least one digit in the mantissa), or [Inf] or [Infinity], or [NaN]
    or [sNaN] followed by digits, letters in either case; anything else
    raises [InvalidOperation].  Amount texts are ASCII, as [str] of a JSON
    number is. *)

Definition digit_val (c : ascii) : option Z :=
  let n := ascii_code c in
  if (48 <=? n) && (n <=? 57) then Some (n - 48) else None.

(** Longest prefix of digits: its value, its length and what follows. *)
Fixpoint read_digits (s : string) (acc : Z) (n : Z) : Z * Z * string :=
  match s with
  | String c s' =>
      match digit_val c with
      | Some v => read_digits s' (10 * acc + v) (n + 1)
      | None => (acc, n, s)
      end
  | EmptyString => (acc, n, s)
  end.

Definition read_sign (s : string) : bool * string :=
  match s with
  | String "-" s' => (true, s')
  | String "+" s' => (false, s')
  | _ => (false, s)
  end.

(** The ASCII characters for which [str.isspace] holds. *)
Definition is_str_space (c : ascii) : bool :=
  let n := ascii_code c in
  (n =? 32) || ((9 <=? n) && (n <=? 13)) || ((28 <=? n) && (n <=? 31)).

Fixpoint str_lstrip (s : string) : string :=
  match s with
  | String c s' => if is_str_space c then str_lstrip s' else s
  | EmptyString => EmptyString
  end.

Fixpoint str_rstrip (s : string) : string :=
  match s with
  | String c s' =>
      match str_rstrip s' with
      | EmptyString => if is_str_space c then EmptyString else String c EmptyString
      | kept => String c kept
      end
  | EmptyString => EmptyString
  end.

(** [s.strip()]. *)
Definition str_strip (s : string) : string := str_rstrip (str_lstrip s).

(** [s.replace("_", "")]. *)
Fixpoint remove_underscores (s : string) : string :=
  match s with
  | String c s' =>
      if ascii_code c =? 95 then remove_underscores s'
      else String c (remove_underscores s')
  | EmptyString => EmptyString
  end.

Definition ascii_lower (c : ascii) : ascii :=
  let n := ascii_code c in
  if (65 <=? n) && (n <=? 90) then ascii_of_N (Z.to_N (n + 32)) else c.

Fixpoint str_lower (s : string) : string :=
  match s with
  | String c s' => String (ascii_lower c) (str_lower s')
  | EmptyString => EmptyString
  end.

Fixpoint all_digits (s : string) : bool :=
  match s with
  | String c s' => bool_decide (is_Some (digit_val c)) && all_digits s'
  | EmptyString => true
  end.

(** Texts of ASCII characters only. *)
Fixpoint ascii_text (s : string) : bool :=
  match s with
  | String c s' => (ascii_code c <? 128) && ascii_text s'
  | EmptyString => true
  end.

(** The number alternative, after the sign. *)
Definition decimal_numeral (sg : bool) (s1 : string) : result Decimal.t :=
  let '(ip, ilen, s2) := read_digits s1 0 0 in
  let '(c, flen, s3) :=
    match s2 with
    | String "." s2' => read_digits s2' ip 0
    | _ => (ip, 0, s2)
    end in
  if ilen + flen =? 0 then Raise InvalidOperation
  else
    match s3 with
    | EmptyString => Ok (Decimal.mk sg c (- flen))
    | String e s4 =>
        if (ascii_code e =? 101) || (ascii_code e =? 69) then
          let '(esg, s5) := read_sign s4 in
          let '(ev, elen, s6) := read_digits s5 0 0 in
          match s6 with
          | EmptyString =>
              if elen =? 0 then Raise InvalidOperation
              else Ok (Decimal.mk sg c ((if esg then - ev else ev) - flen))
          | _ => Raise InvalidOperation
          end
        else Raise InvalidOperation
    end.

Inductive decimal_value : Type :=
  | Finite (d : Decimal.t)
  | Infinite (sign : bool)
  | QuietNaN (sign : bool)
  | SignalingNaN (sign : bool).

(** [Decimal(text)]. *)
Definition decimal_new (text : string) : result decimal_value :=
  let '(sg, body) := read_sign (remove_underscores (str_strip text)) in
  let low := str_lower body in
  if bool_decide (low = "inf") || bool_decide (low = "infinity") then
    Ok (Infinite sg)
  else if bool_decide (str_take 3 low = "nan") && all_digits (str_drop 3 low) then
    Ok (QuietNaN sg)
  else if bool_decide (str_take 4 low = "snan") && all_digits (str_drop 4 low) then
    Ok (SignalingNaN sg)
  else d ← decimal_numeral sg body; Ok (Finite d).

(** The amount [Decimal(text)] when it is finite.  On a special value,
    the exception that the rest of
    [int((Decimal(text) * Decimal("100000000")).to_integral_value())]
    raises for it: the product and the integral value of an infinity are
    infinite and [int] raises [OverflowError]; those of a NaN are NaN and
    [int] raises [ValueError]; the product with a signaling NaN raises
    [InvalidOperation]. *)
Definition decimal_of_string (text : string) : result Decimal.t :=
  v ← decimal_new text;
  match v with
  | Finite d => Ok d
  | Infinite _ => Raise OverflowError
  | QuietNaN _ => Raise ValueError
  | SignalingNaN _ => Raise InvalidOperation
  end.

Definition hundred_million : Decimal.t := Decimal.mk false 100000000 0.

(** [int((Decimal(text) * Decimal("100000000")).to_integral_value())]. *)
Definition satoshis (text : string) : result Z :=
  amount ← decimal_of_string text;
  product ← decimal_mul amount hundred_million;
  Ok (decimal_int (to_integral_value product)).

(** ** Node-reported data (JSON-RPC results) *)

Module RawInput.
(** An element of [tx["vin"]].  A coinbase input has [coinbase] and no
    [txid], [vout] or [scriptSig]; [scriptSig] stands for
    [input["scriptSig"]["hex"]]. *)
Record t : Type := mk {
  coinbase : option string;
  txid : option string;
  vout : option Z;
  scriptSig : option string;
  sequence : Z;
  txinwitness : option (list string)
}.
End RawInput.

Module RawOutput.
(** An element of [tx["vout"]].  [value] is the text [str(output["value"])]
    of the reported amount; [scriptPubKey] stands for
    [output["scriptPubKey"]["hex"]]. *)
Record t : Type := mk { value : string; scriptPubKey : string }.
End RawOutput.

Module RawTx.
Record t : Type := mk {
  txid : string;
  version : Z;
  hex : string;
  vin : list RawInput.t;
  vout : list RawOutput.t;
  locktime : Z;
  blockhash : option string
}.
End RawTx.

Module Header.
(** Result of [getblockheader], and the header keys of [getblock]. *)
Record t : Type := mk {
  hash : string;
  height : Z;
  version : Z;
  time : Z;
  bits : string;
  nonce : Z;
  chainwork : string;
  merkleroot : string;
  mediantime : Z;
  previousblockhash : option string;
  nextblockhash : option string
}.
End Header.

Module RawBlock.
(** Result of [getblock hash 2]. *)
Record t : Type := mk { header : Header.t; tx : list RawTx.t }.
End RawBlock.

Module Utxo.
(** A row of the exported UTXO data set; the numeric columns are taken
    after [int(...)]. *)
Record t : Type := mk {
  txid : string;
  vout : Z;
  value : Z;
  pk_script : string;
  block_height : Z;
  median_timestamp : Z;
  is_coinbase : bool
}.
End Utxo.

Module TimestampData.
Record t : Type := mk { previous_timestamps : list Z; epoch_start_time : Z }.
End TimestampData.

(** The node and the auxiliary data sets.  [request_rpc method params]
    either returns the parsed result or raises [ConnectionError]; the
    payload of the accumulator data set is opaque. *)
Record Node (Payload : Type) : Type := mkNode {
  getblockhash : Z → result string;
  getblockheader : string → result Header.t;
  getblock : string → result RawBlock.t;
  getrawtransaction : string → result RawTx.t;
  get_timestamp_data : Z → result TimestampData.t;
  get_utxo_set : Z → result (list Utxo.t);
  get_utreexo_data : Z → result Payload
}.
Arguments getblockhash {Payload} _ _.
Arguments getblockheader {Payload} _ _.
Arguments getblock {Payload} _ _.
Arguments getrawtransaction {Payload} _ _.
Arguments get_timestamp_data {Payload} _ _.
Arguments get_utxo_set {Payload} _ _.
Arguments get_utreexo_data {Payload} _ _.

(** ** Fixture data *)

Module Output.
Record t : Type := mk { value : Z; pk_script : string; cached : bool }.
End Output.

Module OutPoint.
Record t : Type := mk {
  txid : string;
  vout : Z;
  data : Output.t;
  block_height : Z;
  median_time_past : Z;
  is_coinbase : bool
}.
End OutPoint.

Module TxIn.
Record t : Type := mk {
  script : string;
  sequence : Z;
  previous_output : OutPoint.t;
  witness : list string
}.
End TxIn.

Module Transaction.
Record t : Type := mk {
  version : Z;
  is_segwit : bool;
  inputs : list TxIn.t;
  outputs : list Output.t;
  lock_time : Z
}.
End Transaction.

(** [block["data"]]: a dict from txid to transaction, in insertion order. *)
Abbreviation BlockData := (list (string * Transaction.t)).

(** A fetched block: the header dict alone (light), or the [getblock]
    dict extended with ["data"] (full, utreexo). *)
Inductive Block : Type :=
  | LightBlock (h : Header.t)
  | FullBlock (h : Header.t) (data : BlockData).

Definition block_header (b : Block) : Header.t :=
  match b with
  | LightBlock h => h
  | FullBlock h _ => h
  end.

(** A chain state dict: a header extended with two keys. *)
Module ChainState.
Record t : Type := mk {
  head : Header.t;
  prev_timestamps : list Z;
  epoch_start_time : Z
}.
End ChainState.

Module FHeader.
Record t : Type := mk { version : Z; time : Z; bits : Z; nonce : Z }.
End FHeader.

Inductive FBlockData : Type :=
  | MerkleRoot (merkle_root : string)          (* variant_id 0 *)
  | Transactions (txs : list Transaction.t).   (* variant_id 1 *)

Module FBlock.
Record t : Type := mk { header : FHeader.t; data : FBlockData }.
End FBlock.

Module FChainState.
(** [total_work] and [current_target] are emitted as the decimal text of
    the integers kept here. *)
Record t : Type := mk {
  block_height : Z;
  total_work : Z;
  best_block_hash : string;
  current_target : Z;
  epoch_start_time : Z;
  prev_timestamps : list Z
}.
End FChainState.

Module Fixture.
Record t (Payload : Type) : Type := mk {
  chain_state : FChainState.t;
  blocks : list FBlock.t;
  expected : FChainState.t;
  utreexo : option Payload
}.
Arguments mk {Payload} _ _ _ _.
Arguments chain_state {Payload} _.
Arguments blocks {Payload} _.
Arguments expected {Payload} _.
Arguments utreexo {Payload} _.
End Fixture.

(** ** Python dicts *)

(** [d[k] = v] on an insertion-ordered dict: an existing key keeps its
    place. *)
Fixpoint dict_set {V} (k : string) (v : V) (d : list (string * V))
  : list (string * V) :=
  match d with
  | [] => [(k, v)]
  | (k', v') :: d' =>
      if decide (k' = k) then (k, v) :: d' else (k', v') :: dict_set k v d'
  end.

(** [{k: v for (k, v) in kvs}]. *)
Definition dict_of_pairs {V} (kvs : list (string * V)) : list (string * V) :=
  fold_left (fun d kv => dict_set kv.1 kv.2 d) kvs [].

(** The UTXO snapshot [{(o["txid"], int(o["vout"])): o for o in rows}]. *)
Definition snapshot_of (rows : list Utxo.t) : gmap (string * Z) Utxo.t :=
  fold_left (fun m o => <[(Utxo.txid o, Utxo.vout o) := o]> m) rows ∅.

(** Truth value of [previous_outputs]: [None] and the empty dict are
    false. *)
Definition truthy_snapshot (po : option (gmap (string * Z) Utxo.t)) : bool :=
  match po with
  | Some m => bool_decide (m ≠ ∅)
  | None => false
  end.

(** Truth value of [input.get("coinbase")]: absent and empty are false. *)
Definition truthy_str (o : option string) : bool :=
  match o with
  | Some s => bool_decide (s ≠ "")
  | None => false
  end.

(** ** Formatters and the outpoint resolver *)

Definition zero_txid : string :=
  "0000000000000000000000000000000000000000000000000000000000000000".

Definition format_output (output : RawOutput.t) : result Output.t :=
  value ← satoshis (RawOutput.value output);
  Ok (Output.mk value ("0x" +:+ RawOutput.scriptPubKey output) false).

Definition format_coinbase_input (input : RawInput.t) : result TxIn.t :=
  cb ← get_key (RawInput.coinbase input);
  Ok (TxIn.mk ("0x" +:+ cb) (RawInput.sequence input)
        (OutPoint.mk zero_txid 4294967295 (Output.mk 0 "0x" false) 0 0 false)
        ["0x" +:+ zero_txid]).

Definition format_outpoint (previous_output : Utxo.t) : OutPoint.t :=
  OutPoint.mk (Utxo.txid previous_output) (Utxo.vout previous_output)
    (Output.mk (Utxo.value previous_output)
               ("0x" +:+ Utxo.pk_script previous_output) false)
    (Utxo.block_height previous_output)
    (Utxo.median_timestamp previous_output)
    (Utxo.is_coinbase previous_output).

Section WithNode.
Context {Payload : Type} (node : Node Payload).

Definition resolve_outpoint (input : RawInput.t) : result OutPoint.t :=
  txid ← get_key (RawInput.txid input);
  tx ← getrawtransaction node txid;
  blockhash ← get_key (RawTx.blockhash tx);
  block ← getblockheader node blockhash;
  prevhash ← get_key (Header.previousblockhash block);
  prev_block ← getblockheader node prevhash;
  vout ← get_key (RawInput.vout input);
  raw ← py_index (RawTx.vout tx) vout;
  data ← format_output raw;
  first ← py_index (RawTx.vin tx) 0;
  Ok (OutPoint.mk txid vout data (Header.height block)
        (Header.mediantime prev_block)
        (bool_decide (is_Some (RawInput.coinbase first)))).

Definition resolve_input (input : RawInput.t)
    (previous_outputs : option (gmap (string * Z) Utxo.t)) : result TxIn.t :=
  if truthy_str (RawInput.coinbase input) then format_coinbase_input input
  else
    previous_output ←
      (if truthy_snapshot previous_outputs then
         txid ← get_key (RawInput.txid input);
         vout ← get_key (RawInput.vout input);
         entry ← get_key (default ∅ previous_outputs !! (txid, vout));
         Ok (format_outpoint entry)
       else resolve_outpoint input);
    script ← get_key (RawInput.scriptSig input);
    Ok (TxIn.mk ("0x" +:+ script) (RawInput.sequence input) previous_output
          ((fun item => "0x" +:+ item) <$> default [] (RawInput.txinwitness input))).

Definition resolve_transaction (transaction : RawTx.t)
    (previous_outputs : option (gmap (string * Z) Utxo.t))
  : result Transaction.t :=
  inputs ← mapM (fun input => resolve_input input previous_outputs)
                (RawTx.vin transaction);
  outputs ← mapM format_output (RawTx.vout transaction);
  Ok (Transaction.mk (RawTx.version transaction)
        (bool_decide (str_take 4 (str_drop 8 (RawTx.hex transaction)) = "0001"))
        inputs outputs (RawTx.locktime transaction)).

Definition fetch_block (block_hash : string) (fast : bool)
  : result (Header.t * BlockData) :=
  block ← getblock node block_hash;
  previous_outputs ←
    (if fast then
       rows ← get_utxo_set node (Header.height (RawBlock.header block));
       Ok (Some (snapshot_of rows))
     else Ok None);
  txs ← mapM (fun tx => r ← resolve_transaction tx previous_outputs;
                        Ok (RawTx.txid tx, r))
             (RawBlock.tx block);
  Ok (RawBlock.header block, dict_of_pairs txs).

End WithNode.

(** ** Intra-block cache pass

    The pass mutates dicts that are reachable along two paths: an output
    dict is an element of its transaction's ["outputs"] list and, once the
    first pass has seen it, also the value stored in [tmp_utxo_set].  The
    objects are therefore kept in a store, addressed by the place where
    [resolve_transaction] put them: every dict literal evaluated by the
    formatters is a fresh object, so distinct places hold distinct
    objects. *)

Inductive ref : Type :=
  | InData (t i : nat)    (* block["data"] item t, inputs[i].previous_output.data *)
  | OutRec (t j : nat).   (* block["data"] item t, outputs[j] *)

#[global] Instance ref_eq_dec : EqDecision ref.
Proof. solve_decision. Defined.

Abbreviation heap := (ref → option Output.t).
Abbreviation utxo_map := (gmap (string * Z) ref).

Definition set_cached (o : Output.t) : Output.t :=
  Output.mk (Output.value o) (Output.pk_script o) true.

(** [obj["cached"] = True] on the object at [r]. *)
Definition mark_cached (r : ref) (h : heap) : heap :=
  fun r' => if decide (r' = r) then set_cached <$> h r' else h r'.

(** [obj["cached"]] of the object at [r]. *)
Definition is_cached (h : heap) (r : ref) : bool :=
  match h r with
  | Some o => Output.cached o
  | None => false
  end.

(** The store right after [fetch_block]. *)
Definition init_heap (data : BlockData) : heap :=
  fun r =>
    match r with
    | InData t i =>
        p ← data !! t; inp ← Transaction.inputs p.2 !! i;
        Some (OutPoint.data (TxIn.previous_output inp))
    | OutRec t j =>
        p ← data !! t; Transaction.outputs p.2 !! j
    end.

Definition outpoint_key (inp : TxIn.t) : string * Z :=
  (OutPoint.txid (TxIn.previous_output inp),
   OutPoint.vout (TxIn.previous_output inp)).

(** First pass, the loop over [tx["inputs"]] of item [t]. *)
Fixpoint mark_inputs (tmp : utxo_map) (t i : nat) (inputs : list TxIn.t)
    (h : heap) : heap :=
  match inputs with
  | [] => h
  | inp :: rest =>
      let h' :=
        match tmp !! outpoint_key inp with
        | Some r => mark_cached r (mark_cached (InData t i) h)
        | None => h
        end in
      mark_inputs tmp t (S i) rest h'
  end.

(** First pass, the loop over [enumerate(tx["outputs"])] of item [t]. *)
Fixpoint add_outputs (txid : string) (t j : nat) (outputs : list Output.t)
    (tmp : utxo_map) : utxo_map :=
  match outputs with
  | [] => tmp
  | _ :: rest =>
      add_outputs txid t (S j) rest (<[(txid, Z.of_nat j) := OutRec t j]> tmp)
  end.

Fixpoint first_pass (t : nat) (items : BlockData) (tmp : utxo_map) (h : heap)
  : utxo_map * heap :=
  match items with
  | [] => (tmp, h)
  | (txid, tx) :: rest =>
      let h' := mark_inputs tmp t 0 (Transaction.inputs tx) h in
      let tmp' := add_outputs txid t 0 (Transaction.outputs tx) tmp in
      first_pass (S t) rest tmp' h'
  end.

(** Second pass, the loop over [enumerate(tx["outputs"])] of item [t]. *)
Fixpoint propagate_outputs (tmp : utxo_map) (txid : string) (t j : nat)
    (outputs : list Output.t) (h : heap) : heap :=
  match outputs with
  | [] => h
  | _ :: rest =>
      let h' :=
        match tmp !! (txid, Z.of_nat j) with
        | Some r => if is_cached h r then mark_cached (OutRec t j) h else h
        | None => h
        end in
      propagate_outputs tmp txid t (S j) rest h'
  end.

Fixpoint second_pass (tmp : utxo_map) (t : nat) (items : BlockData) (h : heap)
  : heap :=
  match items with
  | [] => h
  | (txid, tx) :: rest =>
      second_pass tmp (S t) rest
        (propagate_outputs tmp txid t 0 (Transaction.outputs tx) h)
  end.

(** Reading the block back out of the store. *)
Definition read_input (h : heap) (t i : nat) (inp : TxIn.t) : TxIn.t :=
  let po := TxIn.previous_output inp in
  TxIn.mk (TxIn.script inp) (TxIn.sequence inp)
    (OutPoint.mk (OutPoint.txid po) (OutPoint.vout po)
       (default (OutPoint.data po) (h (InData t i)))
       (OutPoint.block_height po) (OutPoint.median_time_past po)
       (OutPoint.is_coinbase po))
    (TxIn.witness inp).

Definition read_tx (h : heap) (t : nat) (tx : Transaction.t) : Transaction.t :=
  Transaction.mk (Transaction.version tx) (Transaction.is_segwit tx)
    (imap (read_input h t) (Transaction.inputs tx))
    (imap (fun j o => default o (h (OutRec t j))) (Transaction.outputs tx))
    (Transaction.lock_time tx).

Definition read_data (h : heap) (data : BlockData) : BlockData :=
  imap (fun t p => (p.1, read_tx h t p.2)) data.

(** Both passes of [generate_data] on one block's ["data"]. *)
Definition cache_pass (data : BlockData) : BlockData :=
  let '(tmp, h) := first_pass 0 data ∅ (init_heap data) in
  read_data (second_pass tmp 0 data h) data.

(** ** Chain state *)

Definition next_chain_state (current_state : ChainState.t) (new_block : Block)
  : ChainState.t :=
  let b := block_header new_block in
  let prev_timestamps :=
    ChainState.prev_timestamps current_state ++ [Header.time b] in
  ChainState.mk b (py_last_n 11 prev_timestamps)
    (if Header.height b mod 2016 =? 0 then Header.time b
     else ChainState.epoch_start_time current_state).

Definition format_chain_state (head : ChainState.t) : result FChainState.t :=
  let h := ChainState.head head in
  total_work ← int_of_hex (Header.chainwork h);
  current_target ← bits_to_target (Header.bits h);
  Ok (FChainState.mk (Header.height h) total_work (Header.hash h)
        current_target (ChainState.epoch_start_time head)
        (ChainState.prev_timestamps head)).

Definition format_header (header : Header.t) : result FHeader.t :=
  bits ← int_of_hex (Header.bits header);
  Ok (FHeader.mk (Header.version header) (Header.time header) bits
        (Header.nonce header)).

Definition format_block (block : Block) : result FBlock.t :=
  header ← format_header (block_header block);
  Ok (FBlock.mk header (MerkleRoot (Header.merkleroot (block_header block)))).

Definition format_block_with_transactions (block : Block) : result FBlock.t :=
  header ← format_header (block_header block);
  match block with
  | FullBlock _ data => Ok (FBlock.mk header (Transactions (data.*2)))
  | LightBlock _ => Raise KeyError
  end.

Definition genesis_time : Z := 1231006505.

Section WithNodeState.
Context {Payload : Type} (node : Node Payload).

(** The loop of [fetch_chain_state] that collects the ancestors' times. *)
Fixpoint walk_back (n : nat) (prev_header : Header.t) (prev_timestamps : list Z)
  : result (list Z) :=
  match n with
  | O => Ok prev_timestamps
  | S n' =>
      if Header.height prev_header =? 0 then Ok prev_timestamps
      else
        ph ← get_key (Header.previousblockhash prev_header);
        prev_header ← getblockheader node ph;
        walk_back n' prev_header (Header.time prev_header :: prev_timestamps)
  end.

Definition get_epoch_start_time (block_height : Z) : result Z :=
  let epoch_start_block_height := (block_height / 2016) * 2016 in
  epoch_start_block_hash ← getblockhash node epoch_start_block_height;
  epoch_start_header ← getblockheader node epoch_start_block_hash;
  Ok (Header.time epoch_start_header).

Definition fetch_chain_state (block_height : Z) : result ChainState.t :=
  block_hash ← getblockhash node block_height;
  head ← getblockheader node block_hash;
  prev_timestamps ← walk_back 10 head [Header.time head];
  epoch_start_time ←
    (if block_height <? 2016 then Ok genesis_time
     else get_epoch_start_time block_height);
  Ok (ChainState.mk head prev_timestamps epoch_start_time).

Definition fetch_chain_state_fast (block_height : Z) : result ChainState.t :=
  block_hash ← getblockhash node block_height;
  head ← getblockheader node block_hash;
  data ← get_timestamp_data node block_height;
  Ok (ChainState.mk head (TimestampData.previous_timestamps data)
        (if block_height <? 2016 then genesis_time
         else TimestampData.epoch_start_time data)).

Definition fetch_block_header (block_hash : string) : result Header.t :=
  getblockheader node block_hash.

(** One iteration of the loop of [generate_data]. *)
Definition fetch_one (mode : string) (fast : bool) (next_block_hash : string)
  : result Block :=
  if decide (mode = "light") then
    h ← fetch_block_header next_block_hash; Ok (LightBlock h)
  else if decide (mode = "full" ∨ mode = "utreexo") then
    p ← fetch_block node next_block_hash fast;
    Ok (FullBlock p.1 (cache_pass p.2))
  else Raise (NotImplementedError mode).

(** The loop [for i in range(num_blocks)], [n] iterations to go. *)
Fixpoint fetch_loop (mode : string) (fast : bool) (n : nat)
    (next_block_hash : string) (chain_state : ChainState.t)
    (blocks : list Block) : result (list Block * ChainState.t) :=
  match n with
  | O => Ok (blocks, chain_state)
  | S n' =>
      block ← fetch_one mode fast next_block_hash;
      next ← get_key (Header.nextblockhash (block_header block));
      fetch_loop mode fast n' next (next_chain_state chain_state block)
        (blocks ++ [block])
  end.

Definition generate_data (mode : string) (initial_height num_blocks : Z)
    (fast : bool) : result (Fixture.t Payload) :=
  chain_state ← (if fast then fetch_chain_state_fast initial_height
                 else fetch_chain_state initial_height);
  let initial_chain_state := chain_state in
  next_block_hash ← get_key (Header.nextblockhash (ChainState.head chain_state));
  r ← fetch_loop mode fast (Z.to_nat num_blocks) next_block_hash chain_state [];
  let '(blocks, chain_state) := r in
  let block_formatter :=
    if decide (mode = "light") then format_block
    else format_block_with_transactions in
  fcs ← format_chain_state initial_chain_state;
  fblocks ← mapM block_formatter blocks;
  expected ← format_chain_state chain_state;
  if decide (mode = "utreexo") then
    if decide (length blocks = 1%nat) then
      first ← py_index blocks 0;
      u ← get_utreexo_data node (Header.height (block_header first));
      Ok (Fixture.mk fcs fblocks expected (Some u))
    else Raise AssertionError
  else Ok (Fixture.mk fcs fblocks expected None).

(** The first step of [generate_data]. *)
Definition initial_state (initial_height : Z) (fast : bool)
  : result ChainState.t :=
  if fast then fetch_chain_state_fast initial_height
  else fetch_chain_state initial_height.

End WithNodeState.

(** ** Vocabulary of the properties *)

Definition null_outpoint : OutPoint.t :=
  OutPoint.mk zero_txid 4294967295 (Output.mk 0 "0x" false) 0 0 false.

(** The invariant of the timestamp window. *)
Definition chain_state_inv (cs : ChainState.t) : Prop :=
  Z.of_nat (length (ChainState.prev_timestamps cs))
  = Z.min (Header.height (ChainState.head cs) + 1) 11.

(** What the node is trusted for: a header reported under a hash has the
    height of that hash, heights are not negative, the next and previous
    hashes of a header are one block away, and the predecessor of a block
    above genesis can be fetched. *)
Definition linked {Payload} (node : Node Payload) (height_of : string → Z)
    (x : string) (h : Header.t) : Prop :=
  Header.height h = height_of x
  ∧ 0 ≤ Header.height h
  ∧ (∀ nh, Header.nextblockhash h = Some nh → height_of nh = Header.height h + 1)
  ∧ (0 < Header.height h →
     ∃ ph p, Header.previousblockhash h = Some ph
             ∧ getblockheader node ph = Ok p
             ∧ height_of ph = Header.height h - 1).

Definition consistent_node {Payload} (node : Node Payload)
    (height_of : string → Z) : Prop :=
  (∀ x h, getblockheader node x = Ok h → linked node height_of x h)
  ∧ (∀ x rb, getblock node x = Ok rb →
       linked node height_of x (RawBlock.header rb)).

(** The store after both passes. *)
Definition final_heap (data : BlockData) : heap :=
  second_pass (first_pass 0 data ∅ (init_heap data)).1 0 data
    (first_pass 0 data ∅ (init_heap data)).2.

(** A store [h'] extends [h]: same objects, and no flag was cleared. *)
Definition heap_le (h h' : heap) : Prop :=
  ∀ r, (is_Some (h r) → is_Some (h' r))
       ∧ (is_cached h r = true → is_cached h' r = true).

(** [key] was put in [tmp_utxo_set] for the object [r] by one of the first
    [t] transactions. *)
Definition created (data : BlockData) (t : nat) (key : string * Z) (r : ref)
  : Prop :=
  ∃ a A txA j, (a < t)%nat ∧ data !! a = Some (A, txA)
               ∧ (j < length (Transaction.outputs txA))%nat
               ∧ key = (A, Z.of_nat j) ∧ r = OutRec a j.

(** [r] is an input of one of the first [t] transactions whose key had been
    created before it, or the output that such an input spends. *)
Definition justified (data : BlockData) (t : nat) (r : ref) : Prop :=
  ∃ b B txB i inp r', (b < t)%nat ∧ data !! b = Some (B, txB)
                      ∧ Transaction.inputs txB !! i = Some inp
                      ∧ created data b (outpoint_key inp) r'
                      ∧ (r = InData b i ∨ r = r').

Definition tmp_sound (data : BlockData) (t : nat) (tmp : utxo_map) : Prop :=
  ∀ key r, tmp !! key = Some r → created data t key r.

Definition heap_sound (data : BlockData) (t : nat) (h : heap) : Prop :=
  ∀ r, is_cached h r = true →
       is_cached (init_heap data) r = true ∨ justified data t r.

(** ** A three-block chain used to run the definitions

    Block 1 holds a coinbase; block 2 holds a coinbase, a transaction [aa]
    that spends the coinbase of block 1 and a transaction [bb] that spends
    output 0 of [aa]. *)

Module Toy.
Definition header (n : Z) (hash : string) (prev next : option string) : Header.t :=
  Header.mk hash n 1 (genesis_time + 600 * n) "1d00ffff" (7 * n)
    "0000000100010001" "4a5e" (genesis_time + 600 * n - 300) prev next.

Definition h0 := header 0 "h0" None (Some "h1").
Definition h1 := header 1 "h1" (Some "h0") (Some "h2").
Definition h2 := header 2 "h2" (Some "h1") (Some "h3").

Definition cb_in (script : string) : RawInput.t :=
  RawInput.mk (Some script) None None None 4294967295 None.
Definition spend (txid : string) (vout : Z) : RawInput.t :=
  RawInput.mk None (Some txid) (Some vout) (Some "4830") 4294967294 (Some ["3044"]).

Definition c1 : RawTx.t :=
  RawTx.mk "c1" 1 "01000000010000" [cb_in "04ffff001d"]
    [RawOutput.mk "50.0" "4104"] 0 (Some "h1").
Definition c2 : RawTx.t :=
  RawTx.mk "c2" 1 "01000000010000" [cb_in "04ffff001d0102"]
    [RawOutput.mk "50.0001" "4105"] 0 (Some "h2").
Definition aa : RawTx.t :=
  RawTx.mk "aa" 2 "020000000001" [spend "c1" 0]
    [RawOutput.mk "20.0" "76a9"; RawOutput.mk "29.9999" "a914"] 0 (Some "h2").
Definition bb : RawTx.t :=
  RawTx.mk "bb" 2 "02000000010000" [spend "aa" 0]
    [RawOutput.mk "19.99999999" "0014"] 0 (Some "h2").

Definition height_of (hash : string) : Z :=
  if decide (hash = "h0") then 0
  else if decide (hash = "h1") then 1
  else if decide (hash = "h2") then 2
  else 3.

Definition headers (hash : string) : result Header.t :=
  if decide (hash = "h0") then Ok h0
  else if decide (hash = "h1") then Ok h1
  else if decide (hash = "h2") then Ok h2
  else Raise ConnectionError.

Definition node : Node string :=
  mkNode string
    (fun n => if n =? 0 then Ok "h0" else if n =? 1 then Ok "h1"
              else if n =? 2 then Ok "h2" else Raise ConnectionError)
    headers
    (fun hash => if decide (hash = "h1") then Ok (RawBlock.mk h1 [c1])
                 else if decide (hash = "h2") then Ok (RawBlock.mk h2 [c2; aa; bb])
                 else Raise ConnectionError)
    (fun txid => if decide (txid = "c1") then Ok c1
                 else if decide (txid = "c2") then Ok c2
                 else if decide (txid = "aa") then Ok aa
                 else if decide (txid = "bb") then Ok bb
                 else Raise ConnectionError)
    (fun n => Ok (TimestampData.mk [genesis_time] genesis_time))
    (fun n => Ok [])
    (fun n => if n =? 1 then Ok "accumulator state at height 1"
              else Raise ConnectionError).
End Toy.

Definition sample_header (height time : Z) : Header.t :=
  Header.mk "" height 1 time "1d00ffff" 0 "00" "" 0 None None.

Definition sample_utxo : Utxo.t :=
  Utxo.mk "zz" 3 1000 "51" 1 genesis_time false.

(** Block 2 of the sample chain, as [fetch_block] returns it. *)
Definition toy_data : BlockData :=
  [("c2", Transaction.mk 1 false
            [TxIn.mk "0x04ffff001d0102" 4294967295 null_outpoint
               ["0x" +:+ zero_txid]]
            [Output.mk 5000010000 "0x4105" false] 0);
   ("aa", Transaction.mk 2 true
            [TxIn.mk "0x4830" 4294967294
               (OutPoint.mk "c1" 0 (Output.mk 5000000000 "0x4104" false) 1
                  1231006205 true)
               ["0x3044"]]
            [Output.mk 2000000000 "0x76a9" false;
             Output.mk 2999990000 "0xa914" false] 0);
   ("bb", Transaction.mk 2 false
            [TxIn.mk "0x4830" 4294967294
               (OutPoint.mk "aa" 0 (Output.mk 2000000000 "0x76a9" false) 2
                  1231006805 false)
               ["0x3044"]]
            [Output.mk 1999999999 "0x0014" false] 0)].

(** ** The retry loop of [request_rpc]

    One [requests.post] is made per attempt.  What the loop can observe of
    an attempt is whether the post raised, whether a response arrived whose
    [.json()["result"]] raised, or whether a result was read.  The local
    variable [res] is bound by the first response that arrives and keeps
    the latest one; the final [raise] reads [res.text]. *)

Definition RETRIES : nat := 3.

Inductive post_result (V : Type) : Type :=
  | PostRaises
  | BadResponse (text : string)
  | GoodResponse (v : V).
Arguments PostRaises {V}.
Arguments BadResponse {V} text.
Arguments GoodResponse {V} v.

Inductive rpc_outcome (V : Type) : Type :=
  | Returned (v : V)
  | RaisedConnectionError (text : string)
  | RaisedUnboundLocalError     (* [res] read before any response bound it *)
  | ReturnedNone.               (* the loop ran out without returning *)
Arguments Returned {V} v.
Arguments RaisedConnectionError {V} text.
Arguments RaisedUnboundLocalError {V}.
Arguments ReturnedNone {V}.

Module RpcRun.
Record t (V : Type) : Type := mk {
  outcome : rpc_outcome V;
  posts : nat;      (* calls of [requests.post] *)
  sleeps : nat      (* calls of [time.sleep(DELAY)] *)
}.
Arguments mk {V} _ _ _.
Arguments outcome {V} _.
Arguments posts {V} _.
Arguments sleeps {V} _.
End RpcRun.

(** The loop [for attempt in range(RETRIES)], entered at [attempt] with
    [remaining] iterations to go; [world k] is what the [k]-th post
    meets. *)
Fixpoint request_rpc_from {V} (world : nat → post_result V)
    (attempt remaining : nat) (res : option string) (sleeps : nat)
  : RpcRun.t V :=
  match remaining with
  | O => RpcRun.mk ReturnedNone attempt sleeps
  | S remaining' =>
      match world attempt with
      | GoodResponse v => RpcRun.mk (Returned v) (S attempt) sleeps
      | failure =>
          let res :=
            match failure with
            | BadResponse text => Some text
            | _ => res
            end in
          if (attempt <? RETRIES - 1)%nat then
            request_rpc_from world (S attempt) remaining' res (S sleeps)
          else
            RpcRun.mk
              (match res with
               | Some text => RaisedConnectionError text
               | None => RaisedUnboundLocalError
               end)
              (S attempt) sleeps
      end
  end.

Definition request_rpc {V} (world : nat → post_result V) : RpcRun.t V :=
  request_rpc_from world 0 RETRIES None 0.

Definition is_good {V} (r : post_result V) : bool :=
  match r with
  | GoodResponse _ => true
  | _ => false
  end.

(** The text [res.text] after the posts [0 .. n-1], if a response came. *)
Fixpoint last_response {V} (world : nat → post_result V) (n : nat)
  : option string :=
  match n with
  | O => None
  | S n' =>
      match world n' with
      | BadResponse text => Some text
      | _ => last_response world n'
      end
  end.

(** ** More vocabulary *)

(** Strings made of hex digits only. *)
Fixpoint all_hex (s : string) : bool :=
  match s with
  | EmptyString => true
  | String c s' => bool_decide (is_Some (hex_digit c)) && all_hex s'
  end.

(** A block's data with every [cached] flag put to false. *)
Definition strip_output (o : Output.t) : Output.t :=
  Output.mk (Output.value o) (Output.pk_script o) false.

Definition strip_input (inp : TxIn.t) : TxIn.t :=
  let po := TxIn.previous_output inp in
  TxIn.mk (TxIn.script inp) (TxIn.sequence inp)
    (OutPoint.mk (OutPoint.txid po) (OutPoint.vout po)
       (strip_output (OutPoint.data po))
       (OutPoint.block_height po) (OutPoint.median_time_past po)
       (OutPoint.is_coinbase po))
    (TxIn.witness inp).

Definition strip_tx (tx : Transaction.t) : Transaction.t :=
  Transaction.mk (Transaction.version tx) (Transaction.is_segwit tx)
    (strip_input <$> Transaction.inputs tx)
    (strip_output <$> Transaction.outputs tx)
    (Transaction.lock_time tx).

Definition strip_data (data : BlockData) : BlockData :=
  (fun p => (p.1, strip_tx p.2)) <$> data.

(** No flag is set: the state in which [resolve_transaction] leaves a
    transaction. *)
Definition uncached_tx (tx : Transaction.t) : Prop :=
  Forall (fun inp => Output.cached (OutPoint.data (TxIn.previous_output inp)) = false)
         (Transaction.inputs tx)
  ∧ Forall (fun o => Output.cached o = false) (Transaction.outputs tx).

(** The compact decoding rule on the two fields of a 32-bit [bits]. *)
Definition decode_compact (e m : Z) : Z :=
  if e =? 0 then m
  else if e <=? 3 then m / 2 ^ (8 * (3 - e))
  else m * 2 ^ (8 * (e - 3)).

(** A node that also serves the coinbase transaction of the genesis
    block, and the world of a flaky connection. *)
Definition genesis_cb : RawTx.t :=
  RawTx.mk "c0" 1 "01000000010000" [Toy.cb_in "04ffff001d0104"]
    [RawOutput.mk "50.0" "4104"] 0 (Some "h0").

Definition genesis_node : Node string :=
  mkNode string (getblockhash Toy.node) (getblockheader Toy.node)
    (getblock Toy.node)
    (fun txid => if decide (txid = "c0") then Ok genesis_cb
                 else getrawtransaction Toy.node txid)
    (get_timestamp_data Toy.node) (get_utxo_set Toy.node)
    (get_utreexo_data Toy.node).

Definition flaky_world (k : nat) : post_result Z :=
  match k with
  | 0%nat => PostRaises
  | 1%nat => BadResponse "502 Bad Gateway"
  | _ => GoodResponse 840000
  end.



Definition block_time (b : Block) : Z := Header.time (block_header b).

(** * Properties *)

(** ** Compact target *)

Lemma hex_digit_range c v : hex_digit c = Some v → 0 ≤ v < 16.
Proof.
  unfold hex_digit.
  repeat case_match; intros [= <-]; lia.
Qed.

Lemma hex_digit_not_space c v : hex_digit c = Some v → is_py_space c = false.
Proof.
  unfold hex_digit, is_py_space.
  repeat case_match; intros [= <-]; lia.
Qed.

Lemma bytes_fromhex_pair c d hi lo s :
  hex_digit c = Some hi → hex_digit d = Some lo →
  bytes_fromhex (String c (String d s)) =
  bs ← bytes_fromhex s; Ok (16 * hi + lo :: bs).
Proof.
  intros Hc Hd. cbn [bytes_fromhex].
  rewrite (hex_digit_not_space _ _ Hc), Hc, Hd. reflexivity.
Qed.

(** C3. A compact value of eight hex digits decodes by its first byte
    [e] and its last three bytes [m] (big-endian): [m] itself when [e = 0],
    [m] shifted right by [8 * (3 - e)] bits when [0 < e <= 3], and [m]
    shifted left by [8 * (e - 3)] bits otherwise; [1d00ffff] decodes to
    [0xffff * 2 ^ (8 * (0x1d - 3))] and [03123456] to [0x123456]. *)
Theorem bits_to_target_spec (c1 c2 c3 c4 c5 c6 c7 c8 : ascii)
    (v1 v2 v3 v4 v5 v6 v7 v8 : Z) :
  hex_digit c1 = Some v1 → hex_digit c2 = Some v2 →
  hex_digit c3 = Some v3 → hex_digit c4 = Some v4 →
  hex_digit c5 = Some v5 → hex_digit c6 = Some v6 →
  hex_digit c7 = Some v7 → hex_digit c8 = Some v8 →
  let bits :=
    String c1 (String c2 (String c3 (String c4
      (String c5 (String c6 (String c7 (String c8 EmptyString))))))) in
  let e := 16 * v1 + v2 in
  let m := (16 * v3 + v4) * 256 ^ 2 + (16 * v5 + v6) * 256 + (16 * v7 + v8) in
  (∃ target, bits_to_target bits = Ok target ∧
     (e = 0 → target = m) ∧
     (0 < e ≤ 3 → target = Z.shiftr m (8 * (3 - e)) ∧ target = m / 2 ^ (8 * (3 - e))) ∧
     (3 < e → target = Z.shiftl m (8 * (e - 3)) ∧ target = m * 2 ^ (8 * (e - 3))))
  ∧ bits_to_target "1d00ffff" = Ok (65535 * 2 ^ (8 * (29 - 3)))
  ∧ bits_to_target "03123456" = Ok 1193046.
Proof.
  intros H1 H2 H3 H4 H5 H6 H7 H8 bits e m.
  split; [| split; reflexivity].
  pose proof (hex_digit_range _ _ H1). pose proof (hex_digit_range _ _ H2).
  unfold bits_to_target, int_of_hex, bits.
  cbn [str_take str_drop].
  rewrite (bytes_fromhex_pair _ _ _ _ _ H1 H2).
  rewrite (bytes_fromhex_pair _ _ _ _ _ H3 H4).
  rewrite (bytes_fromhex_pair _ _ _ _ _ H5 H6).
  rewrite (bytes_fromhex_pair _ _ _ _ _ H7 H8).
  cbn [bytes_fromhex mbind result_bind int_from_bytes_big fold_left].
  replace (0 * 256 + (16 * v1 + v2)) with e by (unfold e; lia).
  replace (((0 * 256 + (16 * v3 + v4)) * 256 + (16 * v5 + v6)) * 256 + (16 * v7 + v8))
    with m by (unfold m; lia).
  destruct (e =? 0) eqn:E0; [| destruct (e <=? 3) eqn:E3].
  - exists m. split; [reflexivity |]. repeat split; lia.
  - exists (Z.shiftr m (8 * (3 - e))). split; [reflexivity |].
    split; [lia |]. split; [| lia].
    intros _. split; [reflexivity |]. apply Z.shiftr_div_pow2. lia.
  - exists (Z.shiftl m (8 * (e - 3))). split; [reflexivity |].
    split; [lia |]. split; [lia |].
    intros _. split; [reflexivity |]. apply Z.shiftl_mul_pow2. lia.
Qed.

Lemma bits_to_target_spec_witness :
  ∃ target, bits_to_target "1b0404cb" = Ok target ∧ target = 263371 * 2 ^ 192.
Proof.
  destruct (bits_to_target_spec "1" "b" "0" "4" "0" "4" "c" "b"
              1 11 0 4 0 4 12 11
              eq_refl eq_refl eq_refl eq_refl eq_refl eq_refl eq_refl eq_refl)
    as [(target & Ht & _ & _ & Hl) _].
  exists target. split; [exact Ht |].
  destruct Hl as [_ Hl]; [lia |]. rewrite Hl. reflexivity.
Defined.

(** ** Chain-state transition *)

Lemma py_last_n_app_length {A} (n : nat) (l : list A) :
  ∃ dropped, l = dropped ++ py_last_n n l ∧
             length (py_last_n n l) = Nat.min (length l) n.
Proof.
  exists (take (length l - n) l). unfold py_last_n. split.
  - symmetry. apply take_drop.
  - rewrite length_drop. lia.
Qed.

Lemma py_index_last {A} (l : list A) (x : A) : py_index (l ++ [x]) (-1) = Ok x.
Proof.
  unfold py_index. rewrite length_app. cbn [length andb Z.leb Z.compare].
  rewrite (proj2 (Z.leb_le _ _)) by lia. cbn [andb Z.ltb Z.compare].
  replace (Z.to_nat (Z.of_nat (length l + 1) + -1)) with (length l + 0)%nat by lia.
  rewrite lookup_app_r by lia.
  replace (length l + 0 - length l)%nat with 0%nat by lia. reflexivity.
Qed.

(** C2. The successor state's [prev_timestamps] is the old window with the
    new block's time appended, cut to its last 11 entries by dropping from
    the front; its last entry is the block's time and the entries before it
    are the last 10 of the old window (for a saturated window of 11
    entries: the old window without its oldest entry). *)
Theorem next_chain_state_prev_timestamps (s : ChainState.t) (b : Block) :
  let old := ChainState.prev_timestamps s in
  let t := Header.time (block_header b) in
  let new := ChainState.prev_timestamps (next_chain_state s b) in
  (∃ dropped, old ++ [t] = dropped ++ new ∧
              length new = Nat.min (length old + 1) 11)
  ∧ py_index new (-1) = Ok t
  ∧ py_but_last new = py_last_n 10 old
  ∧ (length old = 11%nat → new = drop 1 old ++ [t] ∧ py_but_last new = drop 1 old).
Proof.
  intros old t new.
  assert (Hnew : new = drop (length old - 10) old ++ [t]).
  { unfold new, next_chain_state, py_last_n. cbn.
    fold old. fold t. rewrite length_app. cbn.
    rewrite drop_app_le by lia. f_equal. f_equal. lia. }
  assert (Hbl : py_but_last new = py_last_n 10 old).
  { unfold py_but_last, py_last_n. rewrite Hnew, length_app. cbn.
    rewrite take_app_le by lia. apply take_ge. lia. }
  split; [| split; [| split]].
  - destruct (py_last_n_app_length 11 (old ++ [t])) as (d & Hd & Hl).
    exists d. split; [exact Hd |].
    change (length new) with (length (py_last_n 11 (old ++ [t]))).
    rewrite Hl, length_app. cbn. lia.
  - rewrite Hnew. apply py_index_last.
  - exact Hbl.
  - intros H11. rewrite Hbl. unfold py_last_n. rewrite Hnew, H11. cbn. done.
Qed.

Lemma next_chain_state_prev_timestamps_witness :
  ChainState.prev_timestamps
    (next_chain_state
       (ChainState.mk (sample_header 10 110)
          [100; 101; 102; 103; 104; 105; 106; 107; 108; 109; 110] 100)
       (LightBlock (sample_header 11 111)))
  = [101; 102; 103; 104; 105; 106; 107; 108; 109; 110; 111].
Proof.
  apply (next_chain_state_prev_timestamps
           (ChainState.mk (sample_header 10 110)
              [100; 101; 102; 103; 104; 105; 106; 107; 108; 109; 110] 100)
           (LightBlock (sample_header 11 111))).
  reflexivity.
Defined.

(** C4. The successor state's [epoch_start_time] is the new block's time
    when the block's height is divisible by 2016 and the previous state's
    value otherwise. *)
Theorem next_chain_state_epoch_start_time (s : ChainState.t) (b : Block) :
  let h := Header.height (block_header b) in
  let new := ChainState.epoch_start_time (next_chain_state s b) in
  (h mod 2016 = 0 → new = Header.time (block_header b))
  ∧ (h mod 2016 ≠ 0 → new = ChainState.epoch_start_time s).
Proof.
  cbn. destruct (Z.eqb_spec (Header.height (block_header b) mod 2016) 0); split; intros; congruence.
Qed.

Lemma next_chain_state_epoch_start_time_witness :
  let s := ChainState.mk (sample_header 2015 500) [500] 77 in
  ChainState.epoch_start_time
    (next_chain_state s (FullBlock (sample_header 2016 600) [])) = 600
  ∧ ChainState.epoch_start_time
    (next_chain_state s (LightBlock (sample_header 2017 700))) = 77.
Proof.
  intros s. split.
  - apply (next_chain_state_epoch_start_time s (FullBlock (sample_header 2016 600) [])).
    reflexivity.
  - apply (next_chain_state_epoch_start_time s (LightBlock (sample_header 2017 700))).
    vm_compute. discriminate.
Defined.

(** ** Outpoint resolver *)

Lemma zero_txid_length : String.length zero_txid = 64%nat.
Proof. reflexivity. Qed.

(** X8. A coinbase input whose script is not empty resolves to the null
    outpoint, whatever the node and the snapshot are. *)
Lemma resolve_input_coinbase {Payload} (node : Node Payload) input po script :
  RawInput.coinbase input = Some script → script ≠ "" →
  resolve_input node input po =
  Ok (TxIn.mk ("0x" +:+ script) (RawInput.sequence input) null_outpoint
        ["0x" +:+ zero_txid]).
Proof.
  intros Hcb Hne. unfold resolve_input, format_coinbase_input.
  rewrite Hcb. cbn [truthy_str]. rewrite bool_decide_true by done.
  reflexivity.
Qed.

(** C7. A coinbase input, as a node reports it (the [coinbase] key holds
    the script in hexadecimal, which consensus keeps between 2 and 100
    bytes long and so never empty), is resolved without any lookup:
    whatever the script, the node's answers and the path selected (no
    snapshot, an empty one, or any snapshot), the resolver returns a
    previous output with a txid of 64 characters 0, vout 0xFFFFFFFF, a
    zero-value output with empty script and [cached] false, block height
    0, median time past 0 and [is_coinbase] false. *)
Theorem resolve_input_null_outpoint {Payload} (node : Node Payload)
    (input : RawInput.t) (po : option (gmap (string * Z) Utxo.t))
    (script : string) :
  RawInput.coinbase input = Some script → script ≠ "" →
  ∃ r : TxIn.t,
    resolve_input node input po = Ok r
    ∧ list_ascii_of_string (OutPoint.txid (TxIn.previous_output r))
      = replicate 64 "0"%char
    ∧ OutPoint.vout (TxIn.previous_output r) = 2 ^ 32 - 1
    ∧ Output.value (OutPoint.data (TxIn.previous_output r)) = 0
    ∧ Output.pk_script (OutPoint.data (TxIn.previous_output r)) = "0x"
    ∧ Output.cached (OutPoint.data (TxIn.previous_output r)) = false
    ∧ OutPoint.block_height (TxIn.previous_output r) = 0
    ∧ OutPoint.median_time_past (TxIn.previous_output r) = 0
    ∧ OutPoint.is_coinbase (TxIn.previous_output r) = false.
Proof.
  intros Hcb Hne. unfold resolve_input.
  assert (Htruth : truthy_str (RawInput.coinbase input) = true).
  { rewrite Hcb. cbn [truthy_str]. apply bool_decide_eq_true_2. exact Hne. }
  rewrite Htruth. unfold format_coinbase_input. rewrite Hcb.
  eexists. split; [reflexivity |].
  cbn [TxIn.previous_output OutPoint.txid OutPoint.vout OutPoint.data
       OutPoint.block_height OutPoint.median_time_past OutPoint.is_coinbase
       Output.value Output.pk_script Output.cached].
  repeat split.
Qed.

Lemma resolve_input_null_outpoint_witness :
  (∃ r : TxIn.t,
     resolve_input Toy.node (Toy.cb_in "04ffff001d0104") None = Ok r
     ∧ list_ascii_of_string (OutPoint.txid (TxIn.previous_output r))
       = replicate 64 "0"%char
     ∧ OutPoint.vout (TxIn.previous_output r) = 2 ^ 32 - 1
     ∧ Output.value (OutPoint.data (TxIn.previous_output r)) = 0
     ∧ Output.pk_script (OutPoint.data (TxIn.previous_output r)) = "0x"
     ∧ Output.cached (OutPoint.data (TxIn.previous_output r)) = false
     ∧ OutPoint.block_height (TxIn.previous_output r) = 0
     ∧ OutPoint.median_time_past (TxIn.previous_output r) = 0
     ∧ OutPoint.is_coinbase (TxIn.previous_output r) = false)
  ∧ (∃ r : TxIn.t,
       resolve_input Toy.node (Toy.cb_in "51")
         (Some (snapshot_of [sample_utxo])) = Ok r
       ∧ list_ascii_of_string (OutPoint.txid (TxIn.previous_output r))
         = replicate 64 "0"%char
       ∧ OutPoint.vout (TxIn.previous_output r) = 2 ^ 32 - 1
       ∧ Output.value (OutPoint.data (TxIn.previous_output r)) = 0
       ∧ Output.pk_script (OutPoint.data (TxIn.previous_output r)) = "0x"
       ∧ Output.cached (OutPoint.data (TxIn.previous_output r)) = false
       ∧ OutPoint.block_height (TxIn.previous_output r) = 0
       ∧ OutPoint.median_time_past (TxIn.previous_output r) = 0
       ∧ OutPoint.is_coinbase (TxIn.previous_output r) = false).
Proof.
  split.
  - apply (resolve_input_null_outpoint Toy.node (Toy.cb_in "04ffff001d0104")
             None "04ffff001d0104").
    + reflexivity.
    + discriminate.
  - apply (resolve_input_null_outpoint Toy.node (Toy.cb_in "51")
             (Some (snapshot_of [sample_utxo])) "51").
    + reflexivity.
    + discriminate.
Defined.

(** The test in [resolve_input] is the truth value of
    [input.get("coinbase")], not the presence of the key: an input whose
    [coinbase] key held the empty text, which no node reports, would be
    taken for a spending input and its missing [txid] would raise
    [KeyError]. *)
Lemma resolve_input_empty_coinbase {Payload} (node : Node Payload)
    (po : option (gmap (string * Z) Utxo.t)) (sequence : Z) :
  resolve_input node (RawInput.mk (Some "") None None None sequence None) po
  = Raise KeyError.
Proof.
  unfold resolve_input, resolve_outpoint. cbn.
  destruct (truthy_snapshot po); reflexivity.
Qed.

(** C8. A non-coinbase input is resolved on the exact path exactly when the
    three chained lookups succeed (spent transaction, header of its block,
    header of the block before), the referenced output exists and formats,
    and the input has a script; the outpoint then carries the input's
    txid and vout, the formatted output at that index, the containing
    block's height, the median time of the preceding block, and
    [is_coinbase] is true iff the spent transaction's first input has a
    [coinbase] key. *)
Theorem resolve_input_exact {Payload} (node : Node Payload)
    (input : RawInput.t) (po : option (gmap (string * Z) Utxo.t)) (r : TxIn.t) :
  RawInput.coinbase input = None →
  truthy_snapshot po = false →
  resolve_input node input po = Ok r ↔
  ∃ txid vout tx blockhash block prevhash prev_block raw data first script,
    RawInput.txid input = Some txid ∧ RawInput.vout input = Some vout ∧
    RawInput.scriptSig input = Some script ∧
    getrawtransaction node txid = Ok tx ∧
    RawTx.blockhash tx = Some blockhash ∧
    getblockheader node blockhash = Ok block ∧
    Header.previousblockhash block = Some prevhash ∧
    getblockheader node prevhash = Ok prev_block ∧
    py_index (RawTx.vout tx) vout = Ok raw ∧ format_output raw = Ok data ∧
    py_index (RawTx.vin tx) 0 = Ok first ∧
    TxIn.script r = "0x" +:+ script ∧
    TxIn.sequence r = RawInput.sequence input ∧
    OutPoint.txid (TxIn.previous_output r) = txid ∧
    OutPoint.vout (TxIn.previous_output r) = vout ∧
    OutPoint.data (TxIn.previous_output r) = data ∧
    OutPoint.block_height (TxIn.previous_output r) = Header.height block ∧
    OutPoint.median_time_past (TxIn.previous_output r) = Header.mediantime prev_block ∧
    (OutPoint.is_coinbase (TxIn.previous_output r) = true ↔
       is_Some (RawInput.coinbase first)) ∧
    TxIn.witness r =
      (fun item => "0x" +:+ item) <$> default [] (RawInput.txinwitness input).
Proof.
  intros Hcb Hpo. unfold resolve_input, resolve_outpoint.
  rewrite Hcb, Hpo. cbn [truthy_str]. split.
  - intros H.
    destruct (RawInput.txid input) as [txid |]; [| discriminate]. cbn in H.
    destruct (getrawtransaction node txid) as [tx |] eqn:Htx; [| discriminate].
    cbn in H.
    destruct (RawTx.blockhash tx) as [blockhash |] eqn:Hbh; [| discriminate].
    cbn in H.
    destruct (getblockheader node blockhash) as [block |] eqn:Hb; [| discriminate].
    cbn in H.
    destruct (Header.previousblockhash block) as [prevhash |] eqn:Hph;
      [| discriminate].
    cbn in H.
    destruct (getblockheader node prevhash) as [prev_block |] eqn:Hp; [| discriminate].
    cbn in H.
    destruct (RawInput.vout input) as [vout |]; [| discriminate]. cbn in H.
    destruct (py_index (RawTx.vout tx) vout) as [raw |] eqn:Hraw; [| discriminate].
    cbn in H.
    destruct (format_output raw) as [data |] eqn:Hdata; [| discriminate]. cbn in H.
    destruct (py_index (RawTx.vin tx) 0) as [first |] eqn:Hfirst; [| discriminate].
    cbn in H.
    destruct (RawInput.scriptSig input) as [script |]; [| discriminate]. cbn in H.
    injection H as <-.
    exists txid, vout, tx, blockhash, block, prevhash, prev_block, raw, data,
      first, script.
    cbn. rewrite bool_decide_eq_true. tauto.
  - intros (txid & vout & tx & blockhash & block & prevhash & prev_block & raw
            & data & first & script & -> & -> & -> & Htx & Hbh & Hb & Hph & Hp
            & Hraw & Hdata & Hfirst & Hs & Hq & Ht & Hv & Hd & Hh & Hm & Hc & Hw).
    cbn. rewrite Htx. cbn. rewrite Hbh. cbn. rewrite Hb. cbn. rewrite Hph. cbn.
    rewrite Hp. cbn. rewrite Hraw. cbn. rewrite Hdata. cbn. rewrite Hfirst. cbn.
    destruct r as [rs rq [pt pv pd ph pm pc] rw]. cbn in *. subst.
    do 3 f_equal. destruct pc.
    + apply bool_decide_eq_true. tauto.
    + apply bool_decide_eq_false. intros Hs. apply Hc in Hs. discriminate.
Qed.

Lemma resolve_input_exact_witness :
  resolve_input Toy.node (Toy.spend "c1" 0) None =
  Ok (TxIn.mk "0x4830" 4294967294
        (OutPoint.mk "c1" 0 (Output.mk 5000000000 "0x4104" false) 1
           (Header.mediantime Toy.h0) true)
        ["0x3044"]).
Proof.
  apply (resolve_input_exact Toy.node (Toy.spend "c1" 0) None);
    [reflexivity | reflexivity |].
  exists "c1", 0, Toy.c1, "h1", Toy.h1, "h0", Toy.h0,
    (RawOutput.mk "50.0" "4104"), (Output.mk 5000000000 "0x4104" false),
    (Toy.cb_in "04ffff001d"), "4830".
  repeat (split; [reflexivity |]).
  split; [| reflexivity].
  split; [intros _; eexists; reflexivity | reflexivity].
Defined.

Lemma mapM_ext {A B} (f g : A → result B) (l : list A) :
  (∀ x, f x = g x) → mapM f l = mapM g l.
Proof.
  intros Hfg. induction l as [| x l IH]; [reflexivity |].
  cbn. rewrite Hfg, IH. reflexivity.
Qed.

Lemma truthy_snapshot_empty : truthy_snapshot (Some ∅) = false.
Proof. cbn. apply bool_decide_eq_false. intros H. apply H. reflexivity. Qed.

Lemma resolve_input_empty_snapshot {Payload} (node : Node Payload) input :
  resolve_input node input (Some ∅) = resolve_input node input None.
Proof. unfold resolve_input. rewrite truthy_snapshot_empty. reflexivity. Qed.

(** C10. For a non-coinbase input the path is chosen by the truth value of
    the snapshot: an absent or empty snapshot resolves through the chained
    lookups of [resolve_outpoint]; a non-empty snapshot is consulted, and a
    key missing from it raises [KeyError]; in particular a block fetched in
    fast mode whose snapshot is empty is resolved exactly as in exact
    mode. *)
Theorem resolve_input_branching {Payload} (node : Node Payload)
    (input : RawInput.t) :
  RawInput.coinbase input = None →
  (∀ po, po = None ∨ po = Some ∅ →
     resolve_input node input po =
     (previous_output ← resolve_outpoint node input;
      script ← get_key (RawInput.scriptSig input);
      Ok (TxIn.mk ("0x" +:+ script) (RawInput.sequence input) previous_output
            ((fun item => "0x" +:+ item) <$>
               default [] (RawInput.txinwitness input)))))
  ∧ (∀ (m : gmap (string * Z) Utxo.t) txid vout,
       m ≠ ∅ → RawInput.txid input = Some txid →
       RawInput.vout input = Some vout → m !! (txid, vout) = None →
       resolve_input node input (Some m) = Raise KeyError)
  ∧ (∀ (m : gmap (string * Z) Utxo.t) txid vout entry,
       m ≠ ∅ → RawInput.txid input = Some txid →
       RawInput.vout input = Some vout → m !! (txid, vout) = Some entry →
       resolve_input node input (Some m) =
       (script ← get_key (RawInput.scriptSig input);
        Ok (TxIn.mk ("0x" +:+ script) (RawInput.sequence input)
              (format_outpoint entry)
              ((fun item => "0x" +:+ item) <$>
                 default [] (RawInput.txinwitness input)))))
  ∧ (∀ block_hash block,
       getblock node block_hash = Ok block →
       get_utxo_set node (Header.height (RawBlock.header block)) = Ok [] →
       fetch_block node block_hash true = fetch_block node block_hash false).
Proof.
  intros Hcb. repeat split.
  - intros po [-> | ->]; unfold resolve_input; rewrite Hcb;
      [| rewrite truthy_snapshot_empty]; reflexivity.
  - intros m txid vout Hm Ht Hv Hnone. unfold resolve_input.
    rewrite Hcb. cbn [truthy_str truthy_snapshot].
    rewrite bool_decide_true by done. rewrite Ht, Hv. cbn. rewrite Hnone.
    reflexivity.
  - intros m txid vout entry Hm Ht Hv Hsome. unfold resolve_input.
    rewrite Hcb. cbn [truthy_str truthy_snapshot].
    rewrite bool_decide_true by done. rewrite Ht, Hv. cbn. rewrite Hsome.
    reflexivity.
  - intros block_hash block Hblock Hrows. unfold fetch_block.
    rewrite Hblock. cbn. rewrite Hrows. cbn.
    erewrite mapM_ext; [reflexivity |].
    intros tx. unfold resolve_transaction, snapshot_of. cbn [fold_left].
    rewrite (mapM_ext (fun i => resolve_input node i (Some ∅))
                      (fun i => resolve_input node i None))
      by (intros i; apply resolve_input_empty_snapshot).
    reflexivity.
Qed.

Lemma resolve_input_branching_witness :
  resolve_input Toy.node (Toy.spend "c1" 0) (Some ∅) =
    Ok (TxIn.mk "0x4830" 4294967294
          (OutPoint.mk "c1" 0 (Output.mk 5000000000 "0x4104" false) 1
             (Header.mediantime Toy.h0) true)
          ["0x3044"])
  ∧ resolve_input Toy.node (Toy.spend "c1" 0) (Some (snapshot_of [sample_utxo]))
    = Raise KeyError
  ∧ resolve_input Toy.node (Toy.spend "zz" 3) (Some (snapshot_of [sample_utxo]))
    = Ok (TxIn.mk "0x4830" 4294967294
            (OutPoint.mk "zz" 3 (Output.mk 1000 "0x51" false) 1 genesis_time false)
            ["0x3044"])
  ∧ fetch_block Toy.node "h2" true = fetch_block Toy.node "h2" false.
Proof.
  destruct (resolve_input_branching Toy.node (Toy.spend "c1" 0) eq_refl)
    as (Hexact & Hmissing & _ & Hfast).
  destruct (resolve_input_branching Toy.node (Toy.spend "zz" 3) eq_refl)
    as (_ & _ & Hfound & _).
  assert (Hne : snapshot_of [sample_utxo] ≠ ∅).
  { intros H. apply (f_equal (fun m => m !! ("zz", 3))) in H. discriminate H. }
  split; [| split; [| split]].
  - rewrite (Hexact (Some ∅) (or_intror eq_refl)). reflexivity.
  - apply (Hmissing (snapshot_of [sample_utxo]) "c1" 0 Hne); reflexivity.
  - rewrite (Hfound (snapshot_of [sample_utxo]) "zz" 3 sample_utxo Hne);
      reflexivity.
  - apply (Hfast "h2" (RawBlock.mk Toy.h2 [Toy.c2; Toy.aa; Toy.bb])); reflexivity.
Defined.

(** ** Fixture assembler *)

Lemma mapM_length {A B} (f : A → result B) (l : list A) (l' : list B) :
  mapM f l = Ok l' → length l' = length l.
Proof.
  revert l'. induction l as [| x l IH]; intros l' H; cbn in H.
  - injection H as <-. reflexivity.
  - destruct (f x); [| discriminate]. cbn in H.
    destruct (mapM f l); [| discriminate]. cbn in H.
    injection H as <-. cbn. f_equal. apply IH. reflexivity.
Qed.

Section Assembler.
Context {Payload : Type} (node : Node Payload).

Lemma fetch_one_utreexo fast hash :
  fetch_one node "utreexo" fast hash = fetch_one node "full" fast hash.
Proof.
  unfold fetch_one. repeat case_decide; try discriminate; try reflexivity;
    exfalso; tauto.
Qed.

Lemma fetch_loop_utreexo fast n hash cs blocks :
  fetch_loop node "utreexo" fast n hash cs blocks =
  fetch_loop node "full" fast n hash cs blocks.
Proof.
  revert hash cs blocks. induction n as [| n IH]; intros hash cs blocks;
    [reflexivity |].
  cbn [fetch_loop]. rewrite fetch_one_utreexo.
  destruct (fetch_one node "full" fast hash) as [block |]; [| reflexivity].
  cbn. destruct (Header.nextblockhash (block_header block)); [| reflexivity].
  cbn. apply IH.
Qed.

Lemma fetch_loop_length mode fast n hash cs blocks blocks' cs' :
  fetch_loop node mode fast n hash cs blocks = Ok (blocks', cs') →
  length blocks' = (length blocks + n)%nat.
Proof.
  revert hash cs blocks. induction n as [| n IH]; intros hash cs blocks H.
  - cbn in H. injection H as <- <-. lia.
  - cbn [fetch_loop] in H.
    destruct (fetch_one node mode fast hash) as [block |]; [| discriminate].
    cbn in H.
    destruct (Header.nextblockhash (block_header block)); [| discriminate].
    cbn in H. apply IH in H. rewrite H, length_app. cbn. lia.
Qed.

(** After at least one iteration the state's head is the header of the
    last block fetched. *)
Lemma fetch_loop_head mode fast n hash cs blocks blocks' cs' :
  fetch_loop node mode fast (S n) hash cs blocks = Ok (blocks', cs') →
  ∃ block, last blocks' = Some block ∧ ChainState.head cs' = block_header block.
Proof.
  revert hash cs blocks. induction n as [| n IH]; intros hash cs blocks H.
  - cbn [fetch_loop] in H.
    destruct (fetch_one node mode fast hash) as [block |]; [| discriminate].
    cbn in H.
    destruct (Header.nextblockhash (block_header block)); [| discriminate].
    cbn in H. injection H as <- <-. exists block.
    rewrite last_snoc. split; reflexivity.
  - remember (S n) as k. cbn [fetch_loop] in H.
    destruct (fetch_one node mode fast hash) as [block |]; [| discriminate].
    cbn in H.
    destruct (Header.nextblockhash (block_header block)); [| discriminate].
    cbn in H. subst k. apply IH in H. exact H.
Qed.

(** C9. In utreexo mode a request for any number of blocks other than one
    (in particular more than one) never returns a fixture, and fails
    with [AssertionError] whenever the same request succeeds in full
    mode; a request for one block returns the full-mode fixture of that
    block extended with the accumulator data looked up at the height of
    the block fetched. *)
Theorem utreexo_single_block (initial_height num_blocks : Z) (fast : bool) :
  (num_blocks ≠ 1 →
     (∀ fx, generate_data node "utreexo" initial_height num_blocks fast ≠ Ok fx)
     ∧ (∀ fx, generate_data node "full" initial_height num_blocks fast = Ok fx →
          generate_data node "utreexo" initial_height num_blocks fast
          = Raise AssertionError))
  ∧ (num_blocks = 1 →
     ∀ fx, generate_data node "full" initial_height num_blocks fast = Ok fx →
       ∃ cs0 hash block,
         initial_state node initial_height fast = Ok cs0 ∧
         Header.nextblockhash (ChainState.head cs0) = Some hash ∧
         fetch_one node "utreexo" fast hash = Ok block ∧
         length (Fixture.blocks fx) = 1%nat ∧
         generate_data node "utreexo" initial_height num_blocks fast =
         (u ← get_utreexo_data node (Header.height (block_header block));
          Ok (Fixture.mk (Fixture.chain_state fx) (Fixture.blocks fx)
                (Fixture.expected fx) (Some u)))).
Proof.
  unfold generate_data. fold (initial_state node initial_height fast).
  destruct (initial_state node initial_height fast) as [cs0 |];
    [| split; [intros _; split |]; intros; discriminate].
  cbn [mbind result_bind].
  destruct (Header.nextblockhash (ChainState.head cs0)) as [hash |] eqn:Hnh;
    [| split; [intros _; split |]; intros; discriminate].
  cbn [get_key mbind result_bind].
  rewrite fetch_loop_utreexo.
  destruct (fetch_loop node "full" fast (Z.to_nat num_blocks) hash cs0 [])
    as [[blocks cs] |] eqn:Hloop;
    [| split; [intros _; split |]; intros; discriminate].
  cbn [mbind result_bind].
  pose proof (fetch_loop_length _ _ _ _ _ _ _ _ Hloop) as Hlen. cbn in Hlen.
  repeat case_decide; try discriminate.
  all: destruct (format_chain_state cs0) as [fcs |];
    [| split; [intros _; split |]; intros; discriminate].
  all: cbn [mbind result_bind].
  all: destruct (mapM format_block_with_transactions blocks) as [fblocks |] eqn:Hfb;
    [| split; [intros _; split |]; intros; discriminate].
  all: cbn [mbind result_bind].
  all: destruct (format_chain_state cs) as [expected |];
    [| split; [intros _; split |]; intros; discriminate].
  all: cbn [mbind result_bind].
  - split; [intros Hn; lia |]. intros -> fx [= <-].
    change (Z.to_nat 1) with 1%nat in Hloop. cbn [fetch_loop] in Hloop.
    rewrite <- fetch_one_utreexo in Hloop.
    destruct (fetch_one node "utreexo" fast hash) as [block |] eqn:Hblock;
      [| discriminate].
    cbn in Hloop.
    destruct (Header.nextblockhash (block_header block)); [| discriminate].
    cbn in Hloop. injection Hloop as <- <-.
    exists cs0, hash, block. cbn [Fixture.blocks Fixture.chain_state Fixture.expected].
    apply mapM_length in Hfb. repeat split; assumption.
  - split; [| intros ->; exfalso; apply H0; rewrite Hlen; reflexivity].
    intros _. split; intros; [discriminate | reflexivity].
  - exfalso. apply H. reflexivity.
Qed.

End Assembler.

Lemma utreexo_single_block_witness :
  generate_data Toy.node "utreexo" 0 2 false = Raise AssertionError
  ∧ ∃ fx, generate_data Toy.node "utreexo" 0 1 false = Ok fx ∧
          Fixture.utreexo fx = Some "accumulator state at height 1" ∧
          length (Fixture.blocks fx) = 1%nat.
Proof.
  split.
  - destruct (generate_data Toy.node "full" 0 2 false) as [fx |] eqn:Hfull;
      [| vm_compute in Hfull; discriminate].
    apply (proj2 (proj1 (utreexo_single_block Toy.node 0 2 false) ltac:(lia))
             fx Hfull).
  - destruct (generate_data Toy.node "full" 0 1 false) as [fx |] eqn:Hfull;
      [| vm_compute in Hfull; discriminate].
    destruct (proj2 (utreexo_single_block Toy.node 0 1 false) eq_refl fx Hfull)
      as (cs0 & hash & block & Hcs0 & Hhash & Hblock & Hlen & Hgen).
    vm_compute in Hcs0. injection Hcs0 as <-.
    vm_compute in Hhash. injection Hhash as <-.
    vm_compute in Hblock. injection Hblock as <-.
    rewrite Hgen. eexists. split; [reflexivity |]. split; [reflexivity | exact Hlen].
Defined.

(** ** The length of the timestamp window *)

Lemma next_chain_state_inv cs b :
  chain_state_inv cs →
  Header.height (block_header b) = Header.height (ChainState.head cs) + 1 →
  chain_state_inv (next_chain_state cs b).
Proof.
  unfold chain_state_inv, next_chain_state, py_last_n. cbn.
  intros Hinv Hh. rewrite length_drop, length_app. cbn. lia.
Qed.

Section Window.
Context {Payload : Type} (node : Node Payload) (height_of : string → Z).
Hypothesis Hnode : consistent_node node height_of.

Lemma walk_back_spec n x h ts :
  linked node height_of x h →
  ∃ anc, walk_back node n h ts = Ok (anc ++ ts)
         ∧ Z.of_nat (length anc) = Z.min (Z.of_nat n) (Header.height h).
Proof.
  revert x h ts. induction n as [| n IH]; intros x h ts (Hx & H0 & Hn & Hp).
  - exists []. split; [reflexivity | cbn; lia].
  - cbn [walk_back]. destruct (Z.eqb_spec (Header.height h) 0) as [Hz | Hz].
    + exists []. split; [reflexivity | cbn; lia].
    + destruct Hp as (ph & p & Hph & Hget & Hhp); [lia |].
      rewrite Hph. cbn. rewrite Hget. cbn.
      pose proof (proj1 Hnode _ _ Hget) as Hlp.
      destruct (IH ph p (Header.time p :: ts) Hlp) as (anc & Hw & Hlen).
      exists (anc ++ [Header.time p]). split.
      * rewrite Hw, <- app_assoc. reflexivity.
      * rewrite length_app. cbn. destruct Hlp as (Hhp' & _). lia.
Qed.

Lemma fetch_chain_state_inv initial_height cs :
  fetch_chain_state node initial_height = Ok cs → chain_state_inv cs.
Proof.
  unfold fetch_chain_state. intros H.
  destruct (getblockhash node initial_height) as [x |]; [| discriminate].
  cbn [mbind result_bind] in H.
  destruct (getblockheader node x) as [head |] eqn:Hhead; [| discriminate].
  cbn [mbind result_bind] in H.
  destruct (walk_back_spec 10 x head [Header.time head]
              (proj1 Hnode _ _ Hhead)) as (anc & Hw & Hlen).
  rewrite Hw in H. cbn [mbind result_bind] in H.
  destruct (if initial_height <? 2016 then Ok genesis_time
            else get_epoch_start_time node initial_height); [| discriminate].
  cbn [mbind result_bind] in H. injection H as <-. unfold chain_state_inv. cbn.
  rewrite length_app. cbn. lia.
Qed.

Lemma fetch_one_linked mode fast hash block :
  fetch_one node mode fast hash = Ok block →
  linked node height_of hash (block_header block).
Proof.
  unfold fetch_one, fetch_block_header. intros H.
  repeat case_decide; [| | discriminate].
  - destruct (getblockheader node hash) as [h |] eqn:Hh; [| discriminate].
    injection H as <-. exact (proj1 Hnode _ _ Hh).
  - unfold fetch_block in H.
    destruct (getblock node hash) as [rb |] eqn:Hrb; [| discriminate].
    cbn in H.
    destruct (if fast then _ else _); [| discriminate]. cbn in H.
    destruct (mapM _ _); [| discriminate]. cbn in H.
    injection H as <-. exact (proj2 Hnode _ _ Hrb).
Qed.

Lemma fetch_loop_inv mode fast n hash cs0 blocks0 blocks cs :
  chain_state_inv cs0 →
  height_of hash = Header.height (ChainState.head cs0) + 1 →
  fetch_loop node mode fast n hash cs0 blocks0 = Ok (blocks, cs) →
  chain_state_inv cs
  ∧ Header.height (ChainState.head cs)
    = Header.height (ChainState.head cs0) + Z.of_nat n.
Proof.
  revert hash cs0 blocks0. induction n as [| n IH];
    intros hash cs0 blocks0 Hinv Hhash H.
  - cbn in H. injection H as <- <-. split; [exact Hinv | lia].
  - cbn [fetch_loop] in H.
    destruct (fetch_one node mode fast hash) as [block |] eqn:Hone;
      [| discriminate].
    cbn in H.
    destruct (fetch_one_linked _ _ _ _ Hone) as (Hx & _ & Hn & _).
    destruct (Header.nextblockhash (block_header block)) as [next |] eqn:Hnext;
      [| discriminate].
    cbn in H. apply IH in H.
    + destruct H as [H1 H2]. split; [exact H1 |]. rewrite H2. cbn. lia.
    + apply next_chain_state_inv; [exact Hinv | lia].
    + cbn. apply Hn. reflexivity.
Qed.

(** C5. With a node that reports a consistent chain, the walk over at
    most 10 ancestors stops at height 0 and returns the ancestors' times,
    oldest first, followed by the state's own time; the initial state
    built from it satisfies [len(prev_timestamps) = min(height + 1, 11)],
    a transition to the block one above preserves it, and so does every
    state of the fold over the fetched blocks. *)
Theorem prev_timestamps_length (initial_height : Z) :
  (∀ x head, getblockhash node initial_height = Ok x →
     getblockheader node x = Ok head →
     ∃ anc, walk_back node 10 head [Header.time head]
            = Ok (anc ++ [Header.time head])
            ∧ Z.of_nat (length (anc ++ [Header.time head]))
              = Z.min (Header.height head + 1) 11
            ∧ (initial_height < 2016 →
               fetch_chain_state node initial_height
               = Ok (ChainState.mk head (anc ++ [Header.time head]) genesis_time)))
  ∧ (∀ cs, fetch_chain_state node initial_height = Ok cs → chain_state_inv cs)
  ∧ (∀ cs b, chain_state_inv cs →
       Header.height (block_header b) = Header.height (ChainState.head cs) + 1 →
       chain_state_inv (next_chain_state cs b))
  ∧ (∀ mode fast n cs0 hash blocks cs,
       fetch_chain_state node initial_height = Ok cs0 →
       Header.nextblockhash (ChainState.head cs0) = Some hash →
       fetch_loop node mode fast n hash cs0 [] = Ok (blocks, cs) →
       chain_state_inv cs).
Proof.
  split; [| split; [| split]].
  - intros x head Hx Hhead.
    destruct (walk_back_spec 10 x head [Header.time head]
                (proj1 Hnode _ _ Hhead)) as (anc & Hw & Hlen).
    exists anc. split; [exact Hw |]. split.
    + rewrite length_app. cbn. lia.
    + intros Hlt. unfold fetch_chain_state. rewrite Hx. cbn [mbind result_bind]. rewrite Hhead.
      cbn [mbind result_bind]. rewrite Hw. cbn [mbind result_bind]. rewrite (proj2 (Z.ltb_lt _ _) Hlt). reflexivity.
  - apply fetch_chain_state_inv.
  - apply next_chain_state_inv.
  - intros mode fast n cs0 hash blocks cs Hcs0 Hhash Hloop.
    pose proof (fetch_chain_state_inv _ _ Hcs0) as Hinv.
    assert (Hh : height_of hash = Header.height (ChainState.head cs0) + 1).
    { unfold fetch_chain_state in Hcs0.
      destruct (getblockhash node initial_height) as [x |]; [| discriminate].
      cbn [mbind result_bind] in Hcs0.
      destruct (getblockheader node x) as [head |] eqn:Hhead; [| discriminate].
      cbn [mbind result_bind] in Hcs0.
      destruct (walk_back node 10 head [Header.time head]); [| discriminate].
      cbn [mbind result_bind] in Hcs0.
      destruct (if initial_height <? 2016 then _ else _); [| discriminate].
      cbn [mbind result_bind] in Hcs0. injection Hcs0 as <-. cbn in *.
      destruct (proj1 Hnode _ _ Hhead) as (_ & _ & Hn & _). apply Hn, Hhash. }
    exact (proj1 (fetch_loop_inv _ _ _ _ _ _ _ _ Hinv Hh Hloop)).
Qed.

End Window.

Lemma toy_consistent : consistent_node Toy.node Toy.height_of.
Proof.
  split.
  - intros x h. cbn. unfold Toy.headers.
    repeat case_decide; intros [= <-]; subst x; unfold linked; cbn.
    + repeat split; [lia | intros nh [= <-]; reflexivity | lia].
    + repeat split; [lia | intros nh [= <-]; reflexivity |].
      intros _. exists "h0", Toy.h0. repeat split.
    + repeat split; [lia | intros nh [= <-]; reflexivity |].
      intros _. exists "h1", Toy.h1. repeat split.
  - intros x rb. cbn.
    repeat case_decide; intros [= <-]; subst x; unfold linked; cbn.
    + repeat split; [lia | intros nh [= <-]; reflexivity |].
      intros _. exists "h0", Toy.h0. repeat split.
    + repeat split; [lia | intros nh [= <-]; reflexivity |].
      intros _. exists "h1", Toy.h1. repeat split.
Qed.

Lemma prev_timestamps_length_witness :
  let cs := ChainState.mk Toy.h2
              [Header.time Toy.h0; Header.time Toy.h1; Header.time Toy.h2]
              genesis_time in
  fetch_chain_state Toy.node 2 = Ok cs
  ∧ chain_state_inv cs
  ∧ chain_state_inv (next_chain_state cs (LightBlock (Toy.header 3 "h3" (Some "h2") None))).
Proof.
  intros cs.
  destruct (prev_timestamps_length Toy.node Toy.height_of toy_consistent 2)
    as (_ & Hinit & Hstep & _).
  split; [reflexivity |]. split.
  - apply Hinit. reflexivity.
  - apply Hstep; [apply Hinit |]; reflexivity.
Defined.

(** ** Coin amounts *)

Lemma pow10_pos k : 0 ≤ k → 0 < 10 ^ k.
Proof. intros. apply Z.pow_pos_nonneg; lia. Qed.

Lemma pow10_succ k : 0 ≤ k → 10 ^ (k + 1) = 10 * 10 ^ k.
Proof. intros. rewrite Z.pow_add_r by lia. lia. Qed.

Lemma ndigits_aux_spec fuel c :
  0 < c → c < 10 * 2 ^ Z.of_nat fuel →
  1 ≤ ndigits_aux fuel c
  ∧ 10 ^ (ndigits_aux fuel c - 1) ≤ c < 10 ^ ndigits_aux fuel c.
Proof.
  revert c. induction fuel as [| fuel IH]; intros c Hpos Hlt.
  - cbn in *. lia.
  - cbn [ndigits_aux]. destruct (Z.ltb_spec c 10) as [Hc | Hc].
    + cbn. lia.
    + assert (Hq : 0 < c / 10) by (apply Z.div_str_pos; lia).
      assert (Hb : c / 10 < 10 * 2 ^ Z.of_nat fuel).
      { apply Z.div_lt_upper_bound; [lia |].
        rewrite Nat2Z.inj_succ, Z.pow_succ_r in Hlt by lia. lia. }
      destruct (IH (c / 10) Hq Hb) as (H1 & H2 & H3).
      set (r := ndigits_aux fuel (c / 10)) in *.
      replace (1 + r - 1) with ((r - 1) + 1) by lia.
      replace (1 + r) with (r + 1) by lia.
      rewrite !pow10_succ by lia.
      pose proof (Z.div_mod c 10 ltac:(lia)).
      pose proof (Z.mod_pos_bound c 10 ltac:(lia)).
      lia.
Qed.

Lemma ndigits_spec c :
  0 < c → 1 ≤ ndigits c ∧ 10 ^ (ndigits c - 1) ≤ c < 10 ^ ndigits c.
Proof.
  intros Hpos. apply ndigits_aux_spec; [exact Hpos |].
  rewrite Z2Nat.id by apply Z.log2_nonneg.
  pose proof (Z.log2_spec c Hpos) as [_ H].
  rewrite Z.pow_succ_r in H by apply Z.log2_nonneg.
  pose proof (Z.pow_pos_nonneg 2 (Z.log2 c) ltac:(lia) (Z.log2_nonneg c)).
  lia.
Qed.

Lemma ndigits_unique c L :
  0 < c → 1 ≤ L → 10 ^ (L - 1) ≤ c < 10 ^ L → ndigits c = L.
Proof.
  intros Hpos HL [Hlo Hhi].
  destruct (ndigits_spec c Hpos) as (H1 & H2 & H3).
  destruct (Z.lt_trichotomy (ndigits c) L) as [Hlt | [Heq | Hgt]]; [| exact Heq |].
  - pose proof (Z.pow_le_mono_r 10 (ndigits c) (L - 1) ltac:(lia) ltac:(lia)). lia.
  - pose proof (Z.pow_le_mono_r 10 L (ndigits c - 1) ltac:(lia) ltac:(lia)). lia.
Qed.

Lemma ndigits_scale c : 0 < c → ndigits (c * 10 ^ 8) = ndigits c + 8.
Proof.
  intros Hpos. destruct (ndigits_spec c Hpos) as (H1 & H2 & H3).
  apply ndigits_unique; [lia | lia |].
  replace (ndigits c + 8 - 1) with ((ndigits c - 1) + 8) by lia.
  rewrite !Z.pow_add_r by lia. lia.
Qed.

Lemma ndigits_le c L : 0 < c → 0 ≤ L → c < 10 ^ L → ndigits c ≤ L.
Proof.
  intros Hpos HL Hlt. destruct (ndigits_spec c Hpos) as (H1 & H2 & H3).
  destruct (Z.le_gt_cases (ndigits c) L) as [H | H]; [exact H |].
  pose proof (Z.pow_le_mono_r 10 L (ndigits c - 1) ltac:(lia) ltac:(lia)). lia.
Qed.

(** The product with [Decimal("100000000")] at 16 digits of precision is
    exact for a coefficient of at most 16 digits: the digits rounded away,
    at most 8, are zeros of the factor [10 ^ 8]. *)
Lemma decimal_mul_exact s c e :
  0 ≤ c < 10 ^ 16 → -999999 ≤ e ≤ 999976 →
  ∃ k, 0 ≤ k ≤ 8 ∧
       decimal_mul (Decimal.mk s c e) hundred_million
       = Ok (Decimal.mk s (c * 10 ^ (8 - k)) (e + k)).
Proof.
  intros [Hc0 Hc16] He.
  unfold decimal_mul, hundred_million. cbn [Decimal.sign Decimal.coeff Decimal.exp].
  rewrite xorb_false_r, Z.add_0_r. change 100000000 with (10 ^ 8).
  unfold decimal_fix. cbv beta iota zeta.
  destruct (Z.eqb_spec (c * 10 ^ 8) 0) as [Hz | Hnz].
  - exists 0. split; [lia |].
    assert (c = 0) as -> by (pose proof (pow10_pos 8 ltac:(lia)); nia).
    rewrite Z.mul_0_l. do 2 f_equal. unfold Etiny, Emax, Emin, prec. lia.
  - assert (Hpos : 0 < c) by lia.
    rewrite (ndigits_scale c Hpos).
    destruct (ndigits_spec c Hpos) as (HL1 & HLlo & HLhi).
    pose proof (ndigits_le c 16 Hpos ltac:(lia) Hc16) as HL16.
    set (L := ndigits c) in *.
    unfold Etop, Etiny, Emax, Emin, prec.
    destruct (Z.ltb_spec (999999 - 16 + 1) (L + 8 + e - 16)) as [Ho | _]; [lia |].
    destruct (Z.ltb_spec (L + 8 + e - 16) (-999999 - 16 + 1)) as [Hs | _]; [lia |].
    destruct (Z.ltb_spec e (L + 8 + e - 16)) as [Hr | Hr].
    + exists (L - 8). split; [lia |].
      replace (L + 8 + e - (L + 8 + e - 16)) with 16 by lia.
      cbn [Z.ltb Z.compare].
      assert (Hsplit : c * 10 ^ 8 = c * 10 ^ (8 - (L - 8)) * 10 ^ (L - 8)).
      { rewrite <- Z.mul_assoc, <- Z.pow_add_r by lia. do 2 f_equal. lia. }
      pose proof (pow10_pos (L - 8) ltac:(lia)) as Hk.
      pose proof (pow10_pos (L - 8 - 1) ltac:(lia)) as Hk1.
      assert (Hrest : (c * 10 ^ 8) mod 10 ^ (L - 8) = 0).
      { rewrite Hsplit. apply Z.mod_mul. lia. }
      assert (Hkept : c * 10 ^ 8 / 10 ^ (L - 8) = c * 10 ^ (8 - (L - 8))).
      { rewrite Hsplit. apply Z.div_mul. lia. }
      unfold round_half_even. replace (L + 8 - 16) with (L - 8) by lia.
      rewrite Hrest, Hkept.
      destruct (Z.eqb_spec 0 (5 * 10 ^ (L - 8 - 1))) as [Hh | _]; [lia |].
      cbn [andb].
      destruct (Z.leb_spec (5 * 10 ^ (L - 8 - 1)) 0) as [Hh | _]; [lia |].
      cbn [Z.eqb Z.ltb Z.compare].
      destruct (Z.ltb_spec (999999 - 16 + 1) (L + 8 + e - 16)) as [Ho | _]; [lia |].
      do 2 f_equal. lia.
    + exists 0. split; [lia |]. rewrite Z.sub_0_r, Z.add_0_r. reflexivity.
Qed.

(** [int(d.to_integral_value())] is the integer nearest to [d], ties going
    to the even one. *)
Lemma to_integral_nearest s c e :
  0 ≤ c →
  ∃ q, 0 ≤ q
       ∧ decimal_int (to_integral_value (Decimal.mk s c e))
         = (if s then -1 else 1) * q
       ∧ (0 ≤ e → q = c * 10 ^ e)
       ∧ (e < 0 →
          2 * Z.abs (q * 10 ^ (- e) - c) ≤ 10 ^ (- e)
          ∧ (2 * Z.abs (q * 10 ^ (- e) - c) = 10 ^ (- e) → Z.even q = true)).
Proof.
  intros Hc. unfold to_integral_value. cbn [Decimal.exp].
  destruct (Z.leb_spec 0 e) as [He | He].
  - exists (c * 10 ^ e). split; [| split; [| split]].
    + pose proof (pow10_pos e He). nia.
    + unfold decimal_int. cbn [Decimal.sign Decimal.coeff Decimal.exp].
      rewrite (proj2 (Z.leb_le 0 e) He). lia.
    + reflexivity.
    + lia.
  - pose proof (pow10_pos (- e) ltac:(lia)) as HA.
    unfold decimal_rescale0.
    destruct (Z.eqb_spec c 0) as [-> | Hnz].
    + exists 0. cbn. split; [lia |]. split; [destruct s; reflexivity |].
      split; [lia |]. intros _. split; [lia |]. intros; reflexivity.
    + assert (Hpos : 0 < c) by lia.
      destruct (ndigits_spec c Hpos) as (HL1 & HLlo & HLhi).
      set (L := ndigits c) in *.
      destruct (Z.leb_spec 0 e) as [Hx | _]; [lia |].
      destruct (Z.ltb_spec (L + e) 0) as [Hneg | Hnn].
      * exists 0. cbn. split; [lia |]. split; [destruct s; reflexivity |].
        split; [lia |]. intros _.
        pose proof (Z.pow_le_mono_r 10 L (- e - 1) ltac:(lia) ltac:(lia)) as Hm.
        replace (- e) with ((- e - 1) + 1) by lia.
        rewrite pow10_succ by lia. split; [lia |]. lia.
      * replace (L - (L + e)) with (- e) by lia.
        unfold round_half_even. replace (L - (L + e)) with (- e) by lia.
        pose proof (pow10_pos (- e - 1) ltac:(lia)) as HA1.
        assert (HAh : 10 ^ (- e) = 2 * (5 * 10 ^ (- e - 1))).
        { replace (- e) with ((- e - 1) + 1) at 1 by lia.
          rewrite pow10_succ by lia. lia. }
        pose proof (Z.div_mod c (10 ^ (- e)) ltac:(lia)) as Hdm.
        pose proof (Z.mod_pos_bound c (10 ^ (- e)) HA) as Hrb.
        pose proof (Z.div_pos c (10 ^ (- e)) Hc HA) as Hk0.
        set (A := 10 ^ (- e)) in *. set (half := 5 * 10 ^ (- e - 1)) in *.
        set (kept := c / A) in *. set (rest := c mod A) in *.
        destruct (Z.eqb_spec rest half) as [Hrh | Hrh];
          [destruct (Z.even kept) eqn:Hev |]; cbn [andb].
        -- exists kept. cbn [Z.eqb]. split; [lia |].
           split; [unfold decimal_int; cbn; destruct s; lia |].
           split; [lia |]. intros _. split; [lia | intros; exact Hev].
        -- destruct (Z.leb_spec half rest) as [_ | Hx]; [| lia].
           cbn [Z.eqb Pos.eqb]. exists (kept + 1). split; [lia |].
           split; [unfold decimal_int; cbn; destruct s; lia |].
           split; [lia |]. intros _. split; [lia |]. intros _.
           rewrite Z.even_add, Hev. reflexivity.
        -- destruct (Z.leb_spec half rest) as [Hge | Hlt].
           ++ cbn [Z.eqb Pos.eqb]. exists (kept + 1). split; [lia |].
              split; [unfold decimal_int; cbn; destruct s; lia |].
              split; [lia |]. intros _. split; lia.
           ++ exists kept.
              assert (Hq : (if (if rest =? 0 then 0 else -1) =? 1
                            then kept + 1 else kept) = kept)
                by (destruct (rest =? 0); reflexivity).
              rewrite Hq. split; [lia |].
              split; [unfold decimal_int; cbn; destruct s; lia |].
              split; [lia |]. intros _. split; lia.
Qed.

Lemma abs_scale x p : 0 < p → Z.abs (x * p) = Z.abs x * p.
Proof. intros. rewrite Z.abs_mul. rewrite (Z.abs_eq p) by lia. reflexivity. Qed.

(** Product and rounding together, on the decimal itself. *)
Lemma satoshis_of_decimal s c e :
  0 ≤ c < 10 ^ 16 → -999999 ≤ e ≤ 999976 →
  ∃ q, 0 ≤ q
       ∧ (product ← decimal_mul (Decimal.mk s c e) hundred_million;
          Ok (decimal_int (to_integral_value product)))
         = Ok ((if s then -1 else 1) * q)
       ∧ (0 ≤ e + 8 → q = c * 10 ^ (e + 8))
       ∧ (e + 8 < 0 →
          2 * Z.abs (q * 10 ^ (- (e + 8)) - c) ≤ 10 ^ (- (e + 8))
          ∧ (2 * Z.abs (q * 10 ^ (- (e + 8)) - c) = 10 ^ (- (e + 8)) →
             Z.even q = true)).
Proof.
  intros Hc He.
  destruct (decimal_mul_exact s c e Hc He) as (k & Hk & Hmul).
  rewrite Hmul. cbn [mbind result_bind].
  pose proof (pow10_pos (8 - k) ltac:(lia)) as HP.
  destruct (to_integral_nearest s (c * 10 ^ (8 - k)) (e + k) ltac:(nia))
    as (q & Hq0 & Hint & Hnn & Hneg).
  exists q. split; [exact Hq0 |]. split; [rewrite Hint; reflexivity |]. split.
  - intros Hn. destruct (Z.le_gt_cases 0 (e + k)) as [He' | He'].
    + rewrite (Hnn He'), <- Z.mul_assoc, <- Z.pow_add_r by lia.
      do 2 f_equal. lia.
    + destruct (Hneg He') as [Hnear _].
      pose proof (pow10_pos (- (e + k)) ltac:(lia)) as HA.
      assert (Hc' : c * 10 ^ (8 - k) = c * 10 ^ (e + 8) * 10 ^ (- (e + k))).
      { rewrite <- Z.mul_assoc, <- Z.pow_add_r by lia. do 2 f_equal. lia. }
      rewrite Hc', <- Z.mul_sub_distr_r, abs_scale in Hnear by lia.
      assert (Z.abs (q - c * 10 ^ (e + 8)) = 0) by nia. lia.
  - intros Hn. destruct (Hneg ltac:(lia)) as [Hnear Htie].
    pose proof (pow10_pos (- (e + 8)) ltac:(lia)) as HB.
    assert (HA : 10 ^ (- (e + k)) = 10 ^ (- (e + 8)) * 10 ^ (8 - k)).
    { rewrite <- Z.pow_add_r by lia. f_equal. lia. }
    rewrite HA in Hnear, Htie.
    replace (q * (10 ^ (- (e + 8)) * 10 ^ (8 - k)) - c * 10 ^ (8 - k))
      with ((q * 10 ^ (- (e + 8)) - c) * 10 ^ (8 - k)) in Hnear, Htie by lia.
    rewrite abs_scale in Hnear, Htie by lia.
    split; [nia |]. intros Heq. apply Htie. nia.
Qed.

(** C6. An amount of at most 16 significant digits (every amount below
    [10 ^ 8] coins written with 8 decimals) is formatted to the integer
    nearest to the exact product of the amount and [10 ^ 8], ties going to
    the even integer; the product itself when the amount has at most 8
    decimals.  [0.00000001] formats to [1] and [21000000.00000000] to
    [2100000000000000]. *)
Theorem format_output_value (output : RawOutput.t) (s : bool) (c e : Z) :
  decimal_of_string (RawOutput.value output) = Ok (Decimal.mk s c e) →
  0 ≤ c < 10 ^ 16 → -999999 ≤ e ≤ 999976 →
  (∃ q, 0 ≤ q
        ∧ format_output output
          = Ok (Output.mk ((if s then -1 else 1) * q)
                  ("0x" +:+ RawOutput.scriptPubKey output) false)
        ∧ (0 ≤ e + 8 → q = c * 10 ^ (e + 8))
        ∧ (e + 8 < 0 →
           2 * Z.abs (q * 10 ^ (- (e + 8)) - c) ≤ 10 ^ (- (e + 8))
           ∧ (2 * Z.abs (q * 10 ^ (- (e + 8)) - c) = 10 ^ (- (e + 8)) →
              Z.even q = true)))
  ∧ (∀ pk, format_output (RawOutput.mk "0.00000001" pk)
           = Ok (Output.mk 1 ("0x" +:+ pk) false))
  ∧ (∀ pk, format_output (RawOutput.mk "21000000.00000000" pk)
           = Ok (Output.mk 2100000000000000 ("0x" +:+ pk) false)).
Proof.
  intros Hparse Hc He. split; [| split; intros pk; reflexivity].
  destruct (satoshis_of_decimal s c e Hc He) as (q & Hq0 & Hval & Hnn & Hneg).
  exists q. split; [exact Hq0 |]. split; [| split; assumption].
  unfold format_output, satoshis. rewrite Hparse. cbn [mbind result_bind].
  rewrite Hval. reflexivity.
Qed.

Lemma format_output_value_witness :
  format_output (RawOutput.mk "20999999.99999999" "76a914")
  = Ok (Output.mk 2099999999999999 "0x76a914" false).
Proof.
  destruct (format_output_value (RawOutput.mk "20999999.99999999" "76a914")
              false 2099999999999999 (-8) eq_refl ltac:(lia) ltac:(lia))
    as ((q & _ & Hfmt & Hexact & _) & _).
  rewrite Hfmt, (Hexact ltac:(lia)). reflexivity.
Defined.

(** The same amounts in the notations [str] gives a float. *)
Example satoshis_float_text :
  satoshis "1e-08" = Ok 1 ∧ satoshis "21000000.0" = Ok 2100000000000000
  ∧ satoshis "0.1" = Ok 10000000 ∧ satoshis "49.9999" = Ok 4999990000.
Proof. repeat split. Qed.

(** Past 16 significant digits the product is rounded to the context
    precision before the integral rounding. *)
Example satoshis_seventeen_digits :
  satoshis "123456789.12345678" = Ok 12345678912345680.
Proof. reflexivity. Qed.

(** ** Intra-block cache pass *)

(** *** The store: writes only set flags *)

Lemma is_cached_mark (r r' : ref) (h : heap) :
  is_cached (mark_cached r h) r'
  = is_cached h r' || (bool_decide (r' = r) && bool_decide (is_Some (h r))).
Proof.
  destruct (decide (r' = r)) as [-> | Hne].
  - rewrite (bool_decide_true (r = r)) by reflexivity.
    unfold is_cached, mark_cached. rewrite decide_True by reflexivity.
    destruct (h r) as [o |].
    + rewrite bool_decide_true by eauto. cbn. rewrite orb_true_r. reflexivity.
    + rewrite bool_decide_false by (intros [? ?]; discriminate).
      reflexivity.
  - rewrite (bool_decide_false (r' = r)) by exact Hne.
    unfold is_cached, mark_cached. rewrite decide_False by exact Hne.
    cbn. rewrite orb_false_r. reflexivity.
Qed.

Lemma is_cached_mark_mono r r' h :
  is_cached h r' = true → is_cached (mark_cached r h) r' = true.
Proof. intros H. rewrite is_cached_mark, H. reflexivity. Qed.

Lemma is_cached_mark_same r h :
  is_Some (h r) → is_cached (mark_cached r h) r = true.
Proof.
  intros H. rewrite is_cached_mark, !bool_decide_true by done.
  apply orb_true_r.
Qed.

Lemma is_cached_mark_inv r r' h :
  is_cached (mark_cached r h) r' = true → is_cached h r' = true ∨ r' = r.
Proof.
  rewrite is_cached_mark. intros [H | H]%orb_true_iff; [left; exact H |].
  apply andb_true_iff in H as [H _]. right. exact (bool_decide_eq_true_1 _ H).
Qed.

Lemma is_cached_Some h r : is_cached h r = true → is_Some (h r).
Proof. unfold is_cached. destruct (h r); [eauto | discriminate]. Qed.

Lemma mark_cached_Some r r' h : is_Some (h r') → is_Some (mark_cached r h r').
Proof.
  unfold mark_cached. intros [o Ho]. rewrite Ho. case_decide; cbn; eauto.
Qed.

Lemma heap_le_refl h : heap_le h h.
Proof. intros r. split; auto. Qed.

Lemma heap_le_trans h1 h2 h3 : heap_le h1 h2 → heap_le h2 h3 → heap_le h1 h3.
Proof.
  intros H12 H23 r. destruct (H12 r), (H23 r). split; auto.
Qed.

Lemma heap_le_mark r h : heap_le h (mark_cached r h).
Proof.
  intros r'. split; [apply mark_cached_Some | apply is_cached_mark_mono].
Qed.

Lemma mark_inputs_le tmp t i inputs h : heap_le h (mark_inputs tmp t i inputs h).
Proof.
  revert i h. induction inputs as [| inp rest IH]; intros i h; cbn.
  - apply heap_le_refl.
  - eapply heap_le_trans; [| apply IH].
    destruct (tmp !! outpoint_key inp).
    + eapply heap_le_trans; apply heap_le_mark.
    + apply heap_le_refl.
Qed.

Lemma first_pass_le t items tmp h : heap_le h (first_pass t items tmp h).2.
Proof.
  revert t tmp h. induction items as [| [txid tx] rest IH]; intros t tmp h; cbn.
  - apply heap_le_refl.
  - eapply heap_le_trans; [apply mark_inputs_le | apply IH].
Qed.

Lemma propagate_outputs_le tmp txid t j outputs h :
  heap_le h (propagate_outputs tmp txid t j outputs h).
Proof.
  revert j h. induction outputs as [| o rest IH]; intros j h; cbn.
  - apply heap_le_refl.
  - eapply heap_le_trans; [| apply IH].
    destruct (tmp !! (txid, Z.of_nat j)) as [r |]; [| apply heap_le_refl].
    destruct (is_cached h r); [apply heap_le_mark | apply heap_le_refl].
Qed.

Lemma second_pass_le tmp t items h : heap_le h (second_pass tmp t items h).
Proof.
  revert t h. induction items as [| [txid tx] rest IH]; intros t h; cbn.
  - apply heap_le_refl.
  - eapply heap_le_trans; [apply propagate_outputs_le | apply IH].
Qed.

(** *** Splitting the first pass at a transaction *)

Lemma first_pass_app t l1 l2 tmp h :
  first_pass t (l1 ++ l2) tmp h
  = first_pass (t + length l1) l2 (first_pass t l1 tmp h).1 (first_pass t l1 tmp h).2.
Proof.
  revert t tmp h. induction l1 as [| [txid tx] l1 IH]; intros t tmp h; cbn.
  - rewrite Nat.add_0_r. reflexivity.
  - rewrite IH. f_equal. lia.
Qed.

Lemma add_outputs_other (txid : string) (t j : nat) (outputs : list Output.t)
    (tmp : utxo_map) (txid' : string) (z : Z) :
  txid' ≠ txid →
  add_outputs txid t j outputs tmp !! (txid', z) = tmp !! (txid', z).
Proof.
  intros Hne. revert j tmp. induction outputs as [| o rest IH]; intros j tmp; cbn.
  - reflexivity.
  - rewrite IH. apply lookup_insert_ne. intros [= -> _]. apply Hne. reflexivity.
Qed.

Lemma add_outputs_below (txid : string) (t j0 : nat) (outputs : list Output.t)
    (tmp : utxo_map) (j : nat) :
  (j < j0)%nat →
  add_outputs txid t j0 outputs tmp !! (txid, Z.of_nat j)
  = tmp !! (txid, Z.of_nat j).
Proof.
  revert j0 tmp. induction outputs as [| o rest IH]; intros j0 tmp Hj; cbn.
  - reflexivity.
  - rewrite IH by lia. apply lookup_insert_ne. intros [= H]. lia.
Qed.

Lemma add_outputs_own (txid : string) (t j0 : nat) (outputs : list Output.t)
    (tmp : utxo_map) (j : nat) :
  (j0 ≤ j < j0 + length outputs)%nat →
  add_outputs txid t j0 outputs tmp !! (txid, Z.of_nat j) = Some (OutRec t j).
Proof.
  revert j0 tmp. induction outputs as [| o rest IH]; intros j0 tmp Hj; cbn in *.
  - lia.
  - destruct (decide (j = j0)) as [-> | Hne].
    + rewrite add_outputs_below by lia. apply lookup_insert_eq.
    + apply IH. lia.
Qed.

Lemma first_pass_tmp_other (t : nat) (items : BlockData) (tmp : utxo_map)
    (h : heap) (txid : string) (z : Z) :
  txid ∉ items.*1 →
  (first_pass t items tmp h).1 !! (txid, z) = tmp !! (txid, z).
Proof.
  revert t tmp h. induction items as [| [txid' tx] rest IH]; intros t tmp h Hni;
    cbn in *.
  - reflexivity.
  - apply not_elem_of_cons in Hni as [Hne Hni].
    rewrite IH by exact Hni. apply add_outputs_other. exact Hne.
Qed.

(** *** An output spent later in the block gets both flags *)

Lemma mark_inputs_hit (tmp : utxo_map) (t i0 : nat) (inputs : list TxIn.t)
    (h : heap) (k : nat) (inp : TxIn.t) (r : ref) :
  inputs !! k = Some inp → tmp !! outpoint_key inp = Some r →
  is_Some (h (InData t (i0 + k))) → is_Some (h r) →
  is_cached (mark_inputs tmp t i0 inputs h) (InData t (i0 + k)) = true
  ∧ is_cached (mark_inputs tmp t i0 inputs h) r = true.
Proof.
  revert i0 h k. induction inputs as [| x rest IH]; intros i0 h k Hk Hkey Hin Hr.
  - discriminate.
  - destruct k as [| k]; cbn in Hk; cbn [mark_inputs].
    + injection Hk as ->. rewrite Hkey, Nat.add_0_r in *.
      set (h' := mark_cached r (mark_cached (InData t i0) h)).
      assert (H1 : is_cached h' (InData t i0) = true).
      { apply is_cached_mark_mono, is_cached_mark_same, Hin. }
      assert (H2 : is_cached h' r = true).
      { apply is_cached_mark_same, mark_cached_Some, Hr. }
      split; apply (mark_inputs_le tmp t (S i0) rest h'); assumption.
    + replace (i0 + S k)%nat with (S i0 + k)%nat in * by lia.
      apply IH; [exact Hk | exact Hkey | |].
      * destruct (tmp !! outpoint_key x); [| exact Hin].
        apply mark_cached_Some, mark_cached_Some, Hin.
      * destruct (tmp !! outpoint_key x); [| exact Hr].
        apply mark_cached_Some, mark_cached_Some, Hr.
Qed.

Lemma first_pass_marks_split (l1 l2 l3 : BlockData) (A B : string)
    (txA txB : Transaction.t) (t0 : nat) (tmp0 : utxo_map) (h0 : heap)
    (i j : nat) (inp : TxIn.t) :
  A ∉ l2.*1 →
  (j < length (Transaction.outputs txA))%nat →
  Transaction.inputs txB !! i = Some inp →
  outpoint_key inp = (A, Z.of_nat j) →
  let a := (t0 + length l1)%nat in
  let b := (S a + length l2)%nat in
  is_Some (h0 (InData b i)) → is_Some (h0 (OutRec a j)) →
  let h := (first_pass t0 (l1 ++ (A, txA) :: l2 ++ (B, txB) :: l3) tmp0 h0).2 in
  is_cached h (InData b i) = true ∧ is_cached h (OutRec a j) = true.
Proof.
  intros HA Hj Hi Hkey a b Hin Hout h. subst h.
  rewrite first_pass_app. fold a.
  set (tmp1 := (first_pass t0 l1 tmp0 h0).1).
  set (h1 := (first_pass t0 l1 tmp0 h0).2).
  cbn [first_pass].
  set (h1' := mark_inputs tmp1 a 0 (Transaction.inputs txA) h1).
  set (tmp1' := add_outputs A a 0 (Transaction.outputs txA) tmp1).
  rewrite first_pass_app. fold b.
  set (tmp2 := (first_pass (S a) l2 tmp1' h1').1).
  set (h2 := (first_pass (S a) l2 tmp1' h1').2).
  cbn [first_pass].
  set (h2' := mark_inputs tmp2 b 0 (Transaction.inputs txB) h2).
  assert (Hle : heap_le h0 h2).
  { eapply heap_le_trans; [apply first_pass_le |].
    eapply heap_le_trans; [apply mark_inputs_le |]. apply first_pass_le. }
  assert (Htmp : tmp2 !! (A, Z.of_nat j) = Some (OutRec a j)).
  { unfold tmp2. rewrite first_pass_tmp_other by exact HA.
    apply add_outputs_own. lia. }
  destruct (mark_inputs_hit tmp2 b 0 (Transaction.inputs txB) h2 i inp (OutRec a j))
    as [H1 H2].
  - exact Hi.
  - rewrite Hkey. exact Htmp.
  - apply Hle, Hin.
  - apply Hle, Hout.
  - fold h2' in H1, H2. cbn [Nat.add] in H1.
    split; apply first_pass_le; assumption.
Qed.

Lemma cache_pass_read data : cache_pass data = read_data (final_heap data) data.
Proof.
  unfold cache_pass, final_heap.
  destruct (first_pass 0 data ∅ (init_heap data)). reflexivity.
Qed.

Lemma final_heap_marks (data : BlockData) (a b i j : nat) (A B : string)
    (txA txB : Transaction.t) (inp : TxIn.t) :
  NoDup data.*1 →
  data !! a = Some (A, txA) → data !! b = Some (B, txB) → (a < b)%nat →
  (j < length (Transaction.outputs txA))%nat →
  Transaction.inputs txB !! i = Some inp →
  outpoint_key inp = (A, Z.of_nat j) →
  is_cached (final_heap data) (InData b i) = true
  ∧ is_cached (final_heap data) (OutRec a j) = true.
Proof.
  intros Hnd Ha Hb Hab Hj Hi Hkey.
  pose proof (lookup_lt_Some _ _ _ Hb) as Hblen.
  assert (Ha' : take b data !! a = Some (A, txA)).
  { rewrite lookup_take_lt by exact Hab. exact Ha. }
  pose proof (take_drop_middle _ _ _ Hb) as Hsplit.
  pose proof (take_drop_middle _ _ _ Ha') as Hsplit'.
  set (l1 := take a (take b data)) in *.
  set (l2 := drop (S a) (take b data)) in *.
  set (l3 := drop (S b) data) in *.
  assert (Hdata : data = l1 ++ (A, txA) :: l2 ++ (B, txB) :: l3).
  { rewrite <- Hsplit at 1. rewrite <- Hsplit'. rewrite <- app_assoc. reflexivity. }
  assert (Hl1 : length l1 = a).
  { unfold l1. rewrite !length_take. lia. }
  assert (Hl2 : S (a + length l2) = b).
  { unfold l2. rewrite length_drop, length_take. lia. }
  assert (HA : A ∉ l2.*1).
  { rewrite Hdata in Hnd. rewrite fmap_app, fmap_cons, fmap_app in Hnd.
    apply NoDup_app in Hnd as (_ & _ & Hnd).
    apply NoDup_cons in Hnd as [Hni _]. cbn in Hni.
    intros Hin. apply Hni. apply elem_of_app. left. exact Hin. }
  assert (Hin : is_Some (init_heap data (InData b i))).
  { cbn. rewrite Hb. cbn. rewrite Hi. cbn. eauto. }
  assert (Hout : is_Some (init_heap data (OutRec a j))).
  { cbn. rewrite Ha. cbn. apply lookup_lt_is_Some. exact Hj. }
  pose proof (first_pass_marks_split l1 l2 l3 A B txA txB 0 ∅ (init_heap data)
                i j inp HA Hj Hi Hkey) as Hmarks.
  cbn zeta in Hmarks. cbn [Nat.add] in Hmarks.
  rewrite Hl1, Hl2, <- Hdata in Hmarks.
  destruct (Hmarks Hin Hout) as [H1 H2].
  unfold final_heap. split; apply second_pass_le; assumption.
Qed.

(** *** Nothing else is flagged *)

Lemma created_mono (data : BlockData) (t t' : nat) (key : string * Z) (r : ref) :
  (t ≤ t')%nat → created data t key r → created data t' key r.
Proof.
  intros Hle (a & A & txA & j & Ha & H). exists a, A, txA, j.
  split; [lia | exact H].
Qed.

Lemma justified_mono (data : BlockData) (t t' : nat) (r : ref) :
  (t ≤ t')%nat → justified data t r → justified data t' r.
Proof.
  intros Hle (b & B & txB & i & inp & r' & Hb & H).
  exists b, B, txB, i, inp, r'. split; [lia | exact H].
Qed.

Lemma add_outputs_sound (data : BlockData) (t : nat) (txid : string)
    (tx : Transaction.t) (pre outs : list Output.t) (tmp : utxo_map) :
  data !! t = Some (txid, tx) →
  Transaction.outputs tx = pre ++ outs →
  tmp_sound data (S t) tmp →
  tmp_sound data (S t) (add_outputs txid t (length pre) outs tmp).
Proof.
  intros Ht. revert pre tmp. induction outs as [| o rest IH];
    intros pre tmp Hsplit Hs; cbn.
  - exact Hs.
  - replace (S (length pre)) with (length (pre ++ [o]))
      by (rewrite length_app; cbn; lia).
    apply IH; [rewrite <- app_assoc; exact Hsplit |].
    intros key r Hl. apply lookup_insert_Some in Hl as [[<- <-] | [_ Hl]].
    + exists t, txid, tx, (length pre). repeat split; [lia | exact Ht |].
      rewrite Hsplit, length_app. cbn. lia.
    + apply Hs, Hl.
Qed.

Lemma mark_inputs_sound (data : BlockData) (t : nat) (txid : string)
    (tx : Transaction.t) (pre ins : list TxIn.t) (tmp : utxo_map) (h : heap) :
  data !! t = Some (txid, tx) →
  Transaction.inputs tx = pre ++ ins →
  tmp_sound data t tmp →
  heap_sound data (S t) h →
  heap_sound data (S t) (mark_inputs tmp t (length pre) ins h).
Proof.
  intros Ht. revert pre h. induction ins as [| inp rest IH];
    intros pre h Hsplit Htmp Hs; cbn.
  - exact Hs.
  - replace (S (length pre)) with (length (pre ++ [inp]))
      by (rewrite length_app; cbn; lia).
    apply IH; [rewrite <- app_assoc; exact Hsplit | exact Htmp |].
    destruct (tmp !! outpoint_key inp) as [r' |] eqn:Hkey; [| exact Hs].
    assert (Hj : ∀ r, r = InData t (length pre) ∨ r = r' → justified data (S t) r).
    { intros r Hr. exists t, txid, tx, (length pre), inp, r'.
      split; [lia |]. split; [exact Ht |]. split.
      - rewrite Hsplit. rewrite lookup_app_r by lia.
        rewrite Nat.sub_diag. reflexivity.
      - split; [apply Htmp, Hkey | exact Hr]. }
    intros r Hr. apply is_cached_mark_inv in Hr as [Hr | ->]; [| right; auto].
    apply is_cached_mark_inv in Hr as [Hr | ->]; [| right; auto].
    apply Hs, Hr.
Qed.

Lemma first_pass_sound (data pre items : BlockData) (tmp : utxo_map) (h : heap) :
  data = pre ++ items →
  tmp_sound data (length pre) tmp →
  heap_sound data (length pre) h →
  tmp_sound data (length data) (first_pass (length pre) items tmp h).1
  ∧ heap_sound data (length data) (first_pass (length pre) items tmp h).2.
Proof.
  revert pre tmp h. induction items as [| [txid tx] rest IH];
    intros pre tmp h Hdata Htmp Hh; cbn [first_pass].
  - rewrite app_nil_r in Hdata. subst pre. split; assumption.
  - assert (Ht : data !! length pre = Some (txid, tx)).
    { rewrite Hdata, lookup_app_r by lia. rewrite Nat.sub_diag. reflexivity. }
    replace (S (length pre)) with (length (pre ++ [(txid, tx)]))
      by (rewrite length_app; cbn; lia).
    apply IH.
    + rewrite <- app_assoc. exact Hdata.
    + rewrite length_app. cbn. rewrite Nat.add_1_r.
      apply (add_outputs_sound data (length pre) txid tx [] _ tmp Ht eq_refl).
      intros key r Hl. eapply created_mono; [| apply Htmp, Hl]. lia.
    + rewrite length_app. cbn. rewrite Nat.add_1_r.
      apply (mark_inputs_sound data (length pre) txid tx [] _ tmp h Ht eq_refl Htmp).
      intros r Hr. destruct (Hh r Hr) as [H | H]; [left; exact H | right].
      eapply justified_mono; [| exact H]. lia.
Qed.

(** With distinct txids the second pass finds every flag already set. *)
Lemma propagate_outputs_same (data : BlockData) (t : nat) (txid : string)
    (tx : Transaction.t) (pre outs : list Output.t) (tmp : utxo_map) (h : heap)
    (r : ref) :
  NoDup data.*1 →
  data !! t = Some (txid, tx) →
  tmp_sound data (length data) tmp →
  is_cached (propagate_outputs tmp txid t (length pre) outs h) r = is_cached h r.
Proof.
  intros Hnd Ht Htmp. revert pre h. induction outs as [| o rest IH];
    intros pre h; cbn.
  - reflexivity.
  - replace (S (length pre)) with (length (pre ++ [o]))
      by (rewrite length_app; cbn; lia).
    rewrite IH.
    destruct (tmp !! (txid, Z.of_nat (length pre))) as [r' |] eqn:Hkey;
      [| reflexivity].
    destruct (is_cached h r') eqn:Hc; [| reflexivity].
    destruct (Htmp _ _ Hkey) as (a & A & txA & j & _ & Ha & _ & [= <- Hj] & ->).
    apply Nat2Z.inj in Hj. subst j.
    assert (a = t) as ->.
    { eapply (NoDup_lookup data.*1); [exact Hnd | |].
      - rewrite list_lookup_fmap, Ha. reflexivity.
      - rewrite list_lookup_fmap, Ht. reflexivity. }
    rewrite is_cached_mark. destruct (decide (r = OutRec t (length pre))) as [-> | Hne].
    + rewrite Hc. reflexivity.
    + rewrite (bool_decide_false _ Hne). cbn. apply orb_false_r.
Qed.

Lemma second_pass_same (data pre items : BlockData) (tmp : utxo_map) (h : heap)
    (r : ref) :
  NoDup data.*1 →
  data = pre ++ items →
  tmp_sound data (length data) tmp →
  is_cached (second_pass tmp (length pre) items h) r = is_cached h r.
Proof.
  intros Hnd. revert pre h. induction items as [| [txid tx] rest IH];
    intros pre h Hdata Htmp; cbn [second_pass].
  - reflexivity.
  - assert (Ht : data !! length pre = Some (txid, tx)).
    { rewrite Hdata, lookup_app_r by lia. rewrite Nat.sub_diag. reflexivity. }
    replace (S (length pre)) with (length (pre ++ [(txid, tx)]))
      by (rewrite length_app; cbn; lia).
    rewrite IH; [| rewrite <- app_assoc; exact Hdata | exact Htmp].
    apply (propagate_outputs_same data (length pre) txid tx [] _ tmp h r Hnd Ht Htmp).
Qed.

Lemma final_heap_sound (data : BlockData) :
  NoDup data.*1 → heap_sound data (length data) (final_heap data).
Proof.
  intros Hnd.
  destruct (first_pass_sound data [] data ∅ (init_heap data) eq_refl) as [Htmp Hh].
  - intros key r Hl. rewrite lookup_empty in Hl. discriminate.
  - intros r Hr. left. exact Hr.
  - cbn [length] in Htmp, Hh. intros r Hr. apply Hh.
    unfold final_heap in Hr.
    rewrite (second_pass_same data [] data _ _ r Hnd eq_refl Htmp) in Hr.
    exact Hr.
Qed.

(** *** The block after the pass *)

Lemma cache_pass_lookup (data : BlockData) (t : nat) :
  cache_pass data !! t
  = (fun p => (p.1, read_tx (final_heap data) t p.2)) <$> data !! t.
Proof. rewrite cache_pass_read. apply list_lookup_imap. Qed.

Lemma read_flag_true (h : heap) (r : ref) (o : Output.t) :
  is_cached h r = true → Output.cached (default o (h r)) = true.
Proof. unfold is_cached. destruct (h r); [auto | discriminate]. Qed.

Lemma read_flag_inv (h : heap) (r : ref) (o : Output.t) :
  Output.cached (default o (h r)) = true →
  Output.cached o = true ∨ is_cached h r = true.
Proof. unfold is_cached. destruct (h r); cbn; auto. Qed.

(** C1. In a block's ["data"] (distinct txids), when transaction [A] has an
    output [j] (in particular output 0) and a later transaction [B] has an
    input whose key is [(A, j)], then after both passes that input's
    [previous_output.data.cached] and [A]'s own output record [j] are both
    true.  Conversely an input is flagged by the pass only if its key was
    created by an earlier transaction of the block, and an output record
    only if a later transaction of the block has an input with its key. *)
Theorem cache_pass_spec (data : BlockData) :
  NoDup data.*1 →
  (∀ (a b i j : nat) A B txA txB o inp,
     (a < b)%nat → data !! a = Some (A, txA) → data !! b = Some (B, txB) →
     Transaction.outputs txA !! j = Some o →
     Transaction.inputs txB !! i = Some inp →
     outpoint_key inp = (A, Z.of_nat j) →
     ∃ txA' txB' o' inp',
       cache_pass data !! a = Some (A, txA')
       ∧ cache_pass data !! b = Some (B, txB')
       ∧ Transaction.outputs txA' !! j = Some o'
       ∧ Transaction.inputs txB' !! i = Some inp'
       ∧ Output.cached o' = true
       ∧ Output.cached (OutPoint.data (TxIn.previous_output inp')) = true)
  ∧ (∀ (b i : nat) B txB' inp',
       cache_pass data !! b = Some (B, txB') →
       Transaction.inputs txB' !! i = Some inp' →
       Output.cached (OutPoint.data (TxIn.previous_output inp')) = true →
       (∃ txB inp, data !! b = Some (B, txB)
                   ∧ Transaction.inputs txB !! i = Some inp
                   ∧ Output.cached (OutPoint.data (TxIn.previous_output inp)) = true)
       ∨ (∃ (a j : nat) A txA,
            (a < b)%nat ∧ data !! a = Some (A, txA)
            ∧ (j < length (Transaction.outputs txA))%nat
            ∧ outpoint_key inp' = (A, Z.of_nat j)))
  ∧ (∀ (a j : nat) A txA' o',
       cache_pass data !! a = Some (A, txA') →
       Transaction.outputs txA' !! j = Some o' →
       Output.cached o' = true →
       (∃ txA o, data !! a = Some (A, txA)
                 ∧ Transaction.outputs txA !! j = Some o
                 ∧ Output.cached o = true)
       ∨ (∃ (b i : nat) B txB inp,
            (a < b)%nat ∧ data !! b = Some (B, txB)
            ∧ Transaction.inputs txB !! i = Some inp
            ∧ outpoint_key inp = (A, Z.of_nat j))).
Proof.
  intros Hnd. split; [| split].
  - intros a b i j A B txA txB o inp Hab Ha Hb Ho Hi Hkey.
    pose proof (lookup_lt_Some _ _ _ Ho) as Hj.
    destruct (final_heap_marks data a b i j A B txA txB inp Hnd Ha Hb Hab Hj Hi Hkey)
      as [Hin Hout].
    exists (read_tx (final_heap data) a txA), (read_tx (final_heap data) b txB),
      (default o (final_heap data (OutRec a j))),
      (read_input (final_heap data) b i inp).
    rewrite !cache_pass_lookup, Ha, Hb. cbn.
    rewrite !list_lookup_imap, Ho, Hi. cbn.
    repeat split; apply read_flag_true; assumption.
  - intros b i B txB' inp' Hb Hi Hc.
    rewrite cache_pass_lookup in Hb.
    destruct (data !! b) as [[B0 txB] |] eqn:Hdb; [| discriminate].
    cbn in Hb. injection Hb as -> <-.
    cbn in Hi. rewrite list_lookup_imap in Hi.
    destruct (Transaction.inputs txB !! i) as [inp |] eqn:Hdi; [| discriminate].
    cbn in Hi. injection Hi as <-. cbn in Hc.
    apply read_flag_inv in Hc as [Hc | Hc]; [left; eauto |].
    destruct (final_heap_sound data Hnd _ Hc) as [Hinit | Hj].
    + left. exists txB, inp. unfold is_cached, init_heap in Hinit.
      rewrite Hdb in Hinit. cbn [mbind option_bind snd] in Hinit.
      rewrite Hdi in Hinit. cbn in Hinit. auto.
    + right. destruct Hj as (b' & B' & txB'' & i' & inp'' & r' & _ & Hb' & Hi'
                             & Hcr & [[= <- <-] | Hr]).
      * rewrite Hdb in Hb'. injection Hb' as <- <-.
        rewrite Hdi in Hi'. injection Hi' as <-.
        destruct Hcr as (a & A & txA & j & Halt & Ha & Hjlt & Hkey & _).
        exists a, j, A, txA. auto.
      * destruct Hcr as (? & ? & ? & ? & _ & _ & _ & _ & ->). discriminate.
  - intros a j A txA' o' Ha Ho Hc.
    rewrite cache_pass_lookup in Ha.
    destruct (data !! a) as [[A0 txA] |] eqn:Hda; [| discriminate].
    cbn in Ha. injection Ha as -> <-.
    cbn in Ho. rewrite list_lookup_imap in Ho.
    destruct (Transaction.outputs txA !! j) as [o |] eqn:Hdo; [| discriminate].
    cbn in Ho. injection Ho as <-.
    apply read_flag_inv in Hc as [Hc | Hc]; [left; eauto |].
    destruct (final_heap_sound data Hnd _ Hc) as [Hinit | Hj].
    + left. exists txA, o. unfold is_cached, init_heap in Hinit.
      rewrite Hda in Hinit. cbn [mbind option_bind snd] in Hinit.
      rewrite Hdo in Hinit. auto.
    + right. destruct Hj as (b & B & txB & i & inp & r' & _ & Hb & Hi
                             & Hcr & [[=] | <-]).
      destruct Hcr as (a' & A' & txA'' & j' & Halt & Ha' & _ & Hkey & [= <- <-]).
      rewrite Hda in Ha'. injection Ha' as <- <-.
      exists b, i, B, txB, inp. auto.
Qed.

Example toy_data_fetched : fetch_block Toy.node "h2" false = Ok (Toy.h2, toy_data).
Proof. vm_compute. reflexivity. Qed.

Lemma toy_data_NoDup : NoDup toy_data.*1.
Proof.
  cbn.
  repeat (apply NoDup_cons; split;
          [intros H; repeat (apply elem_of_cons in H as [H | H]; [discriminate |]);
           apply elem_of_nil in H; exact H |]).
  apply NoDup_nil_2.
Qed.

Lemma cache_pass_spec_witness :
  ∃ txA' txB' o' inp',
    cache_pass toy_data !! 1%nat = Some ("aa", txA')
    ∧ cache_pass toy_data !! 2%nat = Some ("bb", txB')
    ∧ Transaction.outputs txA' !! 0%nat = Some o'
    ∧ Transaction.inputs txB' !! 0%nat = Some inp'
    ∧ Output.cached o' = true
    ∧ Output.cached (OutPoint.data (TxIn.previous_output inp')) = true.
Proof.
  apply (proj1 (cache_pass_spec toy_data toy_data_NoDup) 1%nat 2%nat 0%nat 0%nat
           "aa" "bb"
           (Transaction.mk 2 true
              [TxIn.mk "0x4830" 4294967294
                 (OutPoint.mk "c1" 0 (Output.mk 5000000000 "0x4104" false) 1
                    1231006205 true)
                 ["0x3044"]]
              [Output.mk 2000000000 "0x76a9" false;
               Output.mk 2999990000 "0xa914" false] 0)
           (Transaction.mk 2 false
              [TxIn.mk "0x4830" 4294967294
                 (OutPoint.mk "aa" 0 (Output.mk 2000000000 "0x76a9" false) 2
                    1231006805 false)
                 ["0x3044"]]
              [Output.mk 1999999999 "0x0014" false] 0)
           (Output.mk 2000000000 "0x76a9" false)
           (TxIn.mk "0x4830" 4294967294
              (OutPoint.mk "aa" 0 (Output.mk 2000000000 "0x76a9" false) 2
                 1231006805 false)
              ["0x3044"])).
  - lia.
  - reflexivity.
  - reflexivity.
  - reflexivity.
  - reflexivity.
  - reflexivity.
Defined.

(** The flags of the sample block: only output 0 of [aa] and the input of
    [bb] are set. *)
Example cache_pass_toy_flags :
  (fun p => (p.1,
             (fun i => Output.cached (OutPoint.data (TxIn.previous_output i)))
               <$> Transaction.inputs p.2,
             Output.cached <$> Transaction.outputs p.2))
    <$> cache_pass toy_data
  = [("c2", [false], [false]); ("aa", [false], [true; false]);
     ("bb", [true], [false])].
Proof. vm_compute. reflexivity. Qed.

(** *** The txids of a fetched block are distinct *)

Lemma dict_set_keys {V} (k : string) (v : V) (d : list (string * V)) :
  (dict_set k v d).*1 = if decide (k ∈ d.*1) then d.*1 else d.*1 ++ [k].
Proof.
  induction d as [| [k' v'] d IH]; cbn.
  - rewrite decide_False by apply not_elem_of_nil. reflexivity.
  - destruct (decide (k' = k)) as [-> | Hne]; cbn.
    + rewrite decide_True by (apply elem_of_cons; left; reflexivity). reflexivity.
    + rewrite IH. destruct (decide (k ∈ d.*1)) as [Hin | Hni].
      * rewrite decide_True by (apply elem_of_cons; right; exact Hin). reflexivity.
      * rewrite decide_False; [reflexivity |].
        intros [H | H]%elem_of_cons; [apply Hne; symmetry; exact H | exact (Hni H)].
Qed.

Lemma dict_set_NoDup {V} (k : string) (v : V) (d : list (string * V)) :
  NoDup d.*1 → NoDup (dict_set k v d).*1.
Proof.
  intros Hnd. rewrite dict_set_keys. case_decide as Hk; [exact Hnd |].
  apply NoDup_app. split; [exact Hnd |]. split.
  - intros x Hx [-> | Hx']%elem_of_cons; [auto | by apply elem_of_nil in Hx'].
  - apply NoDup_singleton.
Qed.

Lemma dict_of_pairs_NoDup {V} (kvs : list (string * V)) :
  NoDup (dict_of_pairs kvs).*1.
Proof.
  unfold dict_of_pairs.
  assert (H : ∀ d : list (string * V), NoDup d.*1 →
              NoDup (fold_left (fun d kv => dict_set kv.1 kv.2 d) kvs d).*1).
  { induction kvs as [| kv kvs IH]; intros d Hd; cbn; [exact Hd |].
    apply IH, dict_set_NoDup, Hd. }
  apply H, NoDup_nil_2.
Qed.

(** Every block that [fetch_block] returns has distinct txids: its
    ["data"] is a dict. *)
Lemma fetch_block_NoDup {Payload} (node : Node Payload) hash fast h data :
  fetch_block node hash fast = Ok (h, data) → NoDup data.*1.
Proof.
  unfold fetch_block. intros H.
  destruct (getblock node hash); [| discriminate]. cbn in H.
  destruct (if fast then _ else _); [| discriminate]. cbn in H.
  destruct (mapM _ _); [| discriminate]. cbn in H.
  injection H as _ <-. apply dict_of_pairs_NoDup.
Qed.

(** ** The retry loop *)

(** X1. The call returns the result of the first attempt that reads one,
    provided it is among the first three; it has then posted once per
    attempt made and slept once per failed attempt. *)
Theorem request_rpc_first_success {V} (world : nat → post_result V) (k : nat) (v : V) :
  (k < RETRIES)%nat → world k = GoodResponse v →
  (∀ i, (i < k)%nat → is_good (world i) = false) →
  request_rpc world = RpcRun.mk (Returned v) (S k) k.
Proof.
  unfold RETRIES. intros Hk Hgood Hbad. unfold request_rpc, RETRIES.
  destruct k as [| [| [| k]]]; [| | | lia].
  - cbn. rewrite Hgood. reflexivity.
  - pose proof (Hbad 0%nat ltac:(lia)) as H0.
    cbn. destruct (world 0%nat); try discriminate; cbn; rewrite Hgood; reflexivity.
  - pose proof (Hbad 0%nat ltac:(lia)) as H0.
    pose proof (Hbad 1%nat ltac:(lia)) as H1.
    cbn. destruct (world 0%nat); try discriminate; cbn;
      destruct (world 1%nat); try discriminate; cbn; rewrite Hgood; reflexivity.
Qed.

Lemma request_rpc_first_success_witness :
  request_rpc flaky_world = RpcRun.mk (Returned 840000) 3 2.
Proof.
  apply (request_rpc_first_success flaky_world 2 840000).
  - unfold RETRIES. lia.
  - reflexivity.
  - intros [| [| i]] Hi; [reflexivity | reflexivity | lia].
Defined.

(** X2. When the three attempts all fail, the call has posted three times
    and slept twice (not after the last attempt), and raises
    [ConnectionError] with the text of the latest response received; when
    no response was ever received the name [res] is unbound and the
    [raise] statement itself fails with [UnboundLocalError]. *)
Theorem request_rpc_exhausted {V} (world : nat → post_result V) :
  (∀ i, (i < RETRIES)%nat → is_good (world i) = false) →
  request_rpc world
  = RpcRun.mk
      (match last_response world RETRIES with
       | Some text => RaisedConnectionError text
       | None => RaisedUnboundLocalError
       end) 3 2.
Proof.
  unfold RETRIES. intros Hbad.
  pose proof (Hbad 0%nat ltac:(lia)) as H0.
  pose proof (Hbad 1%nat ltac:(lia)) as H1.
  pose proof (Hbad 2%nat ltac:(lia)) as H2.
  unfold request_rpc, RETRIES. cbn.
  destruct (world 0%nat); try discriminate; cbn;
    destruct (world 1%nat); try discriminate; cbn;
    destruct (world 2%nat); try discriminate; reflexivity.
Qed.

Lemma request_rpc_exhausted_witness :
  request_rpc (fun k => if (k =? 1)%nat then BadResponse "busy" else @PostRaises Z)
  = RpcRun.mk (RaisedConnectionError "busy") 3 2
  ∧ request_rpc (fun _ => @PostRaises Z) = RpcRun.mk RaisedUnboundLocalError 3 2.
Proof.
  split.
  - rewrite request_rpc_exhausted; [reflexivity |].
    intros [| [| i]] _; reflexivity.
  - rewrite request_rpc_exhausted; [reflexivity |]. intros i _. reflexivity.
Defined.

(** X3. Whatever the attempts meet, the call posts at least once and at
    most three times, sleeps exactly once less than it posts, and never
    leaves the loop without returning or raising. *)
Theorem request_rpc_bounds {V} (world : nat → post_result V) :
  let run := request_rpc world in
  (1 ≤ RpcRun.posts run ≤ RETRIES)%nat
  ∧ S (RpcRun.sleeps run) = RpcRun.posts run
  ∧ RpcRun.outcome run ≠ ReturnedNone.
Proof.
  unfold request_rpc, RETRIES. cbn.
  destruct (world 0%nat); cbn; try (repeat split; (lia || discriminate));
    destruct (world 1%nat); cbn; try (repeat split; (lia || discriminate));
    destruct (world 2%nat); cbn; try (repeat split; (lia || discriminate));
    repeat split; try lia; destruct (last_response world 0); try discriminate.
Qed.

(** ** Hexadecimal fields *)

Lemma string_length_ind (P : string → Prop) :
  (∀ s, (∀ s', (String.length s' < String.length s)%nat → P s') → P s) →
  ∀ s, P s.
Proof.
  intros Hstep s. remember (String.length s) as n eqn:Hn.
  revert s Hn. induction n as [n IH] using lt_wf_ind. intros s ->.
  apply Hstep. intros s' Hlt. exact (IH _ Hlt s' eq_refl).
Qed.

Lemma bytes_fromhex_range s bs :
  bytes_fromhex s = Ok bs → Forall (fun b => 0 ≤ b < 256) bs.
Proof.
  revert bs. induction s as [s IH] using string_length_ind. intros bs H.
  destruct s as [| c [| d s]]; cbn [bytes_fromhex] in H.
  - injection H as <-. constructor.
  - destruct (is_py_space c); [| discriminate]. injection H as <-. constructor.
  - destruct (is_py_space c).
    + apply (IH (String d s)); [cbn; lia | exact H].
    + destruct (hex_digit c) as [hi |] eqn:Hc; [| discriminate].
      destruct (hex_digit d) as [lo |] eqn:Hd; [| discriminate].
      destruct (bytes_fromhex s) as [bs' |] eqn:Hs; [| discriminate].
      cbn in H. injection H as <-.
      pose proof (hex_digit_range _ _ Hc). pose proof (hex_digit_range _ _ Hd).
      constructor; [lia |]. apply (IH s); [cbn; lia | exact Hs].
Qed.

Lemma bytes_fromhex_app s1 s2 b1 :
  bytes_fromhex s1 = Ok b1 →
  bytes_fromhex (s1 +:+ s2) = (b2 ← bytes_fromhex s2; Ok (b1 ++ b2)).
Proof.
  revert b1. induction s1 as [s1 IH] using string_length_ind. intros b1 H.
  destruct s1 as [| c [| d s]]; cbn [bytes_fromhex] in H.
  - injection H as <-. change ("" +:+ s2) with s2.
    destruct (bytes_fromhex s2); reflexivity.
  - destruct (is_py_space c) eqn:Hsp; [| discriminate]. injection H as <-.
    change (String c "" +:+ s2) with (String c s2).
    cbn [bytes_fromhex]. rewrite Hsp.
    destruct (bytes_fromhex s2); reflexivity.
  - change (String c (String d s) +:+ s2) with (String c (String d (s +:+ s2))).
    cbn [bytes_fromhex].
    destruct (is_py_space c) eqn:Hsp.
    + change (String d (s +:+ s2)) with (String d s +:+ s2).
      apply (IH (String d s)); [cbn; lia | exact H].
    + destruct (hex_digit c) as [hi |]; [| discriminate].
      destruct (hex_digit d) as [lo |]; [| discriminate].
      destruct (bytes_fromhex s) as [bs' |] eqn:Hs; [| discriminate].
      cbn in H. injection H as <-.
      rewrite (IH s ltac:(cbn; lia) bs' Hs).
      destruct (bytes_fromhex s2); reflexivity.
Qed.

Lemma int_from_bytes_big_acc (bs : list Z) (acc : Z) :
  fold_left (fun a b => a * 256 + b) bs acc
  = acc * 256 ^ Z.of_nat (length bs) + int_from_bytes_big bs.
Proof.
  unfold int_from_bytes_big. revert acc.
  induction bs as [| b bs IH]; intros acc; cbn [fold_left length].
  - cbn. lia.
  - rewrite IH, (IH (0 * 256 + b)), Nat2Z.inj_succ, Z.pow_succ_r by lia. lia.
Qed.

Lemma int_from_bytes_big_app (b1 b2 : list Z) :
  int_from_bytes_big (b1 ++ b2)
  = int_from_bytes_big b1 * 256 ^ Z.of_nat (length b2) + int_from_bytes_big b2.
Proof.
  unfold int_from_bytes_big at 1. rewrite fold_left_app.
  apply int_from_bytes_big_acc.
Qed.

Lemma int_from_bytes_big_range (bs : list Z) :
  Forall (fun b => 0 ≤ b < 256) bs →
  0 ≤ int_from_bytes_big bs < 256 ^ Z.of_nat (length bs).
Proof.
  induction bs as [| b bs IH] using rev_ind; intros Hall.
  - cbn. lia.
  - apply Forall_app in Hall as [Hbs Hb]. rewrite Forall_singleton in Hb.
    specialize (IH Hbs). rewrite int_from_bytes_big_app, length_app.
    cbn [length]. change (int_from_bytes_big [b]) with (0 * 256 + b).
    rewrite Nat2Z.inj_add, Z.pow_add_r by lia.
    change (Z.of_nat 1) with 1. rewrite Z.pow_1_r. lia.
Qed.

(** X4. A hex field decodes big-endian: the value of [s1 s2] is the value
    of [s1] shifted by the bytes of [s2] plus the value of [s2]; in
    particular leading [00] bytes do not change the value, and a field of
    [n] bytes is below [256 ^ n]. *)
Theorem int_of_hex_app (s1 s2 : string) (v1 : Z) (b2 : list Z) :
  int_of_hex s1 = Ok v1 → bytes_fromhex s2 = Ok b2 →
  int_of_hex (s1 +:+ s2)
  = Ok (v1 * 256 ^ Z.of_nat (length b2) + int_from_bytes_big b2)
  ∧ int_of_hex ("00" +:+ s2) = int_of_hex s2
  ∧ 0 ≤ int_from_bytes_big b2 < 256 ^ Z.of_nat (length b2).
Proof.
  unfold int_of_hex. intros H1 H2.
  destruct (bytes_fromhex s1) as [b1 |] eqn:Hb1; [| discriminate].
  cbn in H1. injection H1 as <-. split; [| split].
  - rewrite (bytes_fromhex_app s1 s2 b1 Hb1), H2. cbn.
    rewrite int_from_bytes_big_app. reflexivity.
  - rewrite (bytes_fromhex_app "00" s2 [0] eq_refl), H2. reflexivity.
  - apply int_from_bytes_big_range, (bytes_fromhex_range s2), H2.
Qed.

Lemma int_of_hex_app_witness :
  int_of_hex ("0000" +:+ "0100010001") = Ok 4295032833.
Proof.
  rewrite (proj1 (int_of_hex_app "0000" "0100010001" 0 [1; 0; 1; 0; 1]
                    eq_refl eq_refl)).
  reflexivity.
Defined.

Lemma all_hex_cons c s :
  all_hex (String c s) = true → ∃ v, hex_digit c = Some v ∧ all_hex s = true.
Proof.
  cbn. intros [Hc Hs]%andb_true_iff.
  apply bool_decide_eq_true in Hc as [v Hv]. eauto.
Qed.

(** X5. On a string of hex digits without white space, [bytes.fromhex]
    returns one byte per pair of digits when the length is even and
    raises [ValueError] when it is odd. *)
Theorem bytes_fromhex_parity (s : string) :
  all_hex s = true →
  (Nat.even (String.length s) = true →
     ∃ bs, bytes_fromhex s = Ok bs
           ∧ (2 * length bs = String.length s)%nat)
  ∧ (Nat.even (String.length s) = false → bytes_fromhex s = Raise ValueError).
Proof.
  induction s as [s IH] using string_length_ind. intros Hall.
  destruct s as [| c [| d s]].
  - split; [intros _; exists []; split; reflexivity | discriminate].
  - apply all_hex_cons in Hall as (v & Hv & _).
    split; [discriminate |]. intros _. cbn.
    rewrite (hex_digit_not_space _ _ Hv). reflexivity.
  - apply all_hex_cons in Hall as (hi & Hhi & Hall).
    apply all_hex_cons in Hall as (lo & Hlo & Hall).
    destruct (IH s ltac:(cbn; lia) Hall) as [Heven Hodd].
    rewrite (bytes_fromhex_pair _ _ _ _ _ Hhi Hlo).
    cbn [String.length Nat.even]. split.
    + intros He. destruct (Heven He) as (bs & -> & Hlen).
      exists (16 * hi + lo :: bs). split; [reflexivity | cbn; lia].
    + intros Ho. rewrite (Hodd Ho). reflexivity.
Qed.

Lemma bytes_fromhex_parity_witness :
  (∃ bs, bytes_fromhex "1d00ffff" = Ok bs ∧ (2 * length bs = 8)%nat)
  ∧ bytes_fromhex "1d00fff" = Raise ValueError.
Proof.
  split.
  - apply (bytes_fromhex_parity "1d00ffff"); reflexivity.
  - apply (bytes_fromhex_parity "1d00fff"); reflexivity.
Defined.

(** ** Compact bits as integer and as target *)

Lemma eight_hex_digits (bits : string) :
  all_hex bits = true → String.length bits = 8%nat →
  ∃ c1 c2 c3 c4 c5 c6 c7 c8 v1 v2 v3 v4 v5 v6 v7 v8,
    bits = String c1 (String c2 (String c3 (String c4
             (String c5 (String c6 (String c7 (String c8 EmptyString)))))))
    ∧ hex_digit c1 = Some v1 ∧ hex_digit c2 = Some v2
    ∧ hex_digit c3 = Some v3 ∧ hex_digit c4 = Some v4
    ∧ hex_digit c5 = Some v5 ∧ hex_digit c6 = Some v6
    ∧ hex_digit c7 = Some v7 ∧ hex_digit c8 = Some v8.
Proof.
  intros Hall Hlen.
  destruct bits as [| c1 [| c2 [| c3 [| c4 [| c5 [| c6 [| c7 [| c8 [| ? ?]]]]]]]]];
    try discriminate.
  apply all_hex_cons in Hall as (v1 & H1 & Hall).
  apply all_hex_cons in Hall as (v2 & H2 & Hall).
  apply all_hex_cons in Hall as (v3 & H3 & Hall).
  apply all_hex_cons in Hall as (v4 & H4 & Hall).
  apply all_hex_cons in Hall as (v5 & H5 & Hall).
  apply all_hex_cons in Hall as (v6 & H6 & Hall).
  apply all_hex_cons in Hall as (v7 & H7 & Hall).
  apply all_hex_cons in Hall as (v8 & H8 & _).
  exists c1, c2, c3, c4, c5, c6, c7, c8, v1, v2, v3, v4, v5, v6, v7, v8.
  repeat split; assumption.
Qed.

Lemma bits_fields (bits : string) :
  all_hex bits = true → String.length bits = 8%nat →
  ∃ e m, 0 ≤ e < 256 ∧ 0 ≤ m < 2 ^ 24
         ∧ int_of_hex bits = Ok (e * 2 ^ 24 + m)
         ∧ bits_to_target bits = Ok (decode_compact e m).
Proof.
  intros Hall Hlen.
  destruct (eight_hex_digits bits Hall Hlen)
    as (c1 & c2 & c3 & c4 & c5 & c6 & c7 & c8 & v1 & v2 & v3 & v4 & v5 & v6 & v7
        & v8 & -> & H1 & H2 & H3 & H4 & H5 & H6 & H7 & H8).
  pose proof (hex_digit_range _ _ H1). pose proof (hex_digit_range _ _ H2).
  pose proof (hex_digit_range _ _ H3). pose proof (hex_digit_range _ _ H4).
  pose proof (hex_digit_range _ _ H5). pose proof (hex_digit_range _ _ H6).
  pose proof (hex_digit_range _ _ H7). pose proof (hex_digit_range _ _ H8).
  exists (16 * v1 + v2),
    ((16 * v3 + v4) * 65536 + (16 * v5 + v6) * 256 + (16 * v7 + v8)).
  change (2 ^ 24) with 16777216.
  split; [lia |]. split; [lia |]. split.
  - unfold int_of_hex.
    rewrite (bytes_fromhex_pair _ _ _ _ _ H1 H2).
    rewrite (bytes_fromhex_pair _ _ _ _ _ H3 H4).
    rewrite (bytes_fromhex_pair _ _ _ _ _ H5 H6).
    rewrite (bytes_fromhex_pair _ _ _ _ _ H7 H8).
    cbn [bytes_fromhex mbind result_bind int_from_bytes_big fold_left].
    f_equal. lia.
  - unfold bits_to_target, int_of_hex. cbn [str_take str_drop].
    rewrite (bytes_fromhex_pair _ _ _ _ _ H1 H2).
    rewrite (bytes_fromhex_pair _ _ _ _ _ H3 H4).
    rewrite (bytes_fromhex_pair _ _ _ _ _ H5 H6).
    rewrite (bytes_fromhex_pair _ _ _ _ _ H7 H8).
    cbn [bytes_fromhex mbind result_bind int_from_bytes_big fold_left].
    replace (0 * 256 + (16 * v1 + v2)) with (16 * v1 + v2) by lia.
    replace (((0 * 256 + (16 * v3 + v4)) * 256 + (16 * v5 + v6)) * 256
             + (16 * v7 + v8))
      with ((16 * v3 + v4) * 65536 + (16 * v5 + v6) * 256 + (16 * v7 + v8))
      by lia.
    unfold decode_compact.
    destruct (16 * v1 + v2 =? 0); [reflexivity |].
    destruct (Z.leb_spec (16 * v1 + v2) 3); [| rewrite Z.shiftl_mul_pow2 by lia; reflexivity].
    rewrite Z.shiftr_div_pow2 by lia. reflexivity.
Qed.

(** X6. For a block whose [bits] is eight hex digits, the header formatter
    and the chain-state formatter agree: the [current_target] of the chain
    state is the compact decoding of the integer [bits] of the formatted
    header, exponent in the top byte and mantissa in the low 24 bits. *)
Theorem header_bits_and_target (h : Header.t) (ts : list Z) (est : Z)
    (fh : FHeader.t) (fcs : FChainState.t) :
  all_hex (Header.bits h) = true → String.length (Header.bits h) = 8%nat →
  format_header h = Ok fh →
  format_chain_state (ChainState.mk h ts est) = Ok fcs →
  0 ≤ FHeader.bits fh < 2 ^ 32
  ∧ FChainState.current_target fcs
    = decode_compact (FHeader.bits fh / 2 ^ 24) (FHeader.bits fh mod 2 ^ 24).
Proof.
  intros Hall Hlen Hfh Hfcs.
  destruct (bits_fields _ Hall Hlen) as (e & m & He & Hm & Hint & Htarget).
  unfold format_header in Hfh. rewrite Hint in Hfh. cbn in Hfh.
  injection Hfh as <-. cbn [FHeader.bits].
  unfold format_chain_state in Hfcs. cbn [ChainState.head] in Hfcs.
  destruct (int_of_hex (Header.chainwork h)); [| discriminate].
  cbn [mbind result_bind] in Hfcs. rewrite Htarget in Hfcs.
  cbn [mbind result_bind] in Hfcs. injection Hfcs as <-.
  cbn [FChainState.current_target].
  change (2 ^ 32) with (256 * 2 ^ 24).
  assert (Hq : (e * 2 ^ 24 + m) / 2 ^ 24 = e).
  { rewrite Z.div_add_l by lia. rewrite (Z.div_small m) by lia. lia. }
  assert (Hr : (e * 2 ^ 24 + m) mod 2 ^ 24 = m).
  { rewrite Z.add_comm, Z.mod_add by lia. apply Z.mod_small. lia. }
  rewrite Hq, Hr. split; [nia | reflexivity].
Qed.

Lemma header_bits_and_target_witness :
  ∃ fh fcs, format_header Toy.h1 = Ok fh
            ∧ format_chain_state (ChainState.mk Toy.h1 [] 0) = Ok fcs
            ∧ FHeader.bits fh = 486604799
            ∧ FChainState.current_target fcs = decode_compact 29 65535.
Proof.
  destruct (format_header Toy.h1) as [fh |] eqn:Hfh; [| discriminate].
  destruct (format_chain_state (ChainState.mk Toy.h1 [] 0)) as [fcs |] eqn:Hfcs;
    [| discriminate].
  exists fh, fcs. split; [reflexivity |]. split; [reflexivity |].
  destruct (header_bits_and_target Toy.h1 [] 0 fh fcs eq_refl eq_refl Hfh Hfcs)
    as [_ Ht].
  injection Hfh as <-. split; [reflexivity |]. rewrite Ht. reflexivity.
Defined.

(** X7. The target decoded from eight hex digits is never negative, does
    not exceed the mantissa when the exponent is at most 3, and fits in
    256 bits when the exponent is at most 32; exponents above 34 with a
    non-zero mantissa give targets of more than 256 bits, which the
    decoder returns without complaint. *)
Theorem bits_to_target_bounds (bits : string) :
  all_hex bits = true → String.length bits = 8%nat →
  ∃ n t, int_of_hex bits = Ok n ∧ bits_to_target bits = Ok t
         ∧ 0 ≤ t
         ∧ (n / 2 ^ 24 ≤ 3 → t ≤ n mod 2 ^ 24)
         ∧ (n / 2 ^ 24 ≤ 32 → t < 2 ^ 256)
         ∧ (34 < n / 2 ^ 24 → 0 < n mod 2 ^ 24 → 2 ^ 256 ≤ t).
Proof.
  intros Hall Hlen.
  destruct (bits_fields _ Hall Hlen) as (e & m & He & Hm & Hint & Htarget).
  exists (e * 2 ^ 24 + m), (decode_compact e m).
  split; [exact Hint |]. split; [exact Htarget |].
  assert (Hq : (e * 2 ^ 24 + m) / 2 ^ 24 = e).
  { rewrite Z.div_add_l by lia. rewrite (Z.div_small m) by lia. lia. }
  assert (Hr : (e * 2 ^ 24 + m) mod 2 ^ 24 = m).
  { rewrite Z.add_comm, Z.mod_add by lia. apply Z.mod_small. lia. }
  rewrite Hq, Hr. unfold decode_compact.
  destruct (Z.eqb_spec e 0) as [-> | Hne]; [repeat split; lia |].
  destruct (Z.leb_spec e 3) as [Hle | Hgt].
  - pose proof (Z.pow_pos_nonneg 2 (8 * (3 - e)) ltac:(lia) ltac:(lia)) as Hp.
    assert (Hd : 0 ≤ m / 2 ^ (8 * (3 - e)) ≤ m).
    { split; [apply Z.div_pos; lia |].
      apply Z.div_le_upper_bound; [lia |]. nia. }
    repeat split; try lia.
  - pose proof (Z.pow_pos_nonneg 2 (8 * (e - 3)) ltac:(lia) ltac:(lia)) as Hp.
    split; [nia |]. split; [lia |]. split.
    + intros H32.
      pose proof (Z.pow_le_mono_r 2 (8 * (e - 3)) 232 ltac:(lia) ltac:(lia)) as Hmono.
      change (2 ^ 256) with (2 ^ 24 * 2 ^ 232). nia.
    + intros H34 Hm0.
      pose proof (Z.pow_le_mono_r 2 256 (8 * (e - 3)) ltac:(lia) ltac:(lia)) as Hmono.
      nia.
Qed.

Lemma bits_to_target_bounds_witness :
  ∃ t, bits_to_target "1d00ffff" = Ok t ∧ 0 ≤ t < 2 ^ 256.
Proof.
  destruct (bits_to_target_bounds "1d00ffff" eq_refl eq_refl)
    as (n & t & Hn & Ht & H0 & _ & H256 & _).
  exists t. split; [exact Ht |]. split; [exact H0 |].
  apply H256. injection Hn as <-. vm_compute. discriminate.
Defined.

(** ** More on the resolver *)

Lemma resolve_input_coinbase_witness :
  resolve_input Toy.node (Toy.cb_in "04ffff001d") (Some (snapshot_of [sample_utxo]))
  = Ok (TxIn.mk "0x04ffff001d" 4294967295 null_outpoint ["0x" +:+ zero_txid]).
Proof.
  apply (resolve_input_coinbase Toy.node (Toy.cb_in "04ffff001d")
           (Some (snapshot_of [sample_utxo])) "04ffff001d").
  - reflexivity.
  - discriminate.
Defined.

(** X9. On the exact path an input that spends an output of a block
    without [previousblockhash] (the genesis block) cannot be resolved:
    the lookup of the preceding header raises [KeyError].  An output index
    outside the spent transaction's outputs raises [IndexError]. *)
Theorem resolve_outpoint_errors {Payload} (node : Node Payload)
    (input : RawInput.t) txid tx blockhash block :
  RawInput.txid input = Some txid →
  getrawtransaction node txid = Ok tx →
  RawTx.blockhash tx = Some blockhash →
  getblockheader node blockhash = Ok block →
  (Header.previousblockhash block = None →
     resolve_outpoint node input = Raise KeyError)
  ∧ (∀ prevhash prev_block vout,
       Header.previousblockhash block = Some prevhash →
       getblockheader node prevhash = Ok prev_block →
       RawInput.vout input = Some vout →
       vout < - Z.of_nat (length (RawTx.vout tx))
       ∨ Z.of_nat (length (RawTx.vout tx)) ≤ vout →
       resolve_outpoint node input = Raise IndexError).
Proof.
  intros Ht Htx Hbh Hb. unfold resolve_outpoint.
  rewrite Ht. cbn. rewrite Htx. cbn. rewrite Hbh. cbn. rewrite Hb. cbn.
  split.
  - intros ->. reflexivity.
  - intros prevhash prev_block vout -> Hp Hv Hrange. cbn. rewrite Hp. cbn.
    rewrite Hv. cbn. unfold py_index.
    destruct ((0 <=? vout) && (vout <? Z.of_nat (length (RawTx.vout tx)))) eqn:E1.
    + apply andb_true_iff in E1 as [? ?]. lia.
    + destruct ((- Z.of_nat (length (RawTx.vout tx)) <=? vout) && (vout <? 0)) eqn:E2.
      * apply andb_true_iff in E2 as [? ?]. lia.
      * reflexivity.
Qed.

Lemma resolve_outpoint_errors_witness :
  resolve_outpoint genesis_node (Toy.spend "c0" 0) = Raise KeyError
  ∧ resolve_outpoint genesis_node (Toy.spend "aa" 2) = Raise IndexError.
Proof.
  split.
  - apply (resolve_outpoint_errors genesis_node (Toy.spend "c0" 0) "c0"
             genesis_cb "h0" Toy.h0); reflexivity.
  - apply (proj2 (resolve_outpoint_errors genesis_node (Toy.spend "aa" 2) "aa"
                    Toy.aa "h2" Toy.h2 eq_refl eq_refl eq_refl eq_refl)
             "h1" Toy.h1 2); [reflexivity | reflexivity | reflexivity |].
    right. cbn. lia.
Defined.

Lemma snapshot_fold_lookup (rows : list Utxo.t) (m : gmap (string * Z) Utxo.t)
    (k : string * Z) (e : Utxo.t) :
  fold_left (fun m o => <[(Utxo.txid o, Utxo.vout o) := o]> m) rows m !! k = Some e →
  (e ∈ rows ∧ (Utxo.txid e, Utxo.vout e) = k) ∨ m !! k = Some e.
Proof.
  revert m. induction rows as [| o rows IH]; intros m H; cbn in H.
  - right. exact H.
  - destruct (IH _ H) as [[Hin Hk] | Hm].
    + left. split; [apply elem_of_cons; right; exact Hin | exact Hk].
    + apply lookup_insert_Some in Hm as [[<- <-] | [_ Hm]].
      * left. split; [apply elem_of_cons; left; reflexivity | reflexivity].
      * right. exact Hm.
Qed.

Lemma snapshot_fold_covers (rows : list Utxo.t) (m : gmap (string * Z) Utxo.t)
    (o : Utxo.t) :
  o ∈ rows →
  is_Some (fold_left (fun m o => <[(Utxo.txid o, Utxo.vout o) := o]> m) rows m
           !! (Utxo.txid o, Utxo.vout o)).
Proof.
  assert (Hkeep : ∀ rows (m : gmap (string * Z) Utxo.t) k, is_Some (m !! k) →
            is_Some (fold_left (fun m o => <[(Utxo.txid o, Utxo.vout o) := o]> m)
                       rows m !! k)).
  { clear. induction rows as [| o rows IH]; intros m k Hk; cbn; [exact Hk |].
    apply IH. rewrite lookup_insert_is_Some'. right. exact Hk. }
  revert m. induction rows as [| o' rows IH]; intros m Hin.
  - by apply elem_of_nil in Hin.
  - cbn. apply elem_of_cons in Hin as [-> | Hin].
    + apply Hkeep. rewrite lookup_insert_eq. eauto.
    + apply IH, Hin.
Qed.

(** X10. With a snapshot built from the rows of the UTXO data set, a
    non-coinbase input resolves on the fast path exactly when some row
    has its [(txid, vout)] and it has a script; the outpoint is the
    formatting of such a row (the last one in the set), carries the
    input's own [txid] and [vout] and an unset flag.  A row being
    present is enough for a non-empty snapshot. *)
Theorem resolve_input_fast {Payload} (node : Node Payload) (input : RawInput.t)
    (rows : list Utxo.t) (txid : string) (vout : Z) (script : string) :
  RawInput.coinbase input = None →
  RawInput.txid input = Some txid → RawInput.vout input = Some vout →
  RawInput.scriptSig input = Some script →
  ((∃ o, o ∈ rows ∧ Utxo.txid o = txid ∧ Utxo.vout o = vout) →
     ∃ e, e ∈ rows ∧ Utxo.txid e = txid ∧ Utxo.vout e = vout
          ∧ resolve_input node input (Some (snapshot_of rows))
            = Ok (TxIn.mk ("0x" +:+ script) (RawInput.sequence input)
                    (OutPoint.mk txid vout
                       (Output.mk (Utxo.value e) ("0x" +:+ Utxo.pk_script e) false)
                       (Utxo.block_height e) (Utxo.median_timestamp e)
                       (Utxo.is_coinbase e))
                    ((fun item => "0x" +:+ item) <$>
                       default [] (RawInput.txinwitness input))))
  ∧ (rows ≠ [] → (∀ o, o ∈ rows → ¬ (Utxo.txid o = txid ∧ Utxo.vout o = vout)) →
     resolve_input node input (Some (snapshot_of rows)) = Raise KeyError).
Proof.
  intros Hcb Ht Hv Hs. unfold resolve_input. rewrite Hcb. cbn [truthy_str].
  split.
  - intros (o & Hin & <- & <-).
    destruct (snapshot_fold_covers rows ∅ o Hin) as [e He].
    fold (snapshot_of rows) in He.
    assert (Hne : snapshot_of rows ≠ ∅).
    { intros Hempty. rewrite Hempty, lookup_empty in He. discriminate. }
    destruct (snapshot_fold_lookup rows ∅ _ e He) as [[Hein Hk] | Hm];
      [| rewrite lookup_empty in Hm; discriminate].
    injection Hk as Hk1 Hk2.
    exists e. split; [exact Hein |]. split; [exact Hk1 |]. split; [exact Hk2 |].
    cbn [truthy_snapshot]. rewrite bool_decide_true by exact Hne.
    rewrite Ht, Hv. cbn. rewrite He. cbn. rewrite Hs. cbn.
    unfold format_outpoint. rewrite Hk1, Hk2. reflexivity.
  - intros Hrows Hnone.
    assert (Hne : snapshot_of rows ≠ ∅).
    { destruct rows as [| o rows]; [done |].
      destruct (snapshot_fold_covers (o :: rows) ∅ o) as [e He];
        [apply elem_of_cons; left; reflexivity |].
      fold (snapshot_of (o :: rows)) in He.
      intros Hempty. rewrite Hempty, lookup_empty in He. discriminate. }
    cbn [truthy_snapshot]. rewrite bool_decide_true by exact Hne.
    rewrite Ht, Hv. cbn.
    destruct (snapshot_of rows !! (txid, vout)) as [e |] eqn:He; [| reflexivity].
    destruct (snapshot_fold_lookup rows ∅ _ e He) as [[Hein Hk] | Hm];
      [| rewrite lookup_empty in Hm; discriminate].
    injection Hk as Hk1 Hk2. exfalso. exact (Hnone e Hein (conj Hk1 Hk2)).
Qed.

Lemma resolve_input_fast_witness :
  (∃ e, e ∈ [sample_utxo] ∧ Utxo.txid e = "zz" ∧ Utxo.vout e = 3
        ∧ resolve_input Toy.node (Toy.spend "zz" 3) (Some (snapshot_of [sample_utxo]))
          = Ok (TxIn.mk "0x4830" 4294967294
                  (OutPoint.mk "zz" 3
                     (Output.mk (Utxo.value e) ("0x" +:+ Utxo.pk_script e) false)
                     (Utxo.block_height e) (Utxo.median_timestamp e)
                     (Utxo.is_coinbase e))
                  ["0x3044"]))
  ∧ resolve_input Toy.node (Toy.spend "zz" 4) (Some (snapshot_of [sample_utxo]))
    = Raise KeyError.
Proof.
  split.
  - apply (proj1 (resolve_input_fast Toy.node (Toy.spend "zz" 3) [sample_utxo]
                    "zz" 3 "4830" eq_refl eq_refl eq_refl eq_refl)).
    exists sample_utxo. split; [apply elem_of_cons; left; reflexivity |].
    split; reflexivity.
  - apply (proj2 (resolve_input_fast Toy.node (Toy.spend "zz" 4) [sample_utxo]
                    "zz" 4 "4830" eq_refl eq_refl eq_refl eq_refl)).
    + discriminate.
    + intros o Ho [_ Hv]. apply elem_of_cons in Ho as [-> | Ho].
      * discriminate Hv.
      * by apply elem_of_nil in Ho.
Defined.

(** X11. With a non-empty snapshot no input is resolved through the node:
    the result of [resolve_input], and of [resolve_transaction], is the
    same whatever the node answers. *)
Theorem fast_path_offline {Payload} (node node' : Node Payload)
    (po : option (gmap (string * Z) Utxo.t)) :
  truthy_snapshot po = true →
  (∀ input, resolve_input node input po = resolve_input node' input po)
  ∧ (∀ tx, resolve_transaction node tx po = resolve_transaction node' tx po).
Proof.
  intros Hpo.
  assert (Hin : ∀ input, resolve_input node input po = resolve_input node' input po).
  { intros input. unfold resolve_input. rewrite Hpo. reflexivity. }
  split; [exact Hin |].
  intros tx. unfold resolve_transaction.
  rewrite (mapM_ext (fun input => resolve_input node input po)
                    (fun input => resolve_input node' input po) _ Hin).
  reflexivity.
Qed.

Lemma fast_path_offline_witness :
  resolve_input Toy.node (Toy.spend "zz" 3) (Some (snapshot_of [sample_utxo]))
  = resolve_input genesis_node (Toy.spend "zz" 3) (Some (snapshot_of [sample_utxo])).
Proof.
  apply (fast_path_offline Toy.node genesis_node (Some (snapshot_of [sample_utxo]))).
  reflexivity.
Defined.

(** ** What [fetch_block] returns *)

Lemma mapM_Forall2 {A B} (f : A → result B) (l : list A) (l' : list B) :
  mapM f l = Ok l' ↔ Forall2 (fun x y => f x = Ok y) l l'.
Proof.
  revert l'. induction l as [| x l IH]; intros l'; cbn.
  - split.
    + intros [= <-]. constructor.
    + intros H. inversion H. reflexivity.
  - split.
    + intros H. destruct (f x) as [y |] eqn:Hx; [| discriminate]. cbn in H.
      destruct (mapM f l) as [ys |]; [| discriminate]. cbn in H.
      injection H as <-. constructor; [exact Hx | apply IH; reflexivity].
    + intros H. inversion H as [| ? y ? ys Hx Hrest]; subst.
      rewrite Hx. cbn. apply IH in Hrest. rewrite Hrest. reflexivity.
Qed.

Lemma mapM_Raise {A B} (f : A → result B) (l : list A) (e : exn) :
  mapM f l = Raise e ↔
  ∃ l1 x l2 ys, l = l1 ++ x :: l2 ∧ mapM f l1 = Ok ys ∧ f x = Raise e.
Proof.
  induction l as [| x l IH]; cbn.
  - split; [discriminate |].
    intros (l1 & y & l2 & ys & H & _). destruct l1; discriminate.
  - split.
    + intros H. destruct (f x) as [y |] eqn:Hx.
      * cbn in H. destruct (mapM f l) as [ys |] eqn:Hl; [discriminate |].
        cbn in H. injection H as <-.
        destruct (proj1 IH eq_refl) as (l1 & x' & l2 & ys & -> & H1 & H2).
        exists (x :: l1), x', l2, (y :: ys). cbn. rewrite Hx, H1. auto.
      * cbn in H. injection H as <-. exists [], x, l, []. auto.
    + intros (l1 & x' & l2 & ys & Hl & H1 & H2).
      destruct l1 as [| x1 l1]; cbn in Hl; injection Hl as Hx Hl; subst x l.
      * rewrite H2. reflexivity.
      * cbn in H1. destruct (f x1) as [y |]; [| discriminate]. cbn in H1 |- *.
        destruct (mapM f l1) as [ys1 |] eqn:Hl1; [| discriminate].
        rewrite (proj2 IH); [reflexivity |].
        exists l1, x', l2, ys1. auto.
Qed.

Lemma format_output_uncached output o :
  format_output output = Ok o → Output.cached o = false.
Proof.
  unfold format_output. destruct (satoshis _); [| discriminate].
  intros [= <-]. reflexivity.
Qed.

Lemma resolve_input_uncached {Payload} (node : Node Payload) input po r :
  resolve_input node input po = Ok r →
  Output.cached (OutPoint.data (TxIn.previous_output r)) = false.
Proof.
  unfold resolve_input, format_coinbase_input, resolve_outpoint. intros H.
  destruct (truthy_str (RawInput.coinbase input)).
  - destruct (RawInput.coinbase input); [| discriminate].
    injection H as <-. reflexivity.
  - destruct (truthy_snapshot po).
    + destruct (RawInput.txid input); [| discriminate]. cbn in H.
      destruct (RawInput.vout input); [| discriminate]. cbn in H.
      destruct (default ∅ po !! _); [| discriminate]. cbn in H.
      destruct (RawInput.scriptSig input); [| discriminate].
      injection H as <-. reflexivity.
    + destruct (RawInput.txid input) as [txid |]; [| discriminate]. cbn in H.
      destruct (getrawtransaction node txid) as [tx |]; [| discriminate]. cbn in H.
      destruct (RawTx.blockhash tx) as [bh |]; [| discriminate]. cbn in H.
      destruct (getblockheader node bh) as [block |]; [| discriminate]. cbn in H.
      destruct (Header.previousblockhash block) as [ph |]; [| discriminate].
      cbn in H.
      destruct (getblockheader node ph); [| discriminate]. cbn in H.
      destruct (RawInput.vout input) as [vout |]; [| discriminate]. cbn in H.
      destruct (py_index (RawTx.vout tx) vout) as [raw |]; [| discriminate].
      cbn in H.
      destruct (format_output raw) as [data |] eqn:Hd; [| discriminate]. cbn in H.
      destruct (py_index (RawTx.vin tx) 0); [| discriminate]. cbn in H.
      destruct (RawInput.scriptSig input); [| discriminate].
      injection H as <-. cbn. exact (format_output_uncached _ _ Hd).
Qed.

Lemma resolve_transaction_uncached {Payload} (node : Node Payload)
    (tx : RawTx.t) (po : option (gmap (string * Z) Utxo.t)) (r : Transaction.t) :
  resolve_transaction node tx po = Ok r → uncached_tx r.
Proof.
  unfold resolve_transaction. intros H.
  destruct (mapM _ (RawTx.vin tx)) as [inputs |] eqn:Hin; [| discriminate].
  cbn in H.
  destruct (mapM format_output (RawTx.vout tx)) as [outputs |] eqn:Hout;
    [| discriminate].
  cbn in H. injection H as <-.
  apply mapM_Forall2 in Hin. apply mapM_Forall2 in Hout.
  split; cbn.
  - clear -Hin. induction Hin as [| input inp ? ? Hr _ IH]; constructor;
      [exact (resolve_input_uncached _ _ _ _ Hr) | exact IH].
  - clear -Hout. induction Hout as [| output o ? ? Hr _ IH]; constructor;
      [exact (format_output_uncached _ _ Hr) | exact IH].
Qed.

(** X12. A resolved transaction has one input per [vin] entry and one
    output per [vout] entry, in the same order, carries the version and
    lock time of the raw transaction, and has no flag set. *)
Theorem resolve_transaction_shape {Payload} (node : Node Payload)
    (tx : RawTx.t) (po : option (gmap (string * Z) Utxo.t)) (r : Transaction.t) :
  resolve_transaction node tx po = Ok r →
  Forall2 (fun input inp => resolve_input node input po = Ok inp)
          (RawTx.vin tx) (Transaction.inputs r)
  ∧ Forall2 (fun output o => format_output output = Ok o)
            (RawTx.vout tx) (Transaction.outputs r)
  ∧ Transaction.version r = RawTx.version tx
  ∧ Transaction.lock_time r = RawTx.locktime tx
  ∧ uncached_tx r.
Proof.
  intros H. pose proof (resolve_transaction_uncached node tx po r H) as Hun.
  unfold resolve_transaction in H.
  destruct (mapM _ (RawTx.vin tx)) as [inputs |] eqn:Hin; [| discriminate].
  cbn in H.
  destruct (mapM format_output (RawTx.vout tx)) as [outputs |] eqn:Hout;
    [| discriminate].
  cbn in H. injection H as <-. cbn.
  apply mapM_Forall2 in Hin. apply mapM_Forall2 in Hout.
  split; [exact Hin |]. split; [exact Hout |]. split; [reflexivity |].
  split; [reflexivity | exact Hun].
Qed.

Lemma resolve_transaction_shape_witness :
  ∃ r, resolve_transaction Toy.node Toy.aa None = Ok r
       ∧ length (Transaction.inputs r) = 1%nat
       ∧ length (Transaction.outputs r) = 2%nat
       ∧ uncached_tx r.
Proof.
  destruct (resolve_transaction Toy.node Toy.aa None) as [r |] eqn:Hr;
    [| vm_compute in Hr; discriminate].
  destruct (resolve_transaction_shape Toy.node Toy.aa None r Hr)
    as (Hin & Hout & _ & _ & Hun).
  exists r. split; [reflexivity |].
  split; [symmetry; exact (Forall2_length _ _ _ Hin) |].
  split; [symmetry; exact (Forall2_length _ _ _ Hout) | exact Hun].
Defined.

(** *** The dict of a block's transactions *)

Lemma dict_set_fresh {V} (k : string) (v : V) (d : list (string * V)) :
  k ∉ d.*1 → dict_set k v d = d ++ [(k, v)].
Proof.
  induction d as [| [k' v'] d IH]; intros Hni; cbn.
  - reflexivity.
  - cbn in Hni. apply not_elem_of_cons in Hni as [Hne Hni].
    rewrite decide_False by (intros ->; apply Hne; reflexivity).
    rewrite IH by exact Hni. reflexivity.
Qed.

Lemma dict_fold_fresh {V} (kvs d : list (string * V)) :
  NoDup (d.*1 ++ kvs.*1) →
  fold_left (fun d kv => dict_set kv.1 kv.2 d) kvs d = d ++ kvs.
Proof.
  revert d. induction kvs as [| [k v] kvs IH]; intros d Hnd; cbn.
  - rewrite app_nil_r. reflexivity.
  - cbn in Hnd. rewrite dict_set_fresh.
    + rewrite IH; [rewrite <- app_assoc; reflexivity |].
      rewrite fmap_app. cbn. rewrite <- app_assoc. exact Hnd.
    + apply NoDup_app in Hnd as (_ & Hdis & _). intros Hin.
      apply (Hdis k Hin). apply elem_of_cons. left. reflexivity.
Qed.

Lemma dict_set_elem {V} (k : string) (v : V) (d : list (string * V)) p :
  p ∈ dict_set k v d → p = (k, v) ∨ p ∈ d.
Proof.
  induction d as [| [k' v'] d IH]; cbn.
  - intros H%elem_of_cons. destruct H as [-> | H]; [auto | by apply elem_of_nil in H].
  - case_decide as Hk.
    + intros [-> | H]%elem_of_cons; [auto |].
      right. apply elem_of_cons. right. exact H.
    + intros [-> | H]%elem_of_cons.
      * right. apply elem_of_cons. left. reflexivity.
      * destruct (IH H) as [-> | Hd]; [auto |].
        right. apply elem_of_cons. right. exact Hd.
Qed.

Lemma dict_fold_elem {V} (kvs d : list (string * V)) p :
  p ∈ fold_left (fun d kv => dict_set kv.1 kv.2 d) kvs d → p ∈ kvs ∨ p ∈ d.
Proof.
  revert d. induction kvs as [| [k v] kvs IH]; intros d H; cbn in H.
  - auto.
  - destruct (IH _ H) as [Hk | Hd].
    + left. apply elem_of_cons. right. exact Hk.
    + apply dict_set_elem in Hd as [-> | Hd]; [| auto].
      left. apply elem_of_cons. left. reflexivity.
Qed.

(** X13. [fetch_block] returns a block only if every transaction of the
    node's block resolved: each entry of ["data"] is the resolution of a
    raw transaction under its txid, no flag is set yet, the txids are
    distinct, and when the node's txids are distinct the entries are the
    node's transactions in the node's order. *)
Theorem fetch_block_data {Payload} (node : Node Payload) (hash : string)
    (fast : bool) (h : Header.t) (data : BlockData) :
  fetch_block node hash fast = Ok (h, data) →
  ∃ block po,
    getblock node hash = Ok block ∧ h = RawBlock.header block
    ∧ (if fast then
         ∃ rows, get_utxo_set node (Header.height h) = Ok rows
                 ∧ po = Some (snapshot_of rows)
       else po = None)
    ∧ (∀ tx, tx ∈ RawBlock.tx block →
         ∃ r, resolve_transaction node tx po = Ok r)
    ∧ (∀ txid r, (txid, r) ∈ data →
         uncached_tx r
         ∧ ∃ tx, tx ∈ RawBlock.tx block ∧ RawTx.txid tx = txid
                 ∧ resolve_transaction node tx po = Ok r)
    ∧ NoDup data.*1
    ∧ (NoDup (RawTx.txid <$> RawBlock.tx block) →
       data.*1 = RawTx.txid <$> RawBlock.tx block).
Proof.
  unfold fetch_block. intros H.
  destruct (getblock node hash) as [block |]; [| discriminate].
  cbn [mbind result_bind] in H.
  assert (Hpo : ∃ po,
            (if fast then
               rows ← get_utxo_set node (Header.height (RawBlock.header block));
               Ok (Some (snapshot_of rows))
             else Ok None) = Ok po
            ∧ (if fast then
                 ∃ rows, get_utxo_set node (Header.height (RawBlock.header block))
                         = Ok rows ∧ po = Some (snapshot_of rows)
               else po = None)).
  { destruct fast.
    - destruct (get_utxo_set node _) as [rows |]; [| discriminate].
      exists (Some (snapshot_of rows)). split; [reflexivity |]. eauto.
    - exists None. split; reflexivity. }
  destruct Hpo as (po & Hpo & Hfast). rewrite Hpo in H.
  cbn [mbind result_bind] in H.
  destruct (mapM _ (RawBlock.tx block)) as [txs |] eqn:Htxs; [| discriminate].
  cbn [mbind result_bind] in H. injection H as <- <-.
  apply mapM_Forall2 in Htxs.
  exists block, po. split; [reflexivity |]. split; [reflexivity |].
  split; [exact Hfast |].
  assert (Hpair : Forall2 (fun tx p => p.1 = RawTx.txid tx
                            ∧ resolve_transaction node tx po = Ok p.2)
                    (RawBlock.tx block) txs).
  { eapply Forall2_impl; [exact Htxs |]. intros tx p Hp. cbn in Hp.
    destruct (resolve_transaction node tx po) as [r |]; [| discriminate].
    injection Hp as <-. auto. }
  split; [| split; [| split]].
  - intros tx Hin. apply list_elem_of_lookup in Hin as [i Hi].
    destruct (Forall2_lookup_l _ _ _ _ _ Hpair Hi) as (p & _ & _ & Hr).
    eauto.
  - intros txid r Hin.
    destruct (dict_fold_elem txs [] _ Hin) as [Hin' | Hnil];
      [| by apply elem_of_nil in Hnil].
    apply list_elem_of_lookup in Hin' as [i Hi].
    destruct (Forall2_lookup_r _ _ _ _ _ Hpair Hi) as (tx & Htx & Hid & Hr).
    cbn in Hid, Hr. split.
    + apply (resolve_transaction_uncached node tx po r Hr).
    + exists tx. split; [apply list_elem_of_lookup; eauto | auto].
  - apply dict_of_pairs_NoDup.
  - intros Hnd.
    assert (Hkeys : txs.*1 = RawTx.txid <$> RawBlock.tx block).
    { clear -Hpair. induction Hpair as [| tx p ? ? [Hid _] _ IH]; cbn;
        [reflexivity | rewrite Hid, IH; reflexivity]. }
    unfold dict_of_pairs. rewrite dict_fold_fresh; [exact Hkeys |].
    cbn. rewrite Hkeys. exact Hnd.
Qed.

Lemma fetch_block_data_witness :
  NoDup toy_data.*1 ∧ toy_data.*1 = ["c2"; "aa"; "bb"]
  ∧ Forall (fun p => uncached_tx p.2) toy_data.
Proof.
  destruct (fetch_block_data Toy.node "h2" false Toy.h2 toy_data toy_data_fetched)
    as (block & po & Hblock & _ & _ & _ & Hentries & Hnd & Horder).
  split; [exact Hnd |]. split.
  - injection Hblock as <-. apply Horder. cbn.
    repeat (apply NoDup_cons; split;
            [intros H; repeat (apply elem_of_cons in H as [H | H]; [discriminate |]);
             apply elem_of_nil in H; exact H |]).
    apply NoDup_nil_2.
  - apply Forall_forall. intros [txid r] Hin. exact (proj1 (Hentries txid r Hin)).
Defined.

(** X14. [resolve_transaction] resolves the inputs before it formats the
    outputs: it raises the exception of the first input that fails, and
    the exception of the first output that fails only when every input
    resolved. *)
Theorem resolve_transaction_raises {Payload} (node : Node Payload)
    (tx : RawTx.t) (po : option (gmap (string * Z) Utxo.t)) (e : exn) :
  resolve_transaction node tx po = Raise e ↔
  (∃ l1 input l2 ins, RawTx.vin tx = l1 ++ input :: l2
                      ∧ mapM (fun i => resolve_input node i po) l1 = Ok ins
                      ∧ resolve_input node input po = Raise e)
  ∨ ((∃ ins, mapM (fun i => resolve_input node i po) (RawTx.vin tx) = Ok ins)
     ∧ ∃ l1 output l2 outs, RawTx.vout tx = l1 ++ output :: l2
                            ∧ mapM format_output l1 = Ok outs
                            ∧ format_output output = Raise e).
Proof.
  unfold resolve_transaction. split.
  - intros H.
    destruct (mapM _ (RawTx.vin tx)) as [ins |] eqn:Hin.
    + cbn in H. right. split; [eauto |].
      destruct (mapM format_output (RawTx.vout tx)) as [outs |] eqn:Hout;
        [discriminate |].
      cbn in H. injection H as <-. apply mapM_Raise. exact Hout.
    + cbn in H. injection H as <-. left. apply mapM_Raise. exact Hin.
  - intros [Hin | [[ins Hin] Hout]].
    + apply mapM_Raise in Hin. rewrite Hin. reflexivity.
    + apply mapM_Raise in Hout. rewrite Hin. cbn. rewrite Hout. reflexivity.
Qed.

(** ** More on the cache pass *)

Lemma set_cached_idem o : set_cached (set_cached o) = set_cached o.
Proof. reflexivity. Qed.

Lemma set_cached_id o : Output.cached o = true → set_cached o = o.
Proof. destruct o as [v p c]. cbn. intros ->. reflexivity. Qed.

Lemma mark_cached_payload (r r' : ref) (h : heap) :
  set_cached <$> mark_cached r h r' = set_cached <$> h r'.
Proof.
  unfold mark_cached. case_decide; [| reflexivity].
  destruct (h r'); reflexivity.
Qed.

Lemma mark_inputs_payload (tmp : utxo_map) (t i : nat) (inputs : list TxIn.t)
    (h : heap) (r : ref) :
  set_cached <$> mark_inputs tmp t i inputs h r = set_cached <$> h r.
Proof.
  revert i h. induction inputs as [| inp rest IH]; intros i h; cbn.
  - reflexivity.
  - rewrite IH. destruct (tmp !! outpoint_key inp); [| reflexivity].
    rewrite !mark_cached_payload. reflexivity.
Qed.

Lemma first_pass_payload (t : nat) (items : BlockData) (tmp : utxo_map)
    (h : heap) (r : ref) :
  set_cached <$> (first_pass t items tmp h).2 r = set_cached <$> h r.
Proof.
  revert t tmp h. induction items as [| [txid tx] rest IH]; intros t tmp h; cbn.
  - reflexivity.
  - rewrite IH. apply mark_inputs_payload.
Qed.

Lemma propagate_outputs_payload (tmp : utxo_map) (txid : string) (t j : nat)
    (outputs : list Output.t) (h : heap) (r : ref) :
  set_cached <$> propagate_outputs tmp txid t j outputs h r = set_cached <$> h r.
Proof.
  revert j h. induction outputs as [| o rest IH]; intros j h; cbn.
  - reflexivity.
  - rewrite IH. destruct (tmp !! (txid, Z.of_nat j)) as [r' |]; [| reflexivity].
    destruct (is_cached h r'); [apply mark_cached_payload | reflexivity].
Qed.

Lemma second_pass_payload (tmp : utxo_map) (t : nat) (items : BlockData)
    (h : heap) (r : ref) :
  set_cached <$> second_pass tmp t items h r = set_cached <$> h r.
Proof.
  revert t h. induction items as [| [txid tx] rest IH]; intros t h; cbn.
  - reflexivity.
  - rewrite IH. apply propagate_outputs_payload.
Qed.

Lemma final_heap_payload (data : BlockData) (r : ref) :
  set_cached <$> final_heap data r = set_cached <$> init_heap data r.
Proof.
  unfold final_heap. rewrite second_pass_payload. apply first_pass_payload.
Qed.

Lemma strip_default (h : heap) (r : ref) (o : Output.t) (h0 : heap) :
  h0 r = Some o → set_cached <$> h r = set_cached <$> h0 r →
  strip_output (default o (h r)) = strip_output o.
Proof.
  intros H0 Heq. rewrite H0 in Heq. destruct (h r) as [o' |]; [| reflexivity].
  cbn in Heq. injection Heq as Hv Hp. unfold strip_output. cbn.
  rewrite Hv, Hp. reflexivity.
Qed.

(** X16. The pass writes nothing but flags: with every flag put back to
    false the block after the pass is the block before it (same txids in
    the same order, same inputs and outputs, same values and scripts). *)
Theorem cache_pass_only_flags (data : BlockData) :
  strip_data (cache_pass data) = strip_data data.
Proof.
  rewrite cache_pass_read. unfold strip_data, read_data.
  apply list_eq. intros t.
  rewrite !list_lookup_fmap, list_lookup_imap.
  destruct (data !! t) as [[txid tx] |] eqn:Ht; [| reflexivity].
  cbn. do 2 f_equal. unfold strip_tx, read_tx. cbn. f_equal.
  - apply list_eq. intros i.
    rewrite !list_lookup_fmap, list_lookup_imap.
    destruct (Transaction.inputs tx !! i) as [inp |] eqn:Hi; [| reflexivity].
    cbn. f_equal. unfold strip_input, read_input. cbn. do 2 f_equal.
    apply (strip_default _ (InData t i) _ (init_heap data)).
    + cbn. rewrite Ht. cbn. rewrite Hi. reflexivity.
    + apply final_heap_payload.
  - apply list_eq. intros j.
    rewrite !list_lookup_fmap, list_lookup_imap.
    destruct (Transaction.outputs tx !! j) as [o |] eqn:Hj; [| reflexivity].
    cbn. f_equal.
    apply (strip_default _ (OutRec t j) _ (init_heap data)).
    + cbn. rewrite Ht. cbn. exact Hj.
    + apply final_heap_payload.
Qed.

Lemma mark_cached_noop (r r' : ref) (h : heap) :
  is_cached h r = true → mark_cached r h r' = h r'.
Proof.
  unfold is_cached, mark_cached. intros Hc. case_decide as Heq; [| reflexivity].
  subst r'. destruct (h r) as [o |]; [| discriminate]. cbn.
  rewrite set_cached_id by exact Hc. reflexivity.
Qed.

Lemma propagate_outputs_noop (data : BlockData) (t : nat) (txid : string)
    (tx : Transaction.t) (pre outs : list Output.t) (tmp : utxo_map) (h : heap)
    (r : ref) :
  NoDup data.*1 →
  data !! t = Some (txid, tx) →
  tmp_sound data (length data) tmp →
  propagate_outputs tmp txid t (length pre) outs h r = h r.
Proof.
  intros Hnd Ht Htmp. revert pre h. induction outs as [| o rest IH];
    intros pre h; cbn.
  - reflexivity.
  - replace (S (length pre)) with (length (pre ++ [o]))
      by (rewrite length_app; cbn; lia).
    rewrite IH.
    destruct (tmp !! (txid, Z.of_nat (length pre))) as [r' |] eqn:Hkey;
      [| reflexivity].
    destruct (is_cached h r') eqn:Hc; [| reflexivity].
    destruct (Htmp _ _ Hkey) as (a & A & txA & j & _ & Ha & _ & [= <- Hj] & ->).
    apply Nat2Z.inj in Hj. subst j.
    assert (a = t) as ->.
    { eapply (NoDup_lookup data.*1); [exact Hnd | |].
      - rewrite list_lookup_fmap, Ha. reflexivity.
      - rewrite list_lookup_fmap, Ht. reflexivity. }
    apply mark_cached_noop. exact Hc.
Qed.

Lemma second_pass_noop (data pre items : BlockData) (tmp : utxo_map) (h : heap)
    (r : ref) :
  NoDup data.*1 →
  data = pre ++ items →
  tmp_sound data (length data) tmp →
  second_pass tmp (length pre) items h r = h r.
Proof.
  intros Hnd. revert pre h. induction items as [| [txid tx] rest IH];
    intros pre h Hdata Htmp; cbn [second_pass].
  - reflexivity.
  - assert (Ht : data !! length pre = Some (txid, tx)).
    { rewrite Hdata, lookup_app_r by lia. rewrite Nat.sub_diag. reflexivity. }
    replace (S (length pre)) with (length (pre ++ [(txid, tx)]))
      by (rewrite length_app; cbn; lia).
    rewrite IH; [| rewrite <- app_assoc; exact Hdata | exact Htmp].
    apply (propagate_outputs_noop data (length pre) txid tx [] _ tmp h r Hnd Ht Htmp).
Qed.

(** X17. In a dict of transactions the second pass changes nothing: the
    entry of [tmp_utxo_set] under [(txid, idx)] is the very output record
    [tx["outputs"][idx]], so its flag was already set by the first pass
    when the second one looks at it. *)
Theorem second_pass_redundant (data : BlockData) :
  NoDup data.*1 →
  cache_pass data = read_data (first_pass 0 data ∅ (init_heap data)).2 data.
Proof.
  intros Hnd. rewrite cache_pass_read. unfold final_heap.
  destruct (first_pass_sound data [] data ∅ (init_heap data) eq_refl) as [Htmp _].
  - intros key r Hl. rewrite lookup_empty in Hl. discriminate.
  - intros r Hr. left. exact Hr.
  - cbn [length] in Htmp.
    assert (Hext : ∀ r, second_pass (first_pass 0 data ∅ (init_heap data)).1 0 data
                          (first_pass 0 data ∅ (init_heap data)).2 r
                        = (first_pass 0 data ∅ (init_heap data)).2 r).
    { intros r. exact (second_pass_noop data [] data _ _ r Hnd eq_refl Htmp). }
    unfold read_data. apply imap_ext. intros t [txid tx] _. cbn. f_equal.
    unfold read_tx. f_equal.
    + apply imap_ext. intros i inp _. unfold read_input. rewrite Hext. reflexivity.
    + apply imap_ext. intros j o _. cbn. rewrite Hext. reflexivity.
Qed.

Lemma second_pass_redundant_witness :
  cache_pass toy_data = read_data (first_pass 0 toy_data ∅ (init_heap toy_data)).2 toy_data.
Proof. apply (second_pass_redundant toy_data toy_data_NoDup). Defined.

(** X15. On a block as [fetch_block] returns it (distinct txids, no flag
    set) the pass sets exactly these flags: an input's, iff an earlier
    transaction of the block has an output with the input's key; an
    output's, iff a later transaction of the block has an input with the
    output's key. *)
Theorem cache_pass_flags (data : BlockData) :
  NoDup data.*1 → Forall (fun p => uncached_tx p.2) data →
  (∀ (b i : nat) B txB' inp',
     cache_pass data !! b = Some (B, txB') →
     Transaction.inputs txB' !! i = Some inp' →
     (Output.cached (OutPoint.data (TxIn.previous_output inp')) = true ↔
      ∃ (a j : nat) A txA,
        (a < b)%nat ∧ data !! a = Some (A, txA)
        ∧ (j < length (Transaction.outputs txA))%nat
        ∧ outpoint_key inp' = (A, Z.of_nat j)))
  ∧ (∀ (a j : nat) A txA' o',
       cache_pass data !! a = Some (A, txA') →
       Transaction.outputs txA' !! j = Some o' →
       (Output.cached o' = true ↔
        ∃ (b i : nat) B txB inp,
          (a < b)%nat ∧ data !! b = Some (B, txB)
          ∧ Transaction.inputs txB !! i = Some inp
          ∧ outpoint_key inp = (A, Z.of_nat j))).
Proof.
  intros Hnd Hun.
  assert (Hinit : ∀ r, is_cached (init_heap data) r = false).
  { intros [t i | t j]; unfold is_cached, init_heap.
    - destruct (data !! t) as [[txid tx] |] eqn:Ht; [| reflexivity]. cbn.
      destruct (Transaction.inputs tx !! i) as [inp |] eqn:Hi; [| reflexivity].
      cbn. rewrite Forall_forall in Hun.
      destruct (Hun (txid, tx)) as [Hins _]; [apply list_elem_of_lookup; eauto |].
      rewrite Forall_forall in Hins. apply Hins. apply list_elem_of_lookup. eauto.
    - destruct (data !! t) as [[txid tx] |] eqn:Ht; [| reflexivity]. cbn.
      destruct (Transaction.outputs tx !! j) as [o |] eqn:Hj; [| reflexivity].
      rewrite Forall_forall in Hun.
      destruct (Hun (txid, tx)) as [_ Houts]; [apply list_elem_of_lookup; eauto |].
      rewrite Forall_forall in Houts. apply Houts. apply list_elem_of_lookup. eauto. }
  split.
  - intros b i B txB' inp' Hb Hi.
    rewrite cache_pass_lookup in Hb.
    destruct (data !! b) as [[B0 txB] |] eqn:Hdb; [| discriminate].
    cbn in Hb. injection Hb as -> <-.
    cbn in Hi. rewrite list_lookup_imap in Hi.
    destruct (Transaction.inputs txB !! i) as [inp |] eqn:Hdi; [| discriminate].
    cbn in Hi. injection Hi as <-.
    assert (Horig : Output.cached (OutPoint.data (TxIn.previous_output inp)) = false).
    { specialize (Hinit (InData b i)). unfold is_cached, init_heap in Hinit.
      rewrite Hdb in Hinit. cbn [mbind option_bind snd] in Hinit.
      rewrite Hdi in Hinit. exact Hinit. }
    change (outpoint_key (read_input (final_heap data) b i inp))
      with (outpoint_key inp).
    split.
    + intros Hc. cbn in Hc.
      apply read_flag_inv in Hc as [Hc | Hc]; [congruence |].
      destruct (final_heap_sound data Hnd _ Hc) as [H0 | Hj];
        [rewrite Hinit in H0; discriminate |].
      destruct Hj as (b' & B' & txB'' & i' & inp'' & r' & _ & Hb' & Hi'
                      & Hcr & [[= <- <-] | Hr]).
      * rewrite Hdb in Hb'. injection Hb' as <- <-.
        rewrite Hdi in Hi'. injection Hi' as <-.
        destruct Hcr as (a & A & txA & j & Halt & Ha & Hjlt & Hkey & _).
        exists a, j, A, txA. auto.
      * destruct Hcr as (? & ? & ? & ? & _ & _ & _ & _ & ->). discriminate.
    + intros (a & j & A & txA & Hab & Ha & Hj & Hkey). cbn.
      apply read_flag_true.
      exact (proj1 (final_heap_marks data a b i j A B txA txB inp Hnd Ha Hdb Hab
                      Hj Hdi Hkey)).
  - intros a j A txA' o' Ha Ho.
    rewrite cache_pass_lookup in Ha.
    destruct (data !! a) as [[A0 txA] |] eqn:Hda; [| discriminate].
    cbn in Ha. injection Ha as -> <-.
    cbn in Ho. rewrite list_lookup_imap in Ho.
    destruct (Transaction.outputs txA !! j) as [o |] eqn:Hdo; [| discriminate].
    cbn in Ho. injection Ho as <-.
    assert (Horig : Output.cached o = false).
    { specialize (Hinit (OutRec a j)). unfold is_cached, init_heap in Hinit.
      rewrite Hda in Hinit. cbn [mbind option_bind snd] in Hinit.
      rewrite Hdo in Hinit. exact Hinit. }
    split.
    + intros Hc.
      apply read_flag_inv in Hc as [Hc | Hc]; [congruence |].
      destruct (final_heap_sound data Hnd _ Hc) as [H0 | Hj];
        [rewrite Hinit in H0; discriminate |].
      destruct Hj as (b & B & txB & i & inp & r' & _ & Hb & Hi
                      & Hcr & [[=] | <-]).
      destruct Hcr as (a' & A' & txA'' & j' & Halt & Ha' & _ & Hkey & [= <- <-]).
      rewrite Hda in Ha'. injection Ha' as <- <-.
      exists b, i, B, txB, inp. auto.
    + intros (b & i & B & txB & inp & Hab & Hb & Hi & Hkey).
      apply read_flag_true.
      exact (proj2 (final_heap_marks data a b i j A B txA txB inp Hnd Hda Hb Hab
                      (lookup_lt_Some _ _ _ Hdo) Hi Hkey)).
Qed.

Lemma cache_pass_flags_witness :
  ∃ txA' o0 o1,
    cache_pass toy_data !! 1%nat = Some ("aa", txA')
    ∧ Transaction.outputs txA' !! 0%nat = Some o0
    ∧ Transaction.outputs txA' !! 1%nat = Some o1
    ∧ Output.cached o0 = true ∧ Output.cached o1 = false.
Proof.
  destruct (cache_pass_flags toy_data toy_data_NoDup) as [_ Hout];
    [repeat constructor |].
  destruct (cache_pass toy_data !! 1%nat) as [[A txA'] |] eqn:Ha;
    [| vm_compute in Ha; discriminate].
  pose proof Ha as Ha'. vm_compute in Ha'. injection Ha' as HA HtxA.
  destruct (Transaction.outputs txA' !! 0%nat) as [o0 |] eqn:H0;
    [| rewrite <- HtxA in H0; discriminate].
  destruct (Transaction.outputs txA' !! 1%nat) as [o1 |] eqn:H1;
    [| rewrite <- HtxA in H1; discriminate].
  exists txA', o0, o1. subst A.
  split; [first [reflexivity | exact Ha] |].
  split; [exact H0 |]. split; [exact H1 |]. split.
  - apply (Hout 1%nat 0%nat "aa" txA' o0 Ha H0).
    eexists 2%nat, 0%nat, "bb", _, _.
    split; [lia |]. split; [reflexivity |]. split; reflexivity.
  - destruct (Output.cached o1) eqn:Hc; [| reflexivity]. exfalso.
    apply (Hout 1%nat 1%nat "aa" txA' o1 Ha H1) in Hc
      as (b & i & B & txB & inp & Hab & Hb & Hi & Hkey).
    destruct b as [| [| [| b]]]; try lia; [| discriminate Hb].
    injection Hb as <- <-.
    destruct i as [| i]; [| discriminate Hi].
    injection Hi as <-. discriminate Hkey.
Defined.

(** ** More on chain states *)

Lemma walk_back_shape {Payload} (node : Node Payload) n hdr ts r :
  walk_back node n hdr ts = Ok r →
  ∃ anc, r = anc ++ ts ∧ (length anc ≤ n)%nat.
Proof.
  revert hdr ts r. induction n as [| n IH]; intros hdr ts r H; cbn [walk_back] in H.
  - injection H as <-. exists []. split; [reflexivity | cbn; lia].
  - destruct (Header.height hdr =? 0).
    + injection H as <-. exists []. split; [reflexivity | cbn; lia].
    + destruct (Header.previousblockhash hdr) as [ph |]; [| discriminate].
      cbn in H. destruct (getblockheader node ph) as [p |]; [| discriminate].
      cbn in H. destruct (IH _ _ _ H) as (anc & -> & Hlen).
      exists (anc ++ [Header.time p]). split.
      * rewrite <- app_assoc. reflexivity.
      * rewrite length_app. cbn. lia.
Qed.

(** X18. Whatever the node answers, a chain state that [fetch_chain_state]
    returns has between 1 and 11 timestamps, the last of which is the time
    of its own header, which is the header the node reports for the hash
    of the requested height; below height 2016 its epoch start is the
    genesis time, without any lookup. *)
Theorem fetch_chain_state_shape {Payload} (node : Node Payload)
    (block_height : Z) (cs : ChainState.t) :
  fetch_chain_state node block_height = Ok cs →
  (∃ hash, getblockhash node block_height = Ok hash
           ∧ getblockheader node hash = Ok (ChainState.head cs))
  ∧ (1 ≤ length (ChainState.prev_timestamps cs) ≤ 11)%nat
  ∧ py_index (ChainState.prev_timestamps cs) (-1)
    = Ok (Header.time (ChainState.head cs))
  ∧ (block_height < 2016 → ChainState.epoch_start_time cs = genesis_time).
Proof.
  unfold fetch_chain_state. intros H.
  destruct (getblockhash node block_height) as [hash |]; [| discriminate].
  cbn [mbind result_bind] in H.
  destruct (getblockheader node hash) as [head |] eqn:Hhead; [| discriminate].
  cbn [mbind result_bind] in H.
  destruct (walk_back node 10 head [Header.time head]) as [ts |] eqn:Hw;
    [| discriminate].
  cbn [mbind result_bind] in H.
  destruct (walk_back_shape _ _ _ _ _ Hw) as (anc & -> & Hlen).
  destruct (block_height <? 2016) eqn:Hlt.
  - cbn in H. injection H as <-. cbn.
    split; [eauto |]. split; [rewrite length_app; cbn; lia |].
    split; [apply py_index_last | reflexivity].
  - destruct (get_epoch_start_time node block_height); [| discriminate].
    cbn in H. injection H as <-. cbn.
    split; [eauto |]. split; [rewrite length_app; cbn; lia |].
    split; [apply py_index_last | lia].
Qed.

Lemma fetch_chain_state_shape_witness :
  ∃ cs, fetch_chain_state Toy.node 1 = Ok cs
        ∧ (1 ≤ length (ChainState.prev_timestamps cs) ≤ 11)%nat
        ∧ ChainState.epoch_start_time cs = genesis_time.
Proof.
  destruct (fetch_chain_state Toy.node 1) as [cs |] eqn:Hcs;
    [| vm_compute in Hcs; discriminate].
  destruct (fetch_chain_state_shape Toy.node 1 cs Hcs) as (_ & Hlen & _ & Hepoch).
  exists cs. split; [reflexivity |]. split; [exact Hlen |]. apply Hepoch. lia.
Defined.

(** X19. The epoch start is looked up at the greatest multiple of 2016
    that does not exceed the requested height. *)
Theorem get_epoch_start_time_height {Payload} (node : Node Payload)
    (block_height t : Z) :
  get_epoch_start_time node block_height = Ok t →
  ∃ k hash header,
    k mod 2016 = 0 ∧ k ≤ block_height < k + 2016
    ∧ getblockhash node k = Ok hash
    ∧ getblockheader node hash = Ok header
    ∧ t = Header.time header.
Proof.
  unfold get_epoch_start_time. intros H.
  destruct (getblockhash node _) as [hash |] eqn:Hh; [| discriminate].
  cbn in H. destruct (getblockheader node hash) as [header |] eqn:Hd;
    [| discriminate].
  cbn in H. injection H as <-.
  exists (block_height / 2016 * 2016), hash, header.
  pose proof (Z.div_mod block_height 2016 ltac:(lia)).
  pose proof (Z.mod_pos_bound block_height 2016 ltac:(lia)).
  split; [apply Z.mod_mul; lia |]. split; [lia |]. auto.
Qed.

Lemma get_epoch_start_time_height_witness :
  ∃ k hash header,
    k mod 2016 = 0 ∧ k ≤ 2 < k + 2016
    ∧ getblockhash Toy.node k = Ok hash
    ∧ getblockheader Toy.node hash = Ok header
    ∧ Header.time Toy.h0 = Header.time header.
Proof.
  apply (get_epoch_start_time_height Toy.node 2 (Header.time Toy.h0)).
  reflexivity.
Defined.

Lemma walk_back_S {Payload} (node : Node Payload) n hdr ts :
  walk_back node (S n) hdr ts
  = if Header.height hdr =? 0 then Ok ts
    else ph ← get_key (Header.previousblockhash hdr);
         p ← getblockheader node ph;
         walk_back node n p (Header.time p :: ts).
Proof. reflexivity. Qed.

Lemma walk_back_suffix {Payload} (node : Node Payload) n hdr ts s :
  walk_back node n hdr (ts ++ s)
  = (r ← walk_back node n hdr ts; Ok (r ++ s)).
Proof.
  revert hdr ts. induction n as [| n IH]; intros hdr ts; cbn [walk_back].
  - reflexivity.
  - destruct (Header.height hdr =? 0); [reflexivity |].
    destruct (Header.previousblockhash hdr) as [ph |]; [| reflexivity].
    cbn. destruct (getblockheader node ph) as [p |]; [| reflexivity].
    cbn. apply (IH p (Header.time p :: ts)).
Qed.

Lemma walk_back_less {Payload} (node : Node Payload) n hdr ts r :
  walk_back node (S n) hdr ts = Ok r →
  walk_back node n hdr ts = Ok (drop (length r - (length ts + n)) r).
Proof.
  revert hdr ts r. induction n as [| n IH]; intros hdr ts r H.
  - cbn [walk_back] in H |- *.
    destruct (Header.height hdr =? 0).
    + injection H as <-. rewrite Nat.add_0_r, Nat.sub_diag. reflexivity.
    + destruct (Header.previousblockhash hdr) as [ph |]; [| discriminate].
      cbn in H. destruct (getblockheader node ph) as [p |]; [| discriminate].
      cbn in H. injection H as <-. cbn [length].
      replace (S (length ts) - (length ts + 0))%nat with 1%nat by lia.
      reflexivity.
  - remember (S n) as k. cbn [walk_back] in H. subst k. cbn [walk_back].
    destruct (Header.height hdr =? 0).
    + injection H as <-.
      replace (length ts - (length ts + S n))%nat with 0%nat by lia. reflexivity.
    + destruct (Header.previousblockhash hdr) as [ph |]; [| discriminate].
      cbn in H |- *. destruct (getblockheader node ph) as [p |]; [| discriminate].
      cbn in H |- *. rewrite (IH _ _ _ H). cbn [length].
      do 2 f_equal. lia.
Qed.

(** X20. Fetching the chain state one block higher gives the state that
    the transition computes: when the node reports, for height [h + 1], a
    header of that height whose previous hash leads back to the head of
    the state fetched at [h >= 0], then
    [fetch_chain_state (h + 1) = next_chain_state (fetch_chain_state h) block]. *)
Theorem fetch_next_chain_state {Payload} (node : Node Payload) (h : Z)
    (cs : ChainState.t) (hash prev : string) (b : Header.t) :
  0 ≤ h →
  fetch_chain_state node h = Ok cs →
  getblockhash node (h + 1) = Ok hash →
  getblockheader node hash = Ok b →
  Header.height b = h + 1 →
  Header.previousblockhash b = Some prev →
  getblockheader node prev = Ok (ChainState.head cs) →
  fetch_chain_state node (h + 1) = Ok (next_chain_state cs (LightBlock b)).
Proof.
  intros Hh Hcs Hhash Hb Hheight Hprev Hhead.
  unfold fetch_chain_state in Hcs.
  destruct (getblockhash node h) as [x |]; [| discriminate].
  cbn [mbind result_bind] in Hcs.
  destruct (getblockheader node x) as [head |]; [| discriminate].
  cbn [mbind result_bind] in Hcs.
  destruct (walk_back node 10 head [Header.time head]) as [ts |] eqn:Hw;
    [| discriminate].
  cbn [mbind result_bind] in Hcs.
  destruct (if h <? 2016 then Ok genesis_time else get_epoch_start_time node h)
    as [est |] eqn:Hest; [| discriminate].
  cbn [mbind result_bind] in Hcs. injection Hcs as <-.
  cbn [ChainState.head] in Hhead.
  destruct (walk_back_shape _ _ _ _ _ Hw) as (anc & Hts & Hlen).
  unfold fetch_chain_state. rewrite Hhash. cbn [mbind result_bind].
  rewrite Hb. cbn [mbind result_bind].
  assert (Hwalk : walk_back node 10 b [Header.time b]
                  = Ok (py_last_n 11 (ts ++ [Header.time b]))).
  { rewrite (walk_back_S node 9).
    rewrite (proj2 (Z.eqb_neq _ _)) by lia.
    rewrite Hprev. cbn [get_key mbind result_bind]. rewrite Hhead.
    cbn [mbind result_bind].
    change (Header.time head :: [Header.time b])
      with ([Header.time head] ++ [Header.time b]).
    rewrite (walk_back_suffix node 9 head [Header.time head] [Header.time b]).
    rewrite (walk_back_less node 9 head [Header.time head] ts Hw).
    cbn [mbind result_bind length].
    f_equal. unfold py_last_n. rewrite length_app. cbn [length].
    rewrite drop_app_le by lia. do 2 f_equal. lia. }
  rewrite Hwalk. cbn [mbind result_bind].
  unfold next_chain_state. cbn [block_header ChainState.prev_timestamps
                                 ChainState.epoch_start_time].
  rewrite Hheight.
  destruct (Z.ltb_spec (h + 1) 2016) as [Hlt | Hge].
  - rewrite (proj2 (Z.ltb_lt h 2016)) in Hest by lia. injection Hest as <-.
    cbn [mbind result_bind].
    rewrite (proj2 (Z.eqb_neq ((h + 1) mod 2016) 0)); [reflexivity |].
    rewrite Z.mod_small by lia. lia.
  - destruct (Z.eqb_spec ((h + 1) mod 2016) 0) as [Hz | Hnz].
    + unfold get_epoch_start_time.
      replace ((h + 1) / 2016 * 2016) with (h + 1).
      * rewrite Hhash. cbn. rewrite Hb. reflexivity.
      * pose proof (Z.div_mod (h + 1) 2016 ltac:(lia)). lia.
    + assert (Hh2016 : 2016 ≤ h).
      { destruct (Z.eq_dec h 2015) as [-> | ?]; [| lia].
        exfalso. apply Hnz. reflexivity. }
      rewrite (proj2 (Z.ltb_ge h 2016)) in Hest by lia.
      assert (Hdiv : (h + 1) / 2016 = h / 2016).
      { pose proof (Z.div_mod (h + 1) 2016 ltac:(lia)).
        pose proof (Z.mod_pos_bound (h + 1) 2016 ltac:(lia)).
        apply (Z.div_unique h 2016 ((h + 1) / 2016) ((h + 1) mod 2016 - 1)).
        - lia.
        - lia. }
      unfold get_epoch_start_time in Hest |- *. rewrite Hdiv, Hest. reflexivity.
Qed.

Lemma fetch_next_chain_state_witness :
  ∃ cs, fetch_chain_state Toy.node 1 = Ok cs
        ∧ fetch_chain_state Toy.node 2 = Ok (next_chain_state cs (LightBlock Toy.h2)).
Proof.
  destruct (fetch_chain_state Toy.node 1) as [cs |] eqn:Hcs;
    [| vm_compute in Hcs; discriminate].
  exists cs. split; [reflexivity |].
  apply (fetch_next_chain_state Toy.node 1 cs "h2" "h1" Toy.h2);
    [lia | exact Hcs | reflexivity | reflexivity | reflexivity | reflexivity |].
  vm_compute in Hcs. injection Hcs as <-. reflexivity.
Defined.

(** ** More on the assembler *)






Lemma py_last_n_idem {A} (l : list A) (x : A) :
  py_last_n 11 (py_last_n 11 l ++ [x]) = py_last_n 11 (l ++ [x]).
Proof.
  unfold py_last_n. rewrite !length_app, length_drop. cbn [length].
  destruct (le_lt_dec (length l) 11) as [Hle | Hgt].
  - replace (length l - 11)%nat with 0%nat by lia.
    rewrite drop_0, Nat.sub_0_r. reflexivity.
  - rewrite !drop_app_le by (rewrite ?length_drop; lia).
    rewrite drop_drop. do 2 f_equal. lia.
Qed.

(** X22. After folding the transition over one or more blocks, the head
    is the header of the last block and the window holds the last 11 of
    the old window followed by the times of the blocks, in order. *)
Theorem fold_next_chain_state (cs : ChainState.t) (blocks : list Block) (b : Block) :
  let final := fold_left next_chain_state (blocks ++ [b]) cs in
  ChainState.head final = block_header b
  ∧ ChainState.prev_timestamps final
    = py_last_n 11 (ChainState.prev_timestamps cs
                    ++ (block_time <$> blocks ++ [b])).
Proof.
  cbn zeta. rewrite fold_left_app. cbn [fold_left].
  split; [reflexivity |].
  revert b. induction blocks as [| b' blocks IH] using rev_ind; intros b.
  - reflexivity.
  - rewrite fold_left_app. cbn [fold_left].
    unfold next_chain_state at 1. cbn [ChainState.prev_timestamps].
    rewrite IH. fold (block_time b). rewrite py_last_n_idem.
    rewrite (fmap_app _ (blocks ++ [b'])). rewrite app_assoc. reflexivity.
Qed.

(** X23. A mode other than light, full and utreexo is rejected with
    [NotImplementedError] inside the loop, that is, only when at least one
    block is requested and the initial state was fetched; with no block to
    fetch the same call returns a fixture without blocks. *)
Theorem generate_data_unsupported {Payload} (node : Node Payload) (mode : string)
    (initial_height num_blocks : Z) (fast : bool) (cs0 : ChainState.t)
    (hash : string) :
  mode ≠ "light" → mode ≠ "full" → mode ≠ "utreexo" →
  initial_state node initial_height fast = Ok cs0 →
  Header.nextblockhash (ChainState.head cs0) = Some hash →
  (0 < num_blocks →
     generate_data node mode initial_height num_blocks fast
     = Raise (NotImplementedError mode))
  ∧ (num_blocks ≤ 0 →
     generate_data node mode initial_height num_blocks fast
     = (fcs ← format_chain_state cs0; Ok (Fixture.mk fcs [] fcs None))).
Proof.
  intros Hl Hf Hu Hcs0 Hhash.
  unfold generate_data. fold (initial_state node initial_height fast).
  rewrite Hcs0. cbn [mbind result_bind]. rewrite Hhash.
  cbn [get_key mbind result_bind]. split.
  - intros Hn. destruct (Z.to_nat num_blocks) as [| n] eqn:Hk; [lia |].
    cbn [fetch_loop]. unfold fetch_one.
    repeat (case_decide; try tauto).
  - intros Hn. replace (Z.to_nat num_blocks) with 0%nat by lia.
    cbn [fetch_loop mbind result_bind].
    repeat (case_decide; try tauto). cbn [mapM].
    destruct (format_chain_state cs0); reflexivity.
Qed.

Lemma generate_data_unsupported_witness :
  generate_data Toy.node "fast" 0 1 false = Raise (NotImplementedError "fast")
  ∧ ∃ fx, generate_data Toy.node "fast" 0 0 false = Ok fx
          ∧ Fixture.blocks fx = [].
Proof.
  destruct (generate_data_unsupported Toy.node "fast" 0 1 false
              (ChainState.mk Toy.h0 [Header.time Toy.h0] genesis_time) "h1")
    as [Hraise _]; try discriminate; try reflexivity.
  destruct (generate_data_unsupported Toy.node "fast" 0 0 false
              (ChainState.mk Toy.h0 [Header.time Toy.h0] genesis_time) "h1")
    as [_ Hzero]; try discriminate; try reflexivity.
  split; [apply Hraise; lia |].
  rewrite Hzero by lia. eexists. split; reflexivity.
Defined.

Lemma resolve_transaction_raises_witness :
  resolve_transaction Toy.node
    (RawTx.mk "dd" 1 "0100" [Toy.spend "c1" 0; Toy.cb_in ""] [RawOutput.mk "x" "51"]
       0 None) None
  = Raise KeyError.
Proof.
  apply (resolve_transaction_raises Toy.node). left.
  exists [Toy.spend "c1" 0], (Toy.cb_in ""), [].
  eexists. split; [reflexivity |]. split; reflexivity.
Defined.

(** ** Sign of the amount *)

Lemma digit_val_nonneg c v : digit_val c = Some v → 0 ≤ v.
Proof. unfold digit_val. case_match; [| discriminate]. intros [= <-]. lia. Qed.

Lemma read_digits_nonneg s acc n : 0 ≤ acc → 0 ≤ (read_digits s acc n).1.1.
Proof.
  revert acc n. induction s as [| c s IH]; intros acc n Hacc; cbn.
  - exact Hacc.
  - destruct (digit_val c) as [v |] eqn:Hv; [| exact Hacc].
    apply IH. pose proof (digit_val_nonneg _ _ Hv). lia.
Qed.

Lemma decimal_numeral_sign sg s1 d :
  decimal_numeral sg s1 = Ok d → 0 ≤ Decimal.coeff d ∧ Decimal.sign d = sg.
Proof.
  unfold decimal_numeral.
  pose proof (read_digits_nonneg s1 0 0 ltac:(lia)) as Hip.
  destruct (read_digits s1 0 0) as [[ip ilen] s2]. cbn in Hip.
  assert (Hc : ∀ c flen s3,
            match s2 with
            | String "." s2' => read_digits s2' ip 0
            | _ => (ip, 0, s2)
            end = (c, flen, s3) → 0 ≤ c).
  { intros c flen s3 Heq. destruct s2 as [| ch s2'].
    - injection Heq as <- _ _. exact Hip.
    - destruct (Ascii.ascii_dec ch ".") as [-> | Hne].
      + pose proof (read_digits_nonneg s2' ip 0 Hip) as H. rewrite Heq in H. exact H.
      + assert (Hsame : match ch with
                        | "."%char => read_digits s2' ip 0
                        | _ => (ip, 0, String ch s2')
                        end = (ip, 0, String ch s2')).
        { destruct ch as [[] [] [] [] [] [] [] []]; try reflexivity.
          exfalso. apply Hne. reflexivity. }
        rewrite Hsame in Heq. injection Heq as <- _ _. exact Hip. }
  destruct (match s2 with
            | String "." s2' => read_digits s2' ip 0
            | _ => (ip, 0, s2)
            end) as [[c flen] s3] eqn:Hfrac.
  specialize (Hc c flen s3 eq_refl).
  destruct (ilen + flen =? 0); [discriminate |].
  destruct s3 as [| e s4].
  - intros [= <-]. cbn. auto.
  - destruct ((ascii_code e =? 101) || (ascii_code e =? 69)); [| discriminate].
    destruct (read_sign s4) as [esg s5].
    destruct (read_digits s5 0 0) as [[ev elen] s6].
    destruct s6; [| discriminate].
    destruct (elen =? 0); [discriminate |].
    intros [= <-]. cbn. auto.
Qed.

Lemma decimal_of_string_sign text d :
  decimal_of_string text = Ok d →
  0 ≤ Decimal.coeff d
  ∧ Decimal.sign d = (read_sign (remove_underscores (str_strip text))).1.
Proof.
  unfold decimal_of_string, decimal_new.
  destruct (read_sign (remove_underscores (str_strip text))) as [sg body].
  cbn [fst].
  destruct (bool_decide _ || bool_decide _); [discriminate |].
  destruct (bool_decide _ && all_digits _); [discriminate |].
  destruct (bool_decide _ && all_digits _); [discriminate |].
  destruct (decimal_numeral sg body) as [d' |] eqn:Hnum; [| discriminate].
  cbn. intros [= <-]. exact (decimal_numeral_sign _ _ _ Hnum).
Qed.

Lemma read_sign_minus (s : string) :
  (read_sign s).1 = true ↔ ∃ rest, s = String "-" rest.
Proof.
  destruct s as [| ch rest].
  - split; [discriminate | intros [? ?]; discriminate].
  - destruct (Ascii.ascii_dec ch "-") as [-> | Hne].
    + split; [eauto | reflexivity].
    + split.
      * destruct ch as [[] [] [] [] [] [] [] []]; cbn; try discriminate.
        exfalso. apply Hne. reflexivity.
      * intros [r [= -> _]]. exfalso. apply Hne. reflexivity.
Qed.

Lemma decimal_fix_sign s c e d :
  0 ≤ c → decimal_fix (Decimal.mk s c e) = Ok d →
  0 ≤ Decimal.coeff d ∧ Decimal.sign d = s.
Proof.
  intros Hc. unfold decimal_fix. cbv beta iota zeta.
  destruct (c =? 0); [intros [= <-]; cbn; split; [lia | reflexivity] |].
  destruct (Etop <? ndigits c + e - prec); [discriminate |].
  set (exp_min := if ndigits c + e - prec <? Etiny then Etiny
                  else ndigits c + e - prec).
  destruct (e <? exp_min); [| intros [= <-]; cbn; auto].
  destruct (ndigits c + e - exp_min <? 0).
  - set (changed := round_half_even 1 1 0).
    destruct (0 <? changed).
    + destruct (prec <? ndigits (1 / 10 ^ (1 - 0) + 1)).
      * destruct (Etop <? exp_min + 1); [discriminate |].
        intros [= <-]. cbn. split; [| reflexivity]. vm_compute. discriminate.
      * destruct (Etop <? exp_min); [discriminate |].
        intros [= <-]. cbn. split; [| reflexivity]. vm_compute. discriminate.
    + destruct (Etop <? exp_min); [discriminate |].
      intros [= <-]. cbn. split; [| reflexivity]. vm_compute. discriminate.
  - set (k := ndigits c - (ndigits c + e - exp_min)).
    assert (Hq : 0 ≤ c / 10 ^ k).
    { apply Z_div_nonneg_nonneg; [exact Hc |]. apply Z.pow_nonneg. lia. }
    set (changed := round_half_even c (ndigits c) (ndigits c + e - exp_min)).
    destruct (0 <? changed).
    + destruct (prec <? ndigits (c / 10 ^ k + 1)).
      * destruct (Etop <? exp_min + 1); [discriminate |].
        intros [= <-]. cbn. split; [| reflexivity].
        apply Z_div_nonneg_nonneg; lia.
      * destruct (Etop <? exp_min); [discriminate |].
        intros [= <-]. cbn. split; [lia | reflexivity].
    + destruct (Etop <? exp_min); [discriminate |].
      intros [= <-]. cbn. split; [exact Hq | reflexivity].
Qed.

(** X24. The sign of the formatted value is the sign that [Decimal]
    reads in the amount: for an ASCII amount text, stripped of
    surrounding white space and of underscores as [Decimal] does, the
    value is not negative unless that text starts with a minus sign, and
    not positive when it does, whatever its number of digits. *)
Theorem format_output_nonneg (output : RawOutput.t) (o : Output.t) :
  ascii_text (RawOutput.value output) = true →
  format_output output = Ok o →
  let text := remove_underscores (str_strip (RawOutput.value output)) in
  ((∀ rest, text ≠ String "-" rest) → 0 ≤ Output.value o)
  ∧ ((∃ rest, text = String "-" rest) → Output.value o ≤ 0).
Proof.
  unfold format_output, satoshis. intros _ H.
  destruct (decimal_of_string (RawOutput.value output)) as [[s c e] |] eqn:Hparse;
    [| discriminate].
  cbn [mbind result_bind] in H.
  destruct (decimal_of_string_sign _ _ Hparse) as [Hc Hs]. cbn in Hc, Hs.
  unfold decimal_mul, hundred_million in H.
  cbn [Decimal.sign Decimal.coeff Decimal.exp] in H. rewrite xorb_false_r in H.
  destruct (decimal_fix (Decimal.mk s (c * 100000000) (e + 0)))
    as [[s' c' e'] |] eqn:Hfix; [| discriminate].
  cbn [mbind result_bind] in H. injection H as <-. cbn [Output.value].
  destruct (decimal_fix_sign s (c * 100000000) (e + 0) _ ltac:(lia) Hfix)
    as [Hc' Hs'].
  cbn in Hc', Hs'. subst s'.
  destruct (to_integral_nearest s c' e' Hc') as (q & Hq & -> & _).
  cbn zeta. split.
  - intros Hplus. destruct s; cbv iota; [| lia].
    exfalso. symmetry in Hs. apply read_sign_minus in Hs as [rest Hrest].
    exact (Hplus rest Hrest).
  - intros Hminus. apply read_sign_minus in Hminus. rewrite <- Hs in Hminus.
    rewrite Hminus. lia.
Qed.

Lemma format_output_nonneg_witness :
  (∃ o, format_output (RawOutput.mk "123456789.123456789" "51") = Ok o
        ∧ 0 ≤ Output.value o)
  ∧ (∃ o, format_output (RawOutput.mk " -1.5" "51") = Ok o
          ∧ Output.value o ≤ 0).
Proof.
  split.
  - destruct (format_output (RawOutput.mk "123456789.123456789" "51"))
      as [o |] eqn:Ho; [| vm_compute in Ho; discriminate].
    exists o. split; [reflexivity |].
    apply (format_output_nonneg (RawOutput.mk "123456789.123456789" "51") o
             eq_refl Ho).
    intros rest. discriminate.
  - destruct (format_output (RawOutput.mk " -1.5" "51"))
      as [o |] eqn:Ho; [| vm_compute in Ho; discriminate].
    exists o. split; [reflexivity |].
    apply (format_output_nonneg (RawOutput.mk " -1.5" "51") o eq_refl Ho).
    exists "1.5". reflexivity.
Defined.

(** What [format_output] does with amount texts outside the numbers a node
    writes. *)
Example satoshis_other_texts :
  satoshis " -1.5" = Ok (-150000000)
  ∧ satoshis "1_000.5" = Ok 100050000000
  ∧ satoshis "5." = Ok 500000000
  ∧ satoshis "inf" = Raise OverflowError
  ∧ satoshis "-Infinity" = Raise OverflowError
  ∧ satoshis "NaN" = Raise ValueError
  ∧ satoshis "sNaN12" = Raise InvalidOperation
  ∧ satoshis "1 2" = Raise InvalidOperation
  ∧ satoshis "" = Raise InvalidOperation.
Proof. repeat split. Qed.
